(** * A sharded, leader/follower replicated key-value store

    Shallow embedding of the routing tier ([apps/coordinator/app]) and of
    the shard replica ([apps/shard/app]), with the properties the design
    document states about them.

    Conventions of the embedding:
    - a Python [str] is a Rocq [string] holding its UTF-8 bytes (byte-wise
      lexicographic order on UTF-8 coincides with Python's code-point order);
    - a Python [int] is a [Z]; a [dict] used as a map is a [gmap], and an
      association list where its insertion order is observable;
    - the readings of [time.time()] and the TTL, floats in the source, are
      integers counting ticks of one common unit;
    - wall-clock readings ([time.time()], [time.time_ns()]) and the answers
      of remote peers (HTTP calls, the message broker) are inputs of the
      handlers; a handler returns its HTTP response together with the new
      state and, where relevant, the list of outbound calls it made. *)

From Stdlib Require Import ZArith Lia Ascii.
From stdpp Require Import gmap strings list sorting pretty.

Local Open Scope string_scope.
Local Open Scope Z_scope.
Local Open Scope list_scope.

(** ** JSON values carried as record payloads *)

#[warnings="-register-all"] Inductive json : Type :=
  | JNull
  | JBool (b : bool)
  | JNum (n : Z)
  | JStr (s : string)
  | JArr (l : list json)
  | JObj (l : list (string * json)).

(** A record value is a JSON object, [Dict[str, Any]], kept as the list of
    its items. The store never inspects it. *)
Definition pydict : Type := list (string * json).

(** ** Python comparisons *)

Module Py.

(** [a > b] on [str]. *)
Definition str_gt (a b : string) : bool := String.ltb b a.

(** [(v1, o1) > (v2, o2)] on [(int, str)] tuples: the first differing
    component decides. *)
Definition tuple_gt (a b : Z * string) : bool :=
  if decide (a.1 = b.1) then str_gt a.2 b.2 else bool_decide (b.1 < a.1).

(** Truthiness of a [str]: only the empty string is falsy. *)
Definition truthy (s : string) : bool :=
  match s with EmptyString => false | String _ _ => true end.

(** [s.rstrip("/")]. *)
Fixpoint rstrip_slash (s : string) : string :=
  match s with
  | EmptyString => EmptyString
  | String c s' =>
      match rstrip_slash s' with
      | EmptyString => if decide (c = "/"%char) then EmptyString else String c EmptyString
      | r => String c r
      end
  end.

(** The order [<=] on [(int, str)] tuples, as the negation of [>]. *)
Definition tuple_le (a b : Z * string) : Prop := tuple_gt a b = false.

End Py.

(** ** Python exceptions *)

Inductive exn : Type := KeyError | ValueError | IndexError.

(** The outcome of a call that may raise. The object state left behind by
    a call that raises is not modelled. *)
Inductive result (A : Type) : Type :=
  | Ok (a : A)
  | Raise (e : exn).
Arguments Ok {A} a.
Arguments Raise {A} e.

Definition rbind {A B} (x : result A) (f : A → result B) : result B :=
  match x with
  | Ok a => f a
  | Raise e => Raise e
  end.

Notation "x ←r y ; z" := (rbind y (λ x, z))
  (at level 20, y at level 100, z at level 200, only parsing).

(** ** SHA-256 (FIPS 180-4), the function behind [hashlib.sha256] *)

Module Sha256.

Definition mask32 : Z := 0xffffffff.
Definition add32 (x y : Z) : Z := Z.land (x + y) mask32.
Definition rotr (n x : Z) : Z :=
  Z.land (Z.lor (Z.shiftr x n) (Z.shiftl x (32 - n))) mask32.
Definition shr (n x : Z) : Z := Z.shiftr x n.
Definition not32 (x : Z) : Z := Z.lxor x mask32.

Definition Ch (x y z : Z) : Z := Z.lxor (Z.land x y) (Z.land (not32 x) z).
Definition Maj (x y z : Z) : Z :=
  Z.lxor (Z.lxor (Z.land x y) (Z.land x z)) (Z.land y z).
Definition Sigma0 (x : Z) : Z := Z.lxor (Z.lxor (rotr 2 x) (rotr 13 x)) (rotr 22 x).
Definition Sigma1 (x : Z) : Z := Z.lxor (Z.lxor (rotr 6 x) (rotr 11 x)) (rotr 25 x).
Definition sigma0 (x : Z) : Z := Z.lxor (Z.lxor (rotr 7 x) (rotr 18 x)) (shr 3 x).
Definition sigma1 (x : Z) : Z := Z.lxor (Z.lxor (rotr 17 x) (rotr 19 x)) (shr 10 x).

(** The first 64 primes, [2 .. 311]. *)
Definition is_prime (n : Z) : bool :=
  forallb (λ d, negb (n mod d =? 0)) (seqZ 2 (n - 2)).
Definition primes : list Z := filter (λ n, is_prime n = true) (seqZ 2 310).

(** Integer cube root, by bisection on the bits below [2 ^ bits]. *)
Fixpoint icbrt_bits (bits : nat) (n r : Z) : Z :=
  match bits with
  | O => r
  | S b =>
      let r' := r + 2 ^ Z.of_nat b in
      icbrt_bits b n (if r' * r' * r' <=? n then r' else r)
  end.
Definition icbrt (n : Z) : Z := icbrt_bits 40 n 0.

(** The round constants: the first 32 bits of the fractional parts of
    the cube roots of the first 64 primes. *)
Definition K : list Z := (λ p, Z.land (icbrt (p * 2 ^ 96)) mask32) <$> primes.

(** The initial hash value: the first 32 bits of the fractional parts of
    the square roots of the first 8 primes. *)
Definition H0 : list Z := (λ p, Z.land (Z.sqrt (p * 2 ^ 64)) mask32) <$> take 8 primes.

(** One round on the working variables [a; b; c; d; e; f; g; h]. *)
Definition round (st : list Z) (k w : Z) : list Z :=
  match st with
  | [a; b; c; d; e; f; g; h] =>
      let t1 := add32 (add32 (add32 (add32 h (Sigma1 e)) (Ch e f g)) k) w in
      let t2 := add32 (Sigma0 a) (Maj a b c) in
      [add32 t1 t2; a; b; c; add32 d t1; e; f; g]
  | _ => st
  end.

(** The 64 rounds; [w] is the sliding window [W_t .. W_{t+15}] of the
    message schedule. *)
Fixpoint rounds (ks : list Z) (w : list Z) (st : list Z) : list Z :=
  match ks, w with
  | k :: ks', w0 :: w' =>
      let wn := add32 (add32 (add32 (sigma1 (nth 14 w 0)) (nth 9 w 0))
                             (sigma0 (nth 1 w 0))) w0 in
      rounds ks' (w' ++ [wn]) (round st k w0)
  | _, _ => st
  end.

(** Compression of one 16-word block into the hash value, with round
    constants [ks]. *)
Definition compress (ks : list Z) (h : list Z) (block : list Z) : list Z :=
  zip_with add32 h (rounds ks block h).

Fixpoint process (fuel : nat) (ks : list Z) (ws : list Z) (h : list Z) : list Z :=
  match fuel, ws with
  | S n, _ :: _ => process n ks (drop 16 ws) (compress ks h (take 16 ws))
  | _, _ => h
  end.

(** Big-endian 32-bit words of a byte list whose length is a multiple of 4. *)
Fixpoint words_of_bytes (bs : list Z) : list Z :=
  match bs with
  | b0 :: b1 :: b2 :: b3 :: r =>
      (((b0 * 256 + b1) * 256 + b2) * 256 + b3) :: words_of_bytes r
  | _ => []
  end.

(** Big-endian bytes of [x], [n] of them. *)
Fixpoint be_bytes (n : nat) (x : Z) : list Z :=
  match n with
  | O => []
  | S n' => be_bytes n' (x / 256) ++ [x mod 256]
  end.

(** Padding: a [1] bit, zeros up to 56 modulo 64, the bit length on 64 bits. *)
Definition pad (msg : list Z) : list Z :=
  let len := Z.of_nat (length msg) in
  msg ++ [0x80] ++ replicate (Z.to_nat ((55 - len) mod 64)) 0 ++ be_bytes 8 (8 * len).

(** [s.encode("utf-8")], the string being held as its UTF-8 bytes. *)
Fixpoint bytes_of_string (s : string) : list Z :=
  match s with
  | EmptyString => []
  | String c r => Z.of_N (N_of_ascii c) :: bytes_of_string r
  end.

(** The digest as eight 32-bit words. *)
Definition digest (msg : list Z) : list Z :=
  let ws := words_of_bytes (pad msg) in
  let ks := K in
  process (length ws) ks ws H0.

(** [int(hashlib.sha256(bs).hexdigest(), 16)]. *)
Definition to_int (msg : list Z) : Z :=
  foldl (λ acc w, acc * 2 ^ 32 + w) 0 (digest msg).

End Sha256.

(** ** The shard store ([apps/shard/app/storage.py]) *)

Module ShardStore.

(** A slot [{"value", "version", "origin", "deleted"}]. *)
Record slot : Type := Slot {
  value : pydict;
  version : Z;
  origin : string;
  deleted : bool;
}.

(** [self._tables : Dict[str, Dict[Tuple[str, str], dict]]]. *)
Abbreviation table := (gmap (string * string) slot).
Abbreviation store := (gmap string (gmap (string * string) slot)).

(** [InMemoryShardStore()]. *)
Definition init : store := ∅.

(** [d.setdefault(k, {})] on the table map; returns the table found or
    created and the updated map. *)
Definition setdefault (s : store) (tbl : string) : table * store :=
  match s !! tbl with
  | Some t => (t, s)
  | None => (∅, <[tbl := ∅]> s)
  end.

(** [cur is None or (version, origin) > (cur["version"], cur.get("origin", ""))]. *)
Definition wins (cur : option slot) (ver : Z) (org : string) : bool :=
  match cur with
  | None => true
  | Some c => Py.tuple_gt (ver, org) (version c, origin c)
  end.

(** [InMemoryShardStore.put]. *)
Definition put (s : store) (tbl pk sk : string) (val : pydict)
    (ver : Z) (org : string) : store :=
  let '(t, s1) := setdefault s tbl in
  let cur := t !! (pk, sk) in
  if wins cur ver org
  then <[tbl := <[(pk, sk) := Slot val ver org false]> t]> s1
  else s1.

(** [None if cur is None else (None if cur["deleted"] else cur["value"])]. *)
Definition live_value (cur : option slot) : option pydict :=
  match cur with
  | None => None
  | Some c => if deleted c then None else Some (value c)
  end.

(** [InMemoryShardStore.delete]: the previous live value and the store. *)
Definition delete (s : store) (tbl pk sk : string)
    (ver : Z) (org : string) : option pydict * store :=
  let '(t, s1) := setdefault s tbl in
  let cur := t !! (pk, sk) in
  if wins cur ver org
  then (live_value cur, <[tbl := <[(pk, sk) := Slot [] ver org true]> t]> s1)
  else (live_value cur, s1).

(** [self._tables.get(table, {}).get((pk, sk))]. *)
Definition slot_at (s : store) (tbl pk sk : string) : option slot :=
  default ∅ (s !! tbl) !! (pk, sk).

(** [InMemoryShardStore.get]. A slot dict is never empty, so [not cur]
    is [cur is None]. *)
Definition get (s : store) (tbl pk sk : string) : option pydict :=
  live_value (slot_at s tbl pk sk).

(** [InMemoryShardStore.get_with_version]. *)
Definition get_with_version (s : store) (tbl pk sk : string)
    : option pydict * option Z * option string :=
  match slot_at s tbl pk sk with
  | None => (None, None, None)
  | Some c =>
      if deleted c then (None, Some (version c), Some (origin c))
      else (Some (value c), Some (version c), Some (origin c))
  end.

(** [InMemoryShardStore.exists]. *)
Definition exists_ (s : store) (tbl pk sk : string) : bool :=
  match slot_at s tbl pk sk with
  | None => false
  | Some c => negb (deleted c)
  end.

(** One record of [iter_records]:
    [(table, pk, sk, value, version, origin, deleted)]. *)
Definition record : Type := string * string * string * pydict * Z * string * bool.

(** What [iter_records] yields for the slot [c] at key [k] of table [tbl]. *)
Definition record_of (tbl : string) (kc : string * string * slot) : record :=
  (tbl, kc.1.1, kc.1.2, value kc.2, version kc.2, origin kc.2, deleted kc.2).

(** [InMemoryShardStore.iter_records], as the list of what it yields. The
    order in which a Python [dict] yields its items (insertion order) is
    not kept: the list comes in the order of the map's keys. *)
Definition iter_records (s : store) : list record :=
  map_to_list s ≫= λ tt, record_of tt.1 <$> map_to_list tt.2.

(** The fields [table] and [deleted] of a record. *)
Definition record_table (r : record) : string := r.1.1.1.1.1.1.
Definition record_deleted (r : record) : bool := r.2.

(** [sum(1 for v in items.values() if not v.get("deleted", False))]. *)
Definition alive (t : table) : nat :=
  length (filter (λ c, deleted c = false) (map_to_list t).*2).

(** [InMemoryShardStore.stats]: the ["tables"] map and ["total_keys"]. *)
Definition stats (s : store) : gmap string nat * nat :=
  (alive <$> s, sum_list (alive <$> (map_to_list s).*2)).

(** *** Replication events applied through [put] / [delete] *)

Inductive op : Type := PUT | DEL.

Record event : Type := Event {
  ev_op : op;
  ev_table : string;
  ev_pk : string;
  ev_sk : string;
  ev_value : pydict;
  ev_version : Z;
  ev_origin : string;
}.

Definition apply (s : store) (e : event) : store :=
  match ev_op e with
  | PUT => put s (ev_table e) (ev_pk e) (ev_sk e) (ev_value e) (ev_version e) (ev_origin e)
  | DEL => (delete s (ev_table e) (ev_pk e) (ev_sk e) (ev_version e) (ev_origin e)).2
  end.

(** Events applied one after the other, first to last. *)
Definition apply_all (s : store) (l : list event) : store := foldl apply s l.

Definition key (e : event) : string * string * string := (ev_table e, ev_pk e, ev_sk e).
Definition stamp (e : event) : Z * string := (ev_version e, ev_origin e).
Definition slot_stamp (c : slot) : Z * string := (version c, origin c).

(** The slot an event installs when it wins. *)
Definition slot_of (e : event) : slot :=
  match ev_op e with
  | PUT => Slot (ev_value e) (ev_version e) (ev_origin e) false
  | DEL => Slot [] (ev_version e) (ev_origin e) true
  end.

(** Events that agree on key and [(version, origin)] install the same slot. *)
Definition payload_consistent (l : list event) : Prop :=
  ∀ e1 e2, e1 ∈ l → e2 ∈ l → key e1 = key e2 → stamp e1 = stamp e2 →
    slot_of e1 = slot_of e2.

(** The unconditional overwrite performed by a winning event. *)
Definition write (s : store) (e : event) : store :=
  <[ev_table e := <[(ev_pk e, ev_sk e) := slot_of e]> (default ∅ (s !! ev_table e))]> s.

Definition slot_of_key (s : store) (k : string * string * string) : option slot :=
  slot_at s k.1.1 k.1.2 k.2.

(** [c] is the last-writer-wins maximum of the events of [l] for key [k]:
    no slot when [l] has no event for [k]; otherwise the slot installed by
    an event of [l] for [k] whose [(version, origin)] bounds that of every
    event of [l] for [k]. *)
Definition lww_max (l : list event) (k : string * string * string)
    (c : option slot) : Prop :=
  match c with
  | None => ∀ e, e ∈ l → key e ≠ k
  | Some c =>
      (∃ e, e ∈ l ∧ key e = k ∧ slot_of e = c) ∧
      (∀ e, e ∈ l → key e = k → Py.tuple_le (stamp e) (slot_stamp c))
  end.

End ShardStore.

(** ** The consistent-hash ring ([apps/coordinator/app/ring.py]) *)

Module Ring.

(** [_hash_to_int]. *)
Definition _hash_to_int (s : string) : Z :=
  Sha256.to_int (Sha256.bytes_of_string s).

(** [@dataclass(frozen=True) class RingNode]. *)
Record RingNode : Type := mkRingNode { url : string }.

Global Instance RingNode_eq_dec : EqDecision RingNode.
Proof. solve_decision. Defined.

(** [class ConsistentHashRing]. *)
Record ring : Type := mkRing {
  replicas : Z;
  _ring : gmap Z RingNode;
  _sorted_keys : list Z;
}.

(** [ConsistentHashRing(replicas)]. *)
Definition new (replicas : Z) : result ring :=
  if bool_decide (replicas ≤ 0)%Z then Raise ValueError
  else Ok (mkRing replicas ∅ []).

(** [bisect.bisect_left(a, x)] on a sorted list: the number of entries
    below [x]. The list [_sorted_keys] is sorted in every state. *)
Definition bisect_left (a : list Z) (x : Z) : nat :=
  length (filter (λ e, e < x) a).

(** [bisect.bisect(a, x)], that is [bisect_right], on a sorted list: the
    number of entries not above [x]. *)
Definition bisect (a : list Z) (x : Z) : nat :=
  length (filter (λ e, e ≤ x) a).

(** [a.pop(idx)] for an index within range. *)
Definition pop (a : list Z) (idx : nat) : list Z := take idx a ++ drop (S idx) a.

(** The positions [_hash_to_int(f"{url}#{i}")] for [i in range(replicas)]. *)
Definition vnode_keys (replicas : Z) (node_url : string) : list Z :=
  (λ i : nat, _hash_to_int (node_url +:+ "#" +:+ pretty i)) <$> seq 0 (Z.to_nat replicas).

(** [any(n.url == node_url for n in self._ring.values())]. *)
Definition present (r : ring) (node_url : string) : bool :=
  existsb (λ pn, bool_decide (url pn.2 = node_url)) (map_to_list (_ring r)).

(** [ConsistentHashRing.nodes]. *)
Definition nodes (r : ring) : list RingNode :=
  merge_sort (λ a b, String.le (url a) (url b)) (remove_dups (map_to_list (_ring r)).*2).

(** One turn of the second loop of [remove]: [del self._ring[k]], then
    the entry of [_sorted_keys] found by bisection is popped. *)
Definition remove_key (st : gmap Z RingNode * list Z) (k : Z)
    : result (gmap Z RingNode * list Z) :=
  let '(m, sk) := st in
  match m !! k with
  | None => Raise KeyError
  | Some _ =>
      let idx := bisect_left sk k in
      if bool_decide (sk !! idx = Some k)
      then Ok (delete k m, pop sk idx)
      else Ok (delete k m, sk)
  end.

Fixpoint remove_keys (st : gmap Z RingNode * list Z) (ks : list Z)
    : result (gmap Z RingNode * list Z) :=
  match ks with
  | [] => Ok st
  | k :: ks' => st' ←r remove_key st k; remove_keys st' ks'
  end.

(** [ConsistentHashRing.remove]. *)
Definition remove (r : ring) (node_url : string) : result ring :=
  let to_remove :=
    filter (λ k, is_Some (_ring r !! k)) (vnode_keys (replicas r) node_url) in
  st ←r remove_keys (_ring r, _sorted_keys r) to_remove;
  Ok (mkRing (replicas r) st.1 st.2).

(** [ConsistentHashRing.add]. *)
Definition add (r : ring) (node : RingNode) : result ring :=
  r1 ←r (if present r (url node) then remove r (url node) else Ok r);
  let ks := vnode_keys (replicas r1) (url node) in
  Ok (mkRing (replicas r1)
        (foldl (λ m k, <[k := node]> m) (_ring r1) ks)
        (merge_sort Z.le (_sorted_keys r1 ++ ks))).

(** [ConsistentHashRing.get]. *)
Definition get (r : ring) (key : string) : result (option RingNode) :=
  match _sorted_keys r with
  | [] => Ok None
  | _ :: _ =>
      let h := _hash_to_int key in
      let idx := (bisect (_sorted_keys r) h mod length (_sorted_keys r))%nat in
      match _sorted_keys r !! idx with
      | None => Raise IndexError
      | Some p =>
          match _ring r !! p with
          | None => Raise KeyError
          | Some n => Ok (Some n)
          end
      end
  end.

(** A ring with the shards [names] added one after the other. *)
Definition build (replicas : Z) (names : list string) : result ring :=
  r0 ←r new replicas;
  foldl (λ acc s, r ←r acc; add r (mkRingNode s)) (Ok r0) names.

(** *** Specification vocabulary *)

(** The state invariant: [_sorted_keys] lists the positions of [_ring]
    in strictly increasing order. *)
Definition wf (r : ring) : Prop :=
  StronglySorted Z.lt (_sorted_keys r) ∧
  ∀ p, p ∈ _sorted_keys r ↔ is_Some (_ring r !! p).

(** [p] is the smallest virtual-node position of [r] that satisfies [P]. *)
Definition first_position (P : Z → Prop) (r : ring) (p : Z) : Prop :=
  is_Some (_ring r !! p) ∧ P p ∧ ∀ q, is_Some (_ring r !! q) → P q → p ≤ q.

(** The successor of hash [h], as the design document words it: the
    smallest position [≥ h], wrapping to the smallest position of all. *)
Definition successor_ge (r : ring) (h p : Z) : Prop :=
  first_position (λ q, h ≤ q) r p ∨
  ((∀ q, is_Some (_ring r !! q) → ¬ h ≤ q) ∧ first_position (λ _, True) r p).

(** The successor of hash [h] with a strict bound: the smallest position
    [> h], wrapping to the smallest position of all. *)
Definition successor_gt (r : ring) (h p : Z) : Prop :=
  first_position (λ q, h < q) r p ∨
  ((∀ q, is_Some (_ring r !! q) → ¬ h < q) ∧ first_position (λ _, True) r p).

(** Adding [node_url] to [r] meets no hash collision: its positions are
    pairwise distinct and none is taken in [r]. *)
Definition collision_free (r : ring) (node_url : string) : Prop :=
  NoDup (vnode_keys (replicas r) node_url) ∧
  ∀ k, k ∈ vnode_keys (replicas r) node_url → _ring r !! k = None.

(** The ring that [add] builds when the shard is not yet present. *)
Definition added (r : ring) (node : RingNode) : ring :=
  let ks := vnode_keys (replicas r) (url node) in
  mkRing (replicas r)
    (foldl (λ m k, <[k := node]> m) (_ring r) ks)
    (merge_sort Z.le (_sorted_keys r ++ ks)).

End Ring.

(** ** The rebalancer ([apps/coordinator/app/rebalance.py]) *)

Module Rebalance.

(** [Rebalancer._clone_ring]: a fresh ring with the nodes of [src]
    added one after the other. *)
Definition _clone_ring (src : Ring.ring) : result Ring.ring :=
  Ring.build (Ring.replicas src) (Ring.url <$> Ring.nodes src).

(** The fields of a [Rebalancer] that [on_ring_changed] reads and writes. *)
Record t : Type := mk {
  ring : Ring.ring;
  _prev_ring : option Ring.ring;
  _migrating : bool;
}.

(** [Rebalancer.on_ring_changed], up to the start of the migration
    thread: whether a thread is started, and the new state. *)
Definition on_ring_changed (rb : t) : result (bool * t) :=
  if _migrating rb then Ok (false, rb)
  else
    prev ←r _clone_ring (ring rb);
    Ok (true, mk (ring rb) (Some prev) true).

End Rebalance.

(** ** Insertion-ordered dictionaries

    A Python [dict] whose iteration order is observable is kept as an
    association list: assigning to a key that is present replaces the value
    in place, assigning to a new key appends. *)

Module ODict.

Definition t (V : Type) : Type := list (string * V).

Fixpoint get {V} (d : t V) (k : string) : option V :=
  match d with
  | [] => None
  | (k', v) :: d' => if decide (k' = k) then Some v else get d' k
  end.

Fixpoint set {V} (d : t V) (k : string) (v : V) : t V :=
  match d with
  | [] => [(k, v)]
  | (k', v') :: d' =>
      if decide (k' = k) then (k, v) :: d' else (k', v') :: set d' k v
  end.

Definition values {V} (d : t V) : list V := d.*2.

End ODict.

(** ** The registries of the routing tier ([apps/coordinator/app/storage.py]) *)

Module CoordStorage.

(** [class TableDef] of [models.py]. *)
Record TableDef : Type := mkTableDef {
  table_name : string;
  partition_key : string;
  sort_key : string;
}.

(** *** [class TableRegistry] *)
Module TableRegistry.

Abbreviation t := (gmap string TableDef).

Definition init : t := ∅.

(** [TableRegistry.register]: [self._tables[t.table_name] = t; return t]. *)
Definition register (reg : t) (d : TableDef) : TableDef * t :=
  (d, <[table_name d := d]> reg).

(** [TableRegistry.exists]. *)
Definition exists_ (reg : t) (name : string) : bool :=
  bool_decide (is_Some (reg !! name)).

(** [TableRegistry.get]. *)
Definition get (reg : t) (name : string) : result TableDef :=
  match reg !! name with
  | Some d => Ok d
  | None => Raise KeyError
  end.

End TableRegistry.

(** [Literal["leader", "follower"]] and [ReplicaRole]. *)
Inductive role_t : Type := Leader | Follower.
Inductive requested_role_t : Type := ReqAuto | ReqLeader | ReqFollower.

Global Instance role_eq_dec : EqDecision role_t.
Proof. solve_decision. Defined.
Global Instance requested_role_eq_dec : EqDecision requested_role_t.
Proof. solve_decision. Defined.

(** [class ReplicaInfo] of [models.py]. Clock readings and the TTL are
    numbers of ticks of one common unit. *)
Record ReplicaInfo : Type := mkReplicaInfo {
  shard_name : string;
  replica_url : string;
  replica_id : option string;
  role : role_t;
  last_seen_unix : Z;
}.

(** *** [class ReplicaRegistry] *)
Module ReplicaRegistry.

Record t : Type := mk {
  ttl_sec : Z;
  _replicas : gmap string (ODict.t ReplicaInfo);
  _leader_url : gmap string string;
  _rr_idx : gmap string nat;
}.

(** [ReplicaRegistry(ttl_sec)]. *)
Definition init (ttl : Z) : t := mk ttl ∅ ∅ ∅.

(** [self._replicas.get(shard_name, {})]. *)
Definition replicas_of (reg : t) (shard : string) : ODict.t ReplicaInfo :=
  default [] (_replicas reg !! shard).

(** [ReplicaRegistry._is_active]; [clock] is the reading of [time.time()]. *)
Definition _is_active (reg : t) (clock : Z) (shard url : string) : bool :=
  match ODict.get (replicas_of reg shard) url with
  | None => false
  | Some info => bool_decide (clock - last_seen_unix info ≤ ttl_sec reg)
  end.

(** The stale-leader check of [register]:
    [if leader and not self._is_active(shard_name, leader)], the entry is
    popped and [leader] becomes [None]. Returns [_leader_url] and [leader]. *)
Definition current_leader (reg : t) (clock : Z) (shard : string)
    : gmap string string * option string :=
  match _leader_url reg !! shard with
  | Some l =>
      if Py.truthy l && negb (_is_active reg clock shard l)
      then (delete shard (_leader_url reg), None)
      else (_leader_url reg, Some l)
  | None => (_leader_url reg, None)
  end.

(** The two assignments of [register]: [if leader is None: ... else: ...]
    and [if requested_role == "leader" and leader is None: ...]. *)
Definition assign (leaders : gmap string string) (leader : option string)
    (shard url : string) (requested : requested_role_t)
    : role_t * gmap string string :=
  let '(assigned, leaders) :=
    match leader with
    | None => (Leader, <[shard := url]> leaders)
    | Some _ => (Follower, leaders)
    end in
  match requested, leader with
  | ReqLeader, None => (Leader, <[shard := url]> leaders)
  | _, _ => (assigned, leaders)
  end.

(** [if prev and prev.role == "leader" and
    self._leader_url.get(shard_name) == replica_url: assigned_role = "leader"]. *)
Definition keep_leader (prev : option ReplicaInfo) (leaders : gmap string string)
    (shard url : string) (assigned : role_t) : role_t :=
  match prev with
  | Some p =>
      if bool_decide (role p = Leader) && bool_decide (leaders !! shard = Some url)
      then Leader else assigned
  | None => assigned
  end.

(** "Ensure leader replica entry role is correct". *)
Definition fix_leader_entry (leaders : gmap string string) (shard : string)
    (reps : ODict.t ReplicaInfo) : ODict.t ReplicaInfo :=
  match leaders !! shard with
  | Some lurl =>
      if Py.truthy lurl then
        match ODict.get reps lurl with
        | Some li =>
            ODict.set reps lurl
              (mkReplicaInfo (shard_name li) (replica_url li) (replica_id li)
                 Leader (last_seen_unix li))
        | None => reps
        end
      else reps
  | None => reps
  end.

(** [ReplicaRegistry.register]. [now] is the reading of [time.time()]
    on entry, [clock] the one taken by [_is_active]. Returns
    [(assigned_role, leader_url)] and the new registry. *)
Definition register (reg : t) (now clock : Z) (shard url : string)
    (rid : option string) (requested : requested_role_t)
    : result (role_t * string * t) :=
  let url := Py.rstrip_slash url in
  (* self._replicas.setdefault(shard_name, {}) *)
  let reps := replicas_of reg shard in
  let prev := ODict.get reps url in
  let '(leaders1, leader) := current_leader reg clock shard in
  let '(assigned, leaders2) := assign leaders1 leader shard url requested in
  let assigned := keep_leader prev leaders2 shard url assigned in
  let info := mkReplicaInfo shard url rid assigned now in
  let reps1 := ODict.set reps url info in
  let reps2 := fix_leader_entry leaders2 shard reps1 in
  let reg' := mk (ttl_sec reg) (<[shard := reps2]> (_replicas reg)) leaders2 (_rr_idx reg) in
  (* return assigned_role, self._leader_url[shard_name] *)
  match leaders2 !! shard with
  | Some l => Ok (assigned, l, reg')
  | None => Raise KeyError
  end.

(** [ReplicaRegistry.leader_url]. *)
Definition leader_url (reg : t) (clock : Z) (shard : string) : option string :=
  match _leader_url reg !! shard with
  | Some l => if Py.truthy l && _is_active reg clock shard l then Some l else None
  | None => None
  end.

(** [ReplicaRegistry.active_replicas]. *)
Definition active_replicas (reg : t) (clock : Z) (shard : string) : list ReplicaInfo :=
  filter (λ r, clock - last_seen_unix r ≤ ttl_sec reg)
         (ODict.values (replicas_of reg shard)).

(** [ReplicaRegistry.pick_read_replica]. *)
Definition pick_read_replica (reg : t) (clock : Z) (shard : string)
    : option string * t :=
  let reps := active_replicas reg clock shard in
  match reps with
  | [] => (None, reg)
  | _ :: _ =>
      let i := (default 0%nat (_rr_idx reg !! shard) mod length reps)%nat in
      let reg' := mk (ttl_sec reg) (_replicas reg) (_leader_url reg)
                     (<[shard := S i]> (_rr_idx reg)) in
      (replica_url <$> reps !! i, reg')
  end.

(** [k] calls of [pick_read_replica] in a row, each reading the clock
    at [clock]: the answers in order, and the registry afterwards. *)
Fixpoint pick_read_replicas (k : nat) (reg : t) (clock : Z) (shard : string)
    : list (option string) * t :=
  match k with
  | O => ([], reg)
  | S k' =>
      let '(u, reg1) := pick_read_replica reg clock shard in
      let '(us, reg2) := pick_read_replicas k' reg1 clock shard in
      (u :: us, reg2)
  end.

(** [ReplicaRegistry.list_all]; the order across shards is not kept. *)
Definition list_all (reg : t) : list ReplicaInfo :=
  (map_to_list (_replicas reg)).*2 ≫= ODict.values.

(** The recorded leader of every shard has a record, and that record
    carries the leader role. *)
Definition leader_recorded (reg : t) : Prop :=
  ∀ shard l, _leader_url reg !! shard = Some l →
    ∃ info, ODict.get (replicas_of reg shard) l = Some info ∧ role info = Leader.

End ReplicaRegistry.

End CoordStorage.

(** ** HTTP messages exchanged between the routing tier and the shards *)

Module Http.

(** [class RecordResponse] of the shard's [models.py]. *)
Record RecordBody : Type := mkRecordBody {
  table_name : string;
  pk : string;
  sk : string;
  value : option pydict;
  version : option Z;
  origin : option string;
}.

(** The JSON body of a response. [BDetail] is the [{"detail": ...}] body
    of an [HTTPException]; the text of a caught exception that the source
    appends to a detail message is left out. *)
Inductive body : Type :=
  | BRecord (r : RecordBody) (shard_url : option string)
  | BExists (b : bool)
  | BDetail (detail : string)
  | BOther (j : json).

(** A response: status code and body. *)
Record response : Type := mkResponse { status : Z; content : body }.

(** [HTTPException(status_code, detail)]. *)
Definition http_exception (code : Z) (detail : string) : response :=
  mkResponse code (BDetail detail).

(** What an outbound [requests] call yields: a transport-level
    [RequestException], or the peer's response. *)
Inductive reply : Type :=
  | TransportError
  | Reply (r : response).

(** [r.raise_for_status()] raises for 4xx and 5xx. *)
Definition raises_for_status (code : Z) : bool :=
  bool_decide (400 ≤ code) && bool_decide (code < 600).

(** A handler either returns a value or raises an [HTTPException]
    (or fails otherwise, which the framework answers with a 500). *)
Definition handler (A : Type) : Type := A + response.

Definition hbind {A B} (x : handler A) (f : A → handler B) : handler B :=
  match x with
  | inl a => f a
  | inr e => inr e
  end.

End Http.

Notation "x ←h y ; z" := (Http.hbind y (λ x, z))
  (at level 20, y at level 100, z at level 200, only parsing).

(** ** The shard replica's endpoints ([apps/shard/app/main.py]) *)

Module ShardMain.
Import Http.

(** Environment of the process: [PROXY_WRITES] and [ORIGIN]. *)
Record config : Type := mkConfig {
  PROXY_WRITES : bool;
  ORIGIN : string;
}.

(** The state of a replica: the globals [ROLE] and [LEADER_URL] of
    [register.py], the [store], and the events the broker has confirmed
    to this replica's publisher. *)
Record state : Type := mkState {
  ROLE : string;
  LEADER_URL : option string;
  store : ShardStore.store;
  published : list ShardStore.event;
}.

(** How [Replicator.publish] ends: the broker confirmed the event, the
    publisher reported a failure (its retries are exhausted), or the
    wait on the completion signal timed out. The last two raise. *)
Inductive publish_outcome : Type := Confirmed | Failed | TimedOut.

(** [class CreateRecordRequest]. *)
Record CreateRecordRequest : Type := mkCreate {
  req_table_name : string;
  req_pk : string;
  req_sk : string;
  req_value : pydict;
}.

(** [Field(min_length=1)] / [Query(min_length=1)]. *)
Definition nonempty (s : string) : bool := Py.truthy s.

Definition validation_error : response := http_exception 422 "validation error".

(** [apply_event], the consumer's callback. *)
Definition apply_event (st : state) (ev : ShardStore.event) : state :=
  let origin := if Py.truthy (ShardStore.ev_origin ev)
                then ShardStore.ev_origin ev else "replication" in
  let s := store st in
  let s' :=
    match ShardStore.ev_op ev with
    | ShardStore.PUT =>
        ShardStore.put s (ShardStore.ev_table ev) (ShardStore.ev_pk ev)
          (ShardStore.ev_sk ev) (ShardStore.ev_value ev) (ShardStore.ev_version ev) origin
    | ShardStore.DEL =>
        (ShardStore.delete s (ShardStore.ev_table ev) (ShardStore.ev_pk ev)
           (ShardStore.ev_sk ev) (ShardStore.ev_version ev) origin).2
    end in
  mkState (ROLE st) (LEADER_URL st) s' (published st).

(** [_leader_or_503]. *)
Definition _leader_or_503 (st : state) : handler string :=
  match LEADER_URL st with
  | Some l =>
      if Py.truthy l then inl (Py.rstrip_slash l)
      else inr (http_exception 503 "No leader known yet")
  | None => inr (http_exception 503 "No leader known yet")
  end.

(** [_proxy_to_leader]; [leader_reply] is what the leader answers. *)
Definition _proxy_to_leader (st : state) (leader_reply : reply) : handler body :=
  _ ←h _leader_or_503 st;
  match leader_reply with
  | TransportError => inr (http_exception 502 "Leader proxy failed")
  | Reply r =>
      if bool_decide (400 ≤ status r)
      then inr (http_exception (status r) "Leader error")
      else inl (content r)
  end.

(** [RecordResponse] built from the fields of the proxied answer. *)
Definition proxied_record (b : body) : response :=
  match b with
  | BRecord r _ => mkResponse 200 (BRecord r None)
  | _ => http_exception 500 "Internal error"
  end.

(** The follower branch shared by [create] and [delete]. *)
Definition follower_write (cfg : config) (st : state) (leader_reply : reply) : response :=
  if negb (PROXY_WRITES cfg) then
    match _leader_or_503 st with
    | inl _ => http_exception 307 "Redirect to leader"
    | inr e => e
    end
  else
    match _proxy_to_leader st leader_reply with
    | inl data => proxied_record data
    | inr e => e
    end.

(** [_publish_or_503]: the log of confirmed events, or the 503. *)
Definition _publish_or_503 (st : state) (outcome : publish_outcome)
    (ev : ShardStore.event) : handler (list ShardStore.event) :=
  match outcome with
  | Confirmed => inl (published st ++ [ev])
  | Failed | TimedOut => inr (http_exception 503 "Replication log publish failed")
  end.

(** The exception of [_publish_or_503]. *)
Definition publish_failed : response :=
  http_exception 503 "Replication log publish failed".

(** [POST /records]. [now_ns] is the reading of [time.time_ns()],
    [outcome] how the publish ends, [leader_reply] the leader's answer
    to a proxied request. *)
Definition create (cfg : config) (st : state) (now_ns : Z)
    (outcome : publish_outcome) (leader_reply : reply)
    (req : CreateRecordRequest) : response * state :=
  if negb (nonempty (req_table_name req) && nonempty (req_pk req) && nonempty (req_sk req))
  then (validation_error, st)
  else if negb (bool_decide (ROLE st = "leader"))
  then (follower_write cfg st leader_reply, st)
  else
    let version := now_ns in
    let ev := ShardStore.Event ShardStore.PUT (req_table_name req) (req_pk req)
                (req_sk req) (req_value req) version (ORIGIN cfg) in
    match _publish_or_503 st outcome ev with
    | inr e => (e, st)
    | inl log =>
        let s := ShardStore.put (store st) (req_table_name req) (req_pk req)
                   (req_sk req) (req_value req) version (ORIGIN cfg) in
        (mkResponse 200
           (BRecord (mkRecordBody (req_table_name req) (req_pk req) (req_sk req)
                       (Some (req_value req)) (Some version) None) None),
         mkState (ROLE st) (LEADER_URL st) s log)
    end.

(** [GET /records]. *)
Definition read (st : state) (table_name pk sk : string) : response :=
  if negb (nonempty table_name && nonempty pk && nonempty sk)
  then validation_error
  else
    match ShardStore.get_with_version (store st) table_name pk sk with
    | (None, _, _) => http_exception 404 "Not found"
    | (Some v, ver, _) =>
        mkResponse 200 (BRecord (mkRecordBody table_name pk sk (Some v) ver None) None)
    end.

(** [DELETE /records]. *)
Definition delete (cfg : config) (st : state) (now_ns : Z)
    (outcome : publish_outcome) (leader_reply : reply)
    (table_name pk sk : string) : response * state :=
  if negb (nonempty table_name && nonempty pk && nonempty sk)
  then (validation_error, st)
  else if negb (bool_decide (ROLE st = "leader"))
  then (follower_write cfg st leader_reply, st)
  else
    let version := now_ns in
    let ev := ShardStore.Event ShardStore.DEL table_name pk sk [] version (ORIGIN cfg) in
    match _publish_or_503 st outcome ev with
    | inr e => (e, st)
    | inl log =>
        let '(prev, s) :=
          ShardStore.delete (store st) table_name pk sk version (ORIGIN cfg) in
        let st' := mkState (ROLE st) (LEADER_URL st) s log in
        match prev with
        | None => (http_exception 404 "Not found", st')
        | Some v =>
            (mkResponse 200
               (BRecord (mkRecordBody table_name pk sk (Some v) (Some version) None) None),
             st')
        end
    end.

(** [GET /exists]. *)
Definition exists_ (st : state) (table_name pk sk : string) : response :=
  if negb (nonempty table_name && nonempty pk && nonempty sk)
  then validation_error
  else mkResponse 200 (BExists (ShardStore.exists_ (store st) table_name pk sk)).

(** *** Key migration endpoints *)

(** [class KeyItem]. *)
Record KeyItem : Type := mkKeyItem {
  k_table_name : string;
  k_pk : string;
  k_sk : string;
  k_value : pydict;
  k_version : Z;
  k_origin : string;
}.

(** The body of the loop of [internal_keys]: the item a record
    contributes, if any. *)
Definition key_item (table_name : option string) (r : ShardStore.record)
    : option KeyItem :=
  let '(t, pk, sk, val, ver, origin, deleted) := r in
  if deleted then None
  else if match table_name with
          | Some tn => Py.truthy tn && negb (bool_decide (t = tn))
          | None => false
          end
  then None
  else Some (mkKeyItem t pk sk val ver origin).

(** [GET /internal/keys]; the order of the items across tables and keys
    is not kept. *)
Definition internal_keys (st : state) (table_name : option string) : list KeyItem :=
  omap (key_item table_name) (ShardStore.iter_records (store st)).

(** The event that [internal_migrate_put] builds for an item. *)
Definition put_event (it : KeyItem) : ShardStore.event :=
  ShardStore.Event ShardStore.PUT (k_table_name it) (k_pk it) (k_sk it)
    (k_value it) (k_version it) (k_origin it).

(** The event that [internal_migrate_del] builds for an item. *)
Definition del_event (it : KeyItem) : ShardStore.event :=
  ShardStore.Event ShardStore.DEL (k_table_name it) (k_pk it) (k_sk it)
    [] (k_version it) (k_origin it).

(** The answer of a bulk endpoint that went through: [{field: n}]. *)
Definition bulk_done (field : string) (n : nat) : response :=
  mkResponse 200 (BOther (JObj [(field, JNum (Z.of_nat n))])).

(** The loop of [internal_migrate_put]:
    [for it in req.items: _publish_or_503(ev); store.put(...)].
    [outcome i] is how the publish of the item at position [i] ends; [i]
    is the position of the first of [items]. A publish that is not
    confirmed ends the loop with its exception, what was done before it
    stays. *)
Fixpoint migrate_put_loop (st : state) (outcome : nat → publish_outcome) (i : nat)
    (items : list KeyItem) : option response * state :=
  match items with
  | [] => (None, st)
  | it :: items' =>
      match _publish_or_503 st (outcome i) (put_event it) with
      | inr e => (Some e, st)
      | inl log =>
          let s := ShardStore.put (store st) (k_table_name it) (k_pk it) (k_sk it)
                     (k_value it) (k_version it) (k_origin it) in
          migrate_put_loop (mkState (ROLE st) (LEADER_URL st) s log) outcome (S i) items'
      end
  end.

(** [POST /internal/migrate-put]. *)
Definition internal_migrate_put (st : state) (outcome : nat → publish_outcome)
    (items : list KeyItem) : response * state :=
  if negb (bool_decide (ROLE st = "leader"))
  then (http_exception 409 "Not leader", st)
  else
    match migrate_put_loop st outcome 0 items with
    | (Some e, st') => (e, st')
    | (None, st') => (bulk_done "migrated" (length items), st')
    end.

(** The loop of [internal_migrate_del]. *)
Fixpoint migrate_del_loop (st : state) (outcome : nat → publish_outcome) (i : nat)
    (items : list KeyItem) : option response * state :=
  match items with
  | [] => (None, st)
  | it :: items' =>
      match _publish_or_503 st (outcome i) (del_event it) with
      | inr e => (Some e, st)
      | inl log =>
          let s := (ShardStore.delete (store st) (k_table_name it) (k_pk it) (k_sk it)
                      (k_version it) (k_origin it)).2 in
          migrate_del_loop (mkState (ROLE st) (LEADER_URL st) s log) outcome (S i) items'
      end
  end.

(** [POST /internal/migrate-del]. *)
Definition internal_migrate_del (st : state) (outcome : nat → publish_outcome)
    (items : list KeyItem) : response * state :=
  if negb (bool_decide (ROLE st = "leader"))
  then (http_exception 409 "Not leader", st)
  else
    match migrate_del_loop st outcome 0 items with
    | (Some e, st') => (e, st')
    | (None, st') => (bulk_done "deleted" (length items), st')
    end.

(** The replica's consumer applying a run of events of the log. *)
Definition apply_events (st : state) (evs : list ShardStore.event) : state :=
  foldl apply_event st evs.

(** *** Specification vocabulary *)

(** The request passed the [min_length=1] validation. *)
Definition valid_key (table_name pk sk : string) : Prop :=
  nonempty table_name && nonempty pk && nonempty sk = true.

Definition valid_request (req : CreateRecordRequest) : Prop :=
  valid_key (req_table_name req) (req_pk req) (req_sk req).

End ShardMain.

(** ** The replication bus of a replica ([apps/shard/app/replication.py]) *)

Module Replication.
Import ShardMain.

(** The replicator of one replica process, with the queue of the broker
    that it publishes to and consumes from: [_pub_q] holds the events
    handed to [publish] that the publisher thread has not taken yet,
    [queue] the messages of the broker's queue [queue_name] that the
    consumer has not received yet. *)
Record t : Type := mk {
  _pub_q : list ShardStore.event;
  queue : list ShardStore.event;
}.

(** One pass of the loop of [_publisher_loop]: the entry at the head of
    [_pub_q], if any, is taken and published. [acked] says whether one
    of the [PUBLISH_RETRIES] attempts is acknowledged by the broker; the
    message is then on the broker's queue. Otherwise the entry's [box]
    gets the exception and the event is dropped. *)
Definition publisher_pass (r : t) (acked : bool) : t :=
  match _pub_q r with
  | [] => r
  | ev :: q => if acked then mk q (queue r ++ [ev]) else mk q (queue r)
  end.

(** [Replicator.publish]: the event is put on [_pub_q], then the caller
    waits on [done] for [publish_timeout]. [passes] are the passes that
    the publisher thread completes during the wait, each with whether
    the broker acknowledged. The wait is over when the pass that takes
    this entry is done; if [passes] ends before that, the wait times
    out and [TimeoutError] is raised, the entry staying where it is. *)
Definition publish (r : t) (passes : list bool) (ev : ShardStore.event)
    : publish_outcome * t :=
  let ahead := length (_pub_q r) in
  let r' := foldl publisher_pass (mk (_pub_q r ++ [ev]) (queue r))
              (take (S ahead) passes) in
  (match passes !! ahead with
   | None => TimedOut
   | Some true => Confirmed
   | Some false => Failed
   end, r').

(** The consumer's callback [on_msg] on the message at the head of the
    queue: the replica whose state is [st] applies the event and
    acknowledges the message. *)
Definition on_msg (st : state) (r : t) : state * t :=
  match queue r with
  | [] => (st, r)
  | ev :: q => (apply_event st ev, mk (_pub_q r) q)
  end.

End Replication.

(** ** The routing tier's endpoints ([apps/coordinator/app/main.py]) *)

Module CoordMain.
Import Http CoordStorage.

(** The module-level state: the registries, the ring and the rebalance
    flags. *)
Record state : Type := mkState {
  tables : gmap string TableDef;
  ring : Ring.ring;
  replicas : ReplicaRegistry.t;
  _migration_in_progress : bool;
  _old_ring : option Ring.ring;
}.

Definition with_replicas (c : state) (reg : ReplicaRegistry.t) : state :=
  mkState (tables c) (ring c) reg (_migration_in_progress c) (_old_ring c).

Definition with_tables (c : state) (ts : gmap string TableDef) : state :=
  mkState ts (ring c) (replicas c) (_migration_in_progress c) (_old_ring c).

Definition validation_error : response := http_exception 422 "validation error".
Definition internal_error : response := http_exception 500 "Internal Server Error".

(** [_require_table]. *)
Definition _require_table (c : state) (table_name : string) : handler unit :=
  if TableRegistry.exists_ (tables c) table_name then inl ()
  else inr (http_exception 404 "Table not registered. Call POST /tables first.").

(** [_pick_shard_name_from_ring]. *)
Definition _pick_shard_name_from_ring (r : Ring.ring) (pk_value : string) : handler string :=
  match Ring.get r pk_value with
  | Ok (Some node) => inl (Ring.url node)
  | Ok None => inr (http_exception 503 "No shards registered")
  | Raise _ => inr internal_error
  end.

(** [_pick_shard_name]. *)
Definition _pick_shard_name (c : state) (pk_value : string) : handler string :=
  _pick_shard_name_from_ring (ring c) pk_value.

(** [_leader_url]; [clock] is the reading taken by the registry. *)
Definition _leader_url (c : state) (clock : Z) (shard_name : string) : handler string :=
  match ReplicaRegistry.leader_url (replicas c) clock shard_name with
  | Some url => if Py.truthy url then inl url
                else inr (http_exception 503 "No leader available for shard")
  | None => inr (http_exception 503 "No leader available for shard")
  end.

(** [_read_url]: the replica picked and the registry with its cursor
    advanced. *)
Definition _read_url (c : state) (clock : Z) (shard_name : string)
    : handler string * state :=
  let '(o, reg) := ReplicaRegistry.pick_read_replica (replicas c) clock shard_name in
  match o with
  | Some url => if Py.truthy url then (inl url, with_replicas c reg)
                else (inr (http_exception 503 "No active replicas for shard"),
                      with_replicas c reg)
  | None => (inr (http_exception 503 "No active replicas for shard"), with_replicas c reg)
  end.

(** [POST /tables]. *)
Definition register_table (c : state) (t : TableDef) : response * state :=
  if negb (Py.truthy (table_name t) && Py.truthy (partition_key t) && Py.truthy (sort_key t))
  then (validation_error, c)
  else
    let '(d, ts) := TableRegistry.register (tables c) t in
    (mkResponse 200 (BOther (JObj [("table_name", JStr (table_name d));
                                   ("partition_key", JStr (partition_key d));
                                   ("sort_key", JStr (sort_key d))])),
     with_tables c ts).

(** [class RegisterReplicaRequest]. *)
Record RegisterReplicaRequest : Type := mkRegister {
  reg_shard_name : string;
  reg_replica_url : string;
  reg_replica_id : option string;
  reg_role : requested_role_t;
}.

(** [{n.url for n in ring.nodes()}], in sorted order. *)
Definition node_names (r : Ring.ring) : list string := Ring.url <$> Ring.nodes r.

(** [POST /register-replica], up to the start of the migration thread.
    [now] and [clock1] are the readings taken by [register], [clock2] the
    one taken by [leader_url]. The answer carries [(assigned_role,
    leader_url)]. The migration thread itself, which clears
    [_migration_in_progress] and [_old_ring] when it ends, runs
    concurrently and is not part of this step. *)
Definition register_replica (c : state) (now clock1 clock2 : Z)
    (req : RegisterReplicaRequest) : response * state :=
  if negb (Py.truthy (reg_shard_name req) && Py.truthy (reg_replica_url req))
  then (validation_error, c)
  else
  let before_nodes := node_names (ring c) in
  match ReplicaRegistry.register (replicas c) now clock1 (reg_shard_name req)
          (reg_replica_url req) (reg_replica_id req) (reg_role req) with
  | Raise _ => (internal_error, c)
  | Ok (assigned_role, leader_url, reg) =>
      let ring1 :=
        match ReplicaRegistry.leader_url reg clock2 (reg_shard_name req) with
        | Some _ => Ring.add (ring c) (Ring.mkRingNode (reg_shard_name req))
        | None => Ok (ring c)
        end in
      match ring1 with
      | Raise _ => (internal_error, with_replicas c reg)
      | Ok ring1 =>
          let after_nodes := node_names ring1 in
          let c1 := mkState (tables c) ring1 reg (_migration_in_progress c) (_old_ring c) in
          let answer :=
            mkResponse 200
              (BOther (JObj [("shard_name", JStr (reg_shard_name req));
                             ("assigned_role",
                              JStr (match assigned_role with
                                    | Leader => "leader" | Follower => "follower" end));
                             ("leader_url", JStr leader_url)])) in
          if bool_decide (reg_shard_name req ∈ after_nodes)
             && negb (bool_decide (reg_shard_name req ∈ before_nodes))
          then
            match Ring.build (Ring.replicas (ring c)) before_nodes with
            | Raise _ => (internal_error, c1)
            | Ok prev_ring =>
                if negb (_migration_in_progress c1)
                then (answer, mkState (tables c) ring1 reg true (Some prev_ring))
                else (answer, c1)
            end
          else (answer, c1)
      end
  end.

(** [RecordResponse] built from the fields of a shard's answer, with
    [shard_url] added. *)
Definition record_from (b : body) (shard_url : string) : response :=
  match b with
  | BRecord r None => mkResponse 200 (BRecord r (Some shard_url))
  | _ => internal_error
  end.

(** The not-found record [RecordResponse(table_name, pk, sk, value=None, shard_url)]. *)
Definition null_record (table_name pk sk shard_url : string) : response :=
  mkResponse 200
    (BRecord (mkRecordBody table_name pk sk None None None) (Some shard_url)).

Definition bad_gateway : response := http_exception 502 "Shard request failed".

(** The outbound calls of a handler, in order: the URLs asked. *)
Definition trace : Type := list string.

(** [GET /records]. [clock1] and [clock2] are the readings taken when the
    read replica of the owner and of the old owner are picked;
    [shard_get url] is the answer of the replica at [url] to the
    forwarded read. *)
Definition read_record (c : state) (clock1 clock2 : Z) (shard_get : string → reply)
    (table_name pk sk : string) : response * state * trace :=
  if negb (Py.truthy table_name && Py.truthy pk && Py.truthy sk)
  then (validation_error, c, [])
  else
  match _require_table c table_name with
  | inr e => (e, c, [])
  | inl _ =>
  match _pick_shard_name c pk with
  | inr e => (e, c, [])
  | inl primary_shard_name =>
  match _read_url c clock1 primary_shard_name with
  | (inr e, c1) => (e, c1, [])
  | (inl primary, c1) =>
  match shard_get primary with
  | TransportError => (bad_gateway, c1, [primary])
  | Reply r =>
      if bool_decide (status r = 404) then
        let not_found := null_record table_name pk sk primary in
        match _migration_in_progress c1, _old_ring c1 with
        | true, Some old_ring =>
            match _pick_shard_name_from_ring old_ring pk with
            | inr e => (e, c1, [primary])
            | inl old_shard_name =>
                if bool_decide (old_shard_name ≠ primary_shard_name) then
                  match _read_url c1 clock2 old_shard_name with
                  | (inr e, c2) => (e, c2, [primary])
                  | (inl fallback, c2) =>
                      match shard_get fallback with
                      | TransportError => (bad_gateway, c2, [primary; fallback])
                      | Reply r2 =>
                          if bool_decide (status r2 ≠ 404) then
                            if raises_for_status (status r2)
                            then (bad_gateway, c2, [primary; fallback])
                            else (record_from (content r2) fallback, c2, [primary; fallback])
                          else (not_found, c2, [primary; fallback])
                      end
                  end
                else (not_found, c1, [primary])
            end
        | _, _ => (not_found, c1, [primary])
        end
      else if raises_for_status (status r) then (bad_gateway, c1, [primary])
      else (record_from (content r) primary, c1, [primary])
  end end end end.

(** [DELETE /records]. [shard_delete url] is the answer of the replica
    at [url] to the forwarded delete. *)
Definition delete_record (c : state) (clock : Z) (shard_delete : string → reply)
    (table_name pk sk : string) : response * trace :=
  if negb (Py.truthy table_name && Py.truthy pk && Py.truthy sk)
  then (validation_error, [])
  else
  match _require_table c table_name with
  | inr e => (e, [])
  | inl _ =>
  match _pick_shard_name c pk with
  | inr e => (e, [])
  | inl shard_name =>
  match _leader_url c clock shard_name with
  | inr e => (e, [])
  | inl shard =>
  match shard_delete shard with
  | TransportError => (bad_gateway, [shard])
  | Reply r =>
      if bool_decide (status r = 404) then (null_record table_name pk sk shard, [shard])
      else if raises_for_status (status r) then (bad_gateway, [shard])
      else (record_from (content r) shard, [shard])
  end end end end.

(** [_exists_call]: [Some b] when the replica answers [{"exists": b}],
    [None] when the call raises (transport error, error status, or a
    body without an ["exists"] field). *)
Definition _exists_call (shard_exists : string → reply) (replica_url : string)
    : option bool :=
  match shard_exists (Py.rstrip_slash replica_url) with
  | TransportError => None
  | Reply r =>
      if raises_for_status (status r) then None
      else match content r with
           | BExists b => Some b
           | _ => None
           end
  end.

(** The second-opinion loop of [exists] over the active replicas: the
    answer and the URLs asked. *)
Fixpoint poll_followers (shard_exists : string → reply) (leader : string)
    (reps : list ReplicaInfo) : bool * trace :=
  match reps with
  | [] => (false, [])
  | rep :: reps' =>
      if bool_decide (replica_url rep = leader) then
        poll_followers shard_exists leader reps'
      else
        match _exists_call shard_exists (replica_url rep) with
        | Some true => (true, [Py.rstrip_slash (replica_url rep)])
        | _ =>
            let '(b, tr) := poll_followers shard_exists leader reps' in
            (b, Py.rstrip_slash (replica_url rep) :: tr)
        end
  end.

(** [GET /exists]. [clock1] is the reading taken by [leader_url],
    [clock2] the one taken by [active_replicas]. *)
Definition exists_ (c : state) (clock1 clock2 : Z) (shard_exists : string → reply)
    (table_name pk sk : string) : response * trace :=
  if negb (Py.truthy table_name && Py.truthy pk && Py.truthy sk)
  then (validation_error, [])
  else
  match _require_table c table_name with
  | inr e => (e, [])
  | inl _ =>
  match _pick_shard_name c pk with
  | inr e => (e, [])
  | inl shard_name =>
  match ReplicaRegistry.leader_url (replicas c) clock1 shard_name with
  | None => (http_exception 503 "No leader available for shard", [])
  | Some leader =>
      if negb (Py.truthy leader)
      then (http_exception 503 "No leader available for shard", [])
      else
      match _exists_call shard_exists leader with
      | None => (http_exception 503 "/exists failed on leader", [Py.rstrip_slash leader])
      | Some true => (mkResponse 200 (BExists true), [Py.rstrip_slash leader])
      | Some false =>
          let '(b, tr) :=
            poll_followers shard_exists leader
              (ReplicaRegistry.active_replicas (replicas c) clock2 shard_name) in
          (mkResponse 200 (BExists b), Py.rstrip_slash leader :: tr)
      end
  end end end.

(** The [finally] block of [_migrate_background]: the migration thread
    clears the rebalance flags when it ends. *)
Definition migration_finished (c : state) : state :=
  mkState (tables c) (ring c) (replicas c) false None.

(** [POST /records]. [shard_post url] is the answer of the replica at
    [url] to the forwarded create. *)
Definition create_record (c : state) (clock : Z) (shard_post : string → reply)
    (req : ShardMain.CreateRecordRequest) : response * trace :=
  if negb (Py.truthy (ShardMain.req_table_name req) && Py.truthy (ShardMain.req_pk req)
           && Py.truthy (ShardMain.req_sk req))
  then (validation_error, [])
  else
  match _require_table c (ShardMain.req_table_name req) with
  | inr e => (e, [])
  | inl _ =>
  match _pick_shard_name c (ShardMain.req_pk req) with
  | inr e => (e, [])
  | inl shard_name =>
  match _leader_url c clock shard_name with
  | inr e => (e, [])
  | inl shard =>
  match shard_post shard with
  | TransportError => (bad_gateway, [shard])
  | Reply r =>
      if raises_for_status (status r) then (bad_gateway, [shard])
      else (record_from (content r) shard, [shard])
  end end end end.

(** *** The planning steps of [_migrate_background]

    The items are those of a [KeysDumpResponse], so every field is
    present. *)

(** The body of the loop "Group moved items by destination shard" for
    one item. An exception of [ring.get] ends the migration. *)
Definition bucket_step (r : Ring.ring) (src_shard : string)
    (buckets : ODict.t (list ShardMain.KeyItem)) (it : ShardMain.KeyItem)
    : result (ODict.t (list ShardMain.KeyItem)) :=
  new_node ←r Ring.get r (ShardMain.k_pk it);
  match new_node with
  | None => Ok buckets
  | Some node =>
      let dst_shard := Ring.url node in
      if bool_decide (dst_shard = src_shard) then Ok buckets
      else
        (* buckets.setdefault(dst_shard, []).append(it) *)
        Ok (ODict.set buckets dst_shard
              (default [] (ODict.get buckets dst_shard) ++ [it]))
  end.

(** The loop itself, over the items pulled from the leader of
    [src_shard]. *)
Fixpoint bucket_items (r : Ring.ring) (src_shard : string)
    (buckets : ODict.t (list ShardMain.KeyItem)) (items : list ShardMain.KeyItem)
    : result (ODict.t (list ShardMain.KeyItem)) :=
  match items with
  | [] => Ok buckets
  | it :: items' =>
      b ←r bucket_step r src_shard buckets it;
      bucket_items r src_shard b items'
  end.

(** The list [dels] built for one bucket; [tomb_ver] is the reading of
    [time.time_ns()]. *)
Definition tombstones (tomb_ver : Z) (moved : list ShardMain.KeyItem)
    : list ShardMain.KeyItem :=
  (λ it, ShardMain.mkKeyItem (ShardMain.k_table_name it) (ShardMain.k_pk it)
           (ShardMain.k_sk it) (ShardMain.k_value it) tomb_ver "migration") <$> moved.

(** *** Specification vocabulary *)

(** The request passed the [min_length=1] validation. *)
Definition valid_key (table_name pk sk : string) : Prop :=
  Py.truthy table_name && Py.truthy pk && Py.truthy sk = true.

Definition valid_table (t : TableDef) : Prop :=
  Py.truthy (table_name t) && Py.truthy (partition_key t) && Py.truthy (sort_key t) = true.


(** The ring [r] gives the partition key of [it] to the shard [shard]. *)
Definition owned_by (r : Ring.ring) (shard : string) (it : ShardMain.KeyItem) : bool :=
  match Ring.get r (ShardMain.k_pk it) with
  | Ok (Some node) => bool_decide (Ring.url node = shard)
  | _ => false
  end.

(** The replica at [url] answers [b] to the forwarded existence check:
    the call yields a response whose status is not a 4xx or 5xx and
    whose body is [{"exists": b}]. *)
Definition answers (shard_exists : string → reply) (url : string) (b : bool) : Prop :=
  ∃ r, shard_exists (Py.rstrip_slash url) = Reply r ∧
       ¬ (400 ≤ status r < 600) ∧ content r = BExists b.

(** The query to the replica at [url] fails: no answer comes back, or
    an error status, or a body that is no [{"exists": ...}]. *)
Definition query_fails (shard_exists : string → reply) (url : string) : Prop :=
  ∀ b, ¬ answers shard_exists url b.

(** [rep] is a replica registered for [shard] that was last seen within
    the TTL at the reading [clock] and whose URL is not [leader]. *)
Definition other_active_replica (reg : ReplicaRegistry.t) (clock : Z)
    (shard leader : string) (rep : ReplicaInfo) : Prop :=
  (∃ reps k, ReplicaRegistry._replicas reg !! shard = Some reps ∧ (k, rep) ∈ reps) ∧
  clock - last_seen_unix rep ≤ ReplicaRegistry.ttl_sec reg ∧
  replica_url rep ≠ leader.

(** Some replica other than the leader, among [reps], answers [true]. *)
Definition some_follower_says_true (shard_exists : string → reply) (leader : string)
    (reps : list ReplicaInfo) : bool :=
  existsb (λ rep, negb (bool_decide (replica_url rep = leader))
                  && bool_decide (_exists_call shard_exists (replica_url rep) = Some true))
          reps.

End CoordMain.

(** ** A small cluster used in the examples *)

Module Samples.
Import Http CoordStorage.

(** Replication events. *)
Definition ev_put1 : ShardStore.event := ShardStore.Event ShardStore.PUT "users" "u1" "2024" [("name", JStr "Ada")] 1 "r1".
Definition ev_del1 : ShardStore.event := ShardStore.Event ShardStore.DEL "users" "u1" "2024" [] 1 "r1".
Definition ev_del2 : ShardStore.event := ShardStore.Event ShardStore.DEL "users" "u1" "2024" [] 2 "r1".
Definition ev_put3 : ShardStore.event := ShardStore.Event ShardStore.PUT "users" "u2" "2024" [("name", JStr "Bob")] 2 "r0".

(** Two definitions of the table [users]. *)
Definition users_v1 : TableDef := mkTableDef "users" "id" "ts".
Definition users_v2 : TableDef := mkTableDef "users" "email" "created".

(** A leader with an empty store. *)
Definition leader_r1 : ShardMain.state := ShardMain.mkState "leader" (Some "http://r1:8080") ShardStore.init [].
Definition cfg_r1 : ShardMain.config := ShardMain.mkConfig true "r1".
Definition create_u1 : ShardMain.CreateRecordRequest :=
  ShardMain.mkCreate "users" "u1" "2024" [("name", JStr "Ada")].

(** A shard that holds a tombstone written by a migration at version
    2000. *)
Definition tombstoned : ShardMain.state :=
  ShardMain.mkState "leader" (Some "http://r1:8080")
    (ShardStore.apply_all ShardStore.init
       [ShardStore.Event ShardStore.PUT "users" "u1" "2024" [("name", JStr "Ada")] 1000 "r1";
        ShardStore.Event ShardStore.DEL "users" "u1" "2024" [] 2000 "migration"])
    [].

(** A routing tier that knows no table and no shard; four virtual nodes
    per shard. *)
Definition c_empty : CoordMain.state :=
  CoordMain.mkState ∅ (Ring.mkRing 4 ∅ []) (ReplicaRegistry.init 30) false None.

(** A routing tier with the table [users], and the shard [s1] whose
    replica [r1] registered at time 0 and became its leader. *)
Definition c_users : CoordMain.state := (CoordMain.register_table c_empty users_v1).2.
Definition c_s1 : CoordMain.state :=
  (CoordMain.register_replica c_users 0 0 0 (CoordMain.mkRegister "s1" "http://r1:8080" (Some "r1") ReqAuto)).2.
(** The same once a second replica [r2] has registered and the migration
    thread has ended. *)
Definition c_s1_r2 : CoordMain.state :=
  CoordMain.migration_finished
    (CoordMain.register_replica c_s1 1 1 1 (CoordMain.mkRegister "s1" "http://r2:8080" (Some "r2") ReqAuto)).2.

(** The leader [r1] holding one live record. *)
Definition r1_with_u1 : ShardMain.state :=
  (ShardMain.create cfg_r1 leader_r1 1000
     ShardMain.Confirmed TransportError create_u1).2.

(** The shard [s2] joins with its replica [r3]: a migration starts, with
    the ring of [s1] alone as snapshot. The key ["u1"] moves to [s2]. *)
Definition c_s2 : CoordMain.state :=
  (CoordMain.register_replica c_s1_r2 5 5 5 (CoordMain.mkRegister "s2" "http://r3:8080" (Some "r3") ReqAuto)).2.

Definition ada_record : RecordBody :=
  mkRecordBody "users" "u1" "2024" (Some [("name", JStr "Ada")]) (Some 1000) None.

(** Only [r1] holds the record. *)
Definition only_r1_has_u1 (url : string) : reply :=
  if decide (url = "http://r1:8080")
  then Reply (mkResponse 200 (BRecord ada_record None))
  else Reply (http_exception 404 "Not found").

(** Only [r2], a follower, says the key exists. *)
Definition only_r2_says_true (url : string) : reply :=
  Reply (mkResponse 200 (BExists (bool_decide (url = "http://r2:8080")))).

End Samples.

(** ** Facts on the Python comparisons *)

Module PyFacts.
Import Py.

Lemma str_gt_leb a b : str_gt a b = negb (String.leb a b).
Proof.
  unfold str_gt, String.ltb, String.leb.
  rewrite (String.compare_antisym a b).
  by destruct (String.compare b a).
Qed.

Lemma str_gt_false a b : str_gt a b = false ↔ String.le a b.
Proof.
  rewrite str_gt_leb. unfold String.le.
  destruct (String.leb a b); simpl; naive_solver.
Qed.

Lemma str_gt_true a b : str_gt a b = true ↔ ¬ String.le a b.
Proof.
  rewrite <- str_gt_false. destruct (str_gt a b); naive_solver.
Qed.

Lemma tuple_le_spec a b :
  tuple_le a b ↔ a.1 < b.1 ∨ (a.1 = b.1 ∧ String.le a.2 b.2).
Proof.
  unfold tuple_le, tuple_gt. case_decide as Hv.
  - rewrite str_gt_false. split; [by right | intros [?|[_ ?]]; [lia | done]].
  - rewrite bool_decide_eq_false. split; [intros; left; lia | intros [?|[? _]]; lia].
Qed.

Lemma tuple_gt_spec a b : tuple_gt a b = true ↔ ¬ tuple_le a b.
Proof. unfold tuple_le. destruct (tuple_gt a b); naive_solver. Qed.

Global Instance tuple_le_dec : RelDecision tuple_le.
Proof. intros a b. unfold tuple_le. apply _. Defined.

Global Instance tuple_le_po : PartialOrder tuple_le.
Proof.
  split; [split|].
  - intros a. apply tuple_le_spec. right. done.
  - intros a b c [Hab|[Hab1 Hab2]]%tuple_le_spec [Hbc|[Hbc1 Hbc2]]%tuple_le_spec;
      apply tuple_le_spec; [left; lia .. |].
    right. split; [congruence | by etrans].
  - intros [v1 o1] [v2 o2] [H1|[H1 H1']]%tuple_le_spec [H2|[H2 H2']]%tuple_le_spec;
      simpl in *; try lia.
    f_equal; [done | by apply (anti_symm String.le)].
Qed.

Global Instance tuple_le_total : Total tuple_le.
Proof.
  intros [v1 o1] [v2 o2]. rewrite !tuple_le_spec. simpl.
  destruct (Z.lt_trichotomy v1 v2) as [?|[->|?]]; [by left; left | | by right; left].
  destruct (total String.le o1 o2); [left | right]; by right.
Qed.

Lemma tuple_gt_irrefl a : tuple_gt a a = false.
Proof. change (tuple_le a a). done. Qed.

Lemma tuple_gt_le a b : tuple_gt a b = true → tuple_le b a.
Proof.
  intros H%tuple_gt_spec. by destruct (total tuple_le a b).
Qed.

End PyFacts.


(** ** SHA-256 test vectors *)

Module Sha256Facts.

(** The digests of the empty message and of ["abc"] given in the
    standard. *)
Example sha256_empty :
  Sha256.to_int (Sha256.bytes_of_string "")
    = 0xe3b0c44298fc1c149afbf4c8996fb92427ae41e4649b934ca495991b7852b855.
Proof. vm_compute. reflexivity. Qed.

Example sha256_abc :
  Sha256.to_int (Sha256.bytes_of_string "abc")
    = 0xba7816bf8f01cfea414140de5dae2223b00361a396177a9cb410ff61f20015ad.
Proof. vm_compute. reflexivity. Qed.

(** A message that spans two blocks. *)
Example sha256_two_blocks :
  Sha256.to_int
    (Sha256.bytes_of_string "abcdbcdecdefdefgefghfghighijhijkijkljklmklmnlmnomnopnopq")
    = 0x248d6a61d20638b8e5c026930c3e6039a33ce45964ff2167f6ecedd419db06c1.
Proof. vm_compute. reflexivity. Qed.

End Sha256Facts.
(** ** Last-writer-wins convergence of the shard store *)

Module ShardStoreFacts.
Import ShardStore Samples.

Lemma apply_unfold s e :
  apply s e =
    if wins (slot_of_key s (key e)) (ev_version e) (ev_origin e) then write s e else s.
Proof.
  unfold apply, put, delete, setdefault, write, slot_of, slot_of_key, slot_at, key.
  simpl. destruct (ev_op e), (s !! ev_table e) as [t|] eqn:Ht; simpl;
    try (destruct (wins _ _ _); simpl; done).
  all: rewrite lookup_empty; simpl; by rewrite insert_insert_eq.
Qed.

Lemma slot_of_key_write s e k :
  slot_of_key (write s e) k = if decide (key e = k) then Some (slot_of e) else slot_of_key s k.
Proof.
  destruct k as [[tbl pk] sk]. unfold slot_of_key, slot_at, write, key. simpl.
  destruct (decide (ev_table e = tbl)) as [->|Ht].
  - rewrite lookup_insert_eq. simpl.
    destruct (decide ((ev_pk e, ev_sk e) = (pk, sk))) as [Hk|Hk].
    + rewrite Hk, lookup_insert_eq. injection Hk as -> ->. by rewrite decide_True.
    + rewrite lookup_insert_ne by done. rewrite decide_False; [done | congruence].
  - rewrite lookup_insert_ne by done. rewrite decide_False; [done | congruence].
Qed.

Lemma slot_at_write s e :
  slot_at (write s e) (ev_table e) (ev_pk e) (ev_sk e) = Some (slot_of e).
Proof.
  change (slot_of_key (write s e) (key e) = Some (slot_of e)).
  by rewrite slot_of_key_write, decide_True.
Qed.

Lemma apply_unfold_at s e :
  apply s e =
    if wins (slot_at s (ev_table e) (ev_pk e) (ev_sk e)) (ev_version e) (ev_origin e)
    then write s e else s.
Proof. apply apply_unfold. Qed.


Lemma write_write_same s e1 e2 :
  key e1 = key e2 → write (write s e1) e2 = write s e2.
Proof.
  unfold key, write. intros [= Ht Hp Hs]. rewrite Ht, Hp, Hs.
  rewrite lookup_insert_eq. simpl. by rewrite !insert_insert_eq.
Qed.

Lemma write_write_ne s e1 e2 :
  key e1 ≠ key e2 → write (write s e1) e2 = write (write s e2) e1.
Proof.
  unfold key, write. intros Hk.
  destruct (decide (ev_table e1 = ev_table e2)) as [Ht|Ht].
  - rewrite Ht, !lookup_insert_eq. simpl. rewrite !insert_insert_eq.
    f_equal. apply insert_insert_ne. congruence.
  - rewrite !lookup_insert_ne by done. by apply insert_insert_ne.
Qed.

Lemma write_ext s e1 e2 :
  key e1 = key e2 → slot_of e1 = slot_of e2 → write s e1 = write s e2.
Proof. unfold key, write. intros [= -> -> ->] ->. done. Qed.

Lemma slot_stamp_slot_of e : slot_stamp (slot_of e) = stamp e.
Proof. unfold slot_of. by destruct (ev_op e). Qed.

Lemma wins_stamp cur e :
  wins cur (ev_version e) (ev_origin e) =
    match cur with None => true | Some c => Py.tuple_gt (stamp e) (slot_stamp c) end.
Proof. done. Qed.

(** Two events commute on any store as soon as they install the same
    slot whenever they tie on key and [(version, origin)]. *)
Lemma apply_comm s e1 e2 :
  (key e1 = key e2 → stamp e1 = stamp e2 → slot_of e1 = slot_of e2) →
  apply (apply s e1) e2 = apply (apply s e2) e1.
Proof.
  intros Hc. rewrite !apply_unfold, !wins_stamp.
  destruct (decide (key e1 = key e2)) as [Hk|Hk].
  - (* same key *)
    assert (slot_of_key s (key e2) = slot_of_key s (key e1)) as Hs by (by rewrite Hk).
    rewrite Hs.
    destruct (slot_of_key s (key e1)) as [c|] eqn:Hcur.
    + destruct (Py.tuple_gt (stamp e1) (slot_stamp c)) eqn:H1,
               (Py.tuple_gt (stamp e2) (slot_stamp c)) eqn:H2;
        rewrite ?slot_of_key_write, ?Hs, ?Hcur, ?H1, ?H2; try done.
      * rewrite !decide_True by done.
        rewrite !slot_stamp_slot_of, !write_write_same by done.
        destruct (Py.tuple_gt (stamp e2) (stamp e1)) eqn:H21,
                 (Py.tuple_gt (stamp e1) (stamp e2)) eqn:H12; try done.
        -- apply PyFacts.tuple_gt_le in H21. by rewrite H21 in H12.
        -- rewrite (write_ext s e1 e2); [done .. |].
           apply Hc; [done|]. by apply (anti_symm Py.tuple_le).
      * rewrite decide_True by done. rewrite slot_stamp_slot_of.
        apply PyFacts.tuple_gt_le in H1.
        assert (Py.tuple_le (stamp e2) (stamp e1)) as ->; [by etrans | done].
      * rewrite decide_True by done. rewrite slot_stamp_slot_of.
        apply PyFacts.tuple_gt_le in H2.
        assert (Py.tuple_le (stamp e1) (stamp e2)) as ->; [by etrans | done].
    + rewrite !slot_of_key_write.
      rewrite !decide_True by done.
      rewrite !slot_stamp_slot_of, !write_write_same by done.
      destruct (Py.tuple_gt (stamp e2) (stamp e1)) eqn:H21,
               (Py.tuple_gt (stamp e1) (stamp e2)) eqn:H12; try done.
      * apply PyFacts.tuple_gt_le in H21. by rewrite H21 in H12.
      * rewrite (write_ext s e1 e2); [done .. |].
        apply Hc; [done|]. by apply (anti_symm Py.tuple_le).
  - (* different keys *)
    destruct (slot_of_key s (key e1)) as [c1|] eqn:Hc1,
             (slot_of_key s (key e2)) as [c2|] eqn:Hc2;
      repeat match goal with
      | |- context [Py.tuple_gt ?a ?b] => destruct (Py.tuple_gt a b) eqn:?
      end;
      rewrite ?slot_of_key_write, ?decide_False, ?Hc1, ?Hc2 by done;
      simplify_eq; rewrite ?Hc1, ?Hc2;
      repeat match goal with
      | H : Py.tuple_gt _ _ = _ |- _ => rewrite H
      end; try done; by apply write_write_ne.
Qed.

Lemma payload_consistent_perm l1 l2 :
  l1 ≡ₚ l2 → payload_consistent l1 → payload_consistent l2.
Proof.
  intros Hp Hc e1 e2 H1 H2. apply Hc; by rewrite Hp.
Qed.

Lemma payload_consistent_cons e l :
  payload_consistent (e :: l) → payload_consistent l.
Proof. intros Hc e1 e2 H1 H2. apply Hc; by right. Qed.

(** Reordering a consistent list of events does not change the outcome,
    whatever the initial store. *)
Lemma apply_all_perm l1 l2 :
  l1 ≡ₚ l2 → payload_consistent l1 → ∀ s, apply_all s l1 = apply_all s l2.
Proof.
  unfold apply_all.
  induction 1 as [|e l1 l2 Hp IH|e1 e2 l|l1 l2 l3 Hp1 IH1 Hp2 IH2]; intros Hc s; simpl.
  - done.
  - apply IH. by eapply payload_consistent_cons.
  - f_equal. apply apply_comm. apply Hc; [by left | by right; left].
  - etrans; [by apply IH1 |]. apply IH2. by eapply payload_consistent_perm.
Qed.

Lemma apply_all_snoc s l e : apply_all s (l ++ [e]) = apply (apply_all s l) e.
Proof. unfold apply_all. by rewrite foldl_app. Qed.

(** Every slot of a store built from the empty store is the
    last-writer-wins maximum of the events applied for its key. *)
Lemma apply_all_lww_max l k : lww_max l k (slot_of_key (apply_all init l) k).
Proof.
  induction l as [|e l IH] using rev_ind.
  - destruct k as [[tbl pk] sk]. unfold slot_of_key, slot_at, apply_all, init; simpl.
    rewrite lookup_empty; simpl. rewrite lookup_empty. intros e He.
    by apply elem_of_nil in He.
  - rewrite apply_all_snoc, apply_unfold, wins_stamp.
    set (s := apply_all init l) in *.
    destruct (decide (key e = k)) as [Hk|Hk].
    + rewrite Hk. destruct (slot_of_key s k) as [c|] eqn:Hcur; simpl in IH.
      * destruct (Py.tuple_gt (stamp e) (slot_stamp c)) eqn:Hgt.
        -- rewrite slot_of_key_write, decide_True by done. split.
           ++ exists e. split; [apply elem_of_app; right; by left | done].
           ++ intros e' [He'|He']%elem_of_app Hk'; rewrite slot_stamp_slot_of.
              ** etrans; [by apply IH | by apply PyFacts.tuple_gt_le].
              ** apply list_elem_of_singleton in He' as ->. done.
        -- rewrite Hcur. destruct IH as [(e0 & He0 & Hk0 & Hs0) Hmax]. split.
           ++ exists e0. split; [apply elem_of_app; by left | done].
           ++ intros e' [He'|He']%elem_of_app Hk'; [by apply Hmax |].
              apply list_elem_of_singleton in He' as ->. done.
      * rewrite slot_of_key_write, decide_True by done. split.
        -- exists e. split; [apply elem_of_app; right; by left | done].
        -- intros e' [He'|He']%elem_of_app Hk'; rewrite slot_stamp_slot_of.
           ++ by destruct (IH e' He').
           ++ apply list_elem_of_singleton in He' as ->. done.
    + assert (slot_of_key (if match slot_of_key s (key e) with
                              | Some c => Py.tuple_gt (stamp e) (slot_stamp c)
                              | None => true
                              end then write s e else s) k = slot_of_key s k) as ->.
      { destruct (match slot_of_key s (key e) with Some _ => _ | None => _ end); [|done].
        by rewrite slot_of_key_write, decide_False. }
      destruct (slot_of_key s k) as [c|]; simpl in *.
      * destruct IH as [(e0 & He0 & Hk0 & Hs0) Hmax]. split.
        -- exists e0. split; [apply elem_of_app; by left | done].
        -- intros e' [He'|He']%elem_of_app Hk'; [by apply Hmax |].
           apply list_elem_of_singleton in He' as ->. done.
      * intros e' [He'|He']%elem_of_app; [by apply IH |].
        apply list_elem_of_singleton in He' as ->. done.
Qed.

(** An event that does not beat the current slot leaves the store as it is. *)
Lemma apply_stale s e c :
  slot_of_key s (key e) = Some c → Py.tuple_le (stamp e) (slot_stamp c) →
  apply s e = s.
Proof.
  intros Hcur Hle. rewrite apply_unfold, wins_stamp, Hcur. by rewrite Hle.
Qed.

(** Applying an event twice is the same as applying it once. *)
Lemma apply_idem s e : apply (apply s e) e = apply s e.
Proof.
  rewrite (apply_unfold s e), wins_stamp.
  destruct (match slot_of_key s (key e) with Some _ => _ | None => _ end) eqn:Hw.
  - apply (apply_stale _ _ (slot_of e)).
    + by rewrite slot_of_key_write, decide_True.
    + by rewrite slot_stamp_slot_of.
  - destruct (slot_of_key s (key e)) as [c|] eqn:Hcur; [|done].
    by apply (apply_stale _ _ c).
Qed.

(** C1, as stated, fails: a PUT and a DEL for one key that tie on
    [(version, origin)] leave a live record when the PUT is applied first
    and a tombstone when the DEL is applied first. *)
Lemma lww_tie_depends_on_order :
  [ev_put1; ev_del1] ≡ₚ [ev_del1; ev_put1] ∧
  apply_all init [ev_put1; ev_del1] ≠ apply_all init [ev_del1; ev_put1].
Proof.
  split; [apply perm_swap |].
  intros H. apply (f_equal (λ s, get s "users" "u1" "2024")) in H.
  vm_compute in H. discriminate H.
Qed.

(** C1 (amended): for every list of PUT/DEL events in which events that
    agree on key and [(version, origin)] install the same slot, and every
    reordering of it, applying the events through [put] / [delete] to two
    initially empty stores yields identical contents; for every key the
    stored slot is the one installed by an event whose [(version, origin)]
    is the lexicographic maximum over all events applied for that key; an
    event whose [(version, origin)] is not strictly greater than the
    current slot's is a no-op, and re-applying an event changes nothing. *)
Theorem lww_convergence (l1 l2 : list event) :
  l1 ≡ₚ l2 → payload_consistent l1 →
  apply_all init l1 = apply_all init l2 ∧
  (∀ k, lww_max l1 k (slot_of_key (apply_all init l1) k)) ∧
  (∀ s e c, slot_of_key s (key e) = Some c →
            Py.tuple_le (stamp e) (slot_stamp c) → apply s e = s) ∧
  (∀ s e, apply (apply s e) e = apply s e).
Proof.
  intros Hp Hc. split_and!.
  - by apply apply_all_perm.
  - intros k. apply apply_all_lww_max.
  - apply apply_stale.
  - apply apply_idem.
Qed.

Lemma lww_convergence_witness :
  apply_all init [ev_put1; ev_del2; ev_put3] = apply_all init [ev_put3; ev_del2; ev_put1] ∧
  (∀ k, lww_max [ev_put1; ev_del2; ev_put3] k
          (slot_of_key (apply_all init [ev_put1; ev_del2; ev_put3]) k)) ∧
  (∀ s e c, slot_of_key s (key e) = Some c →
            Py.tuple_le (stamp e) (slot_stamp c) → apply s e = s) ∧
  (∀ s e, apply (apply s e) e = apply s e).
Proof.
  apply (lww_convergence [ev_put1; ev_del2; ev_put3] [ev_put3; ev_del2; ev_put1]).
  - change ([ev_put1; ev_del2; ev_put3] ≡ₚ reverse [ev_put1; ev_del2; ev_put3]).
    symmetry. apply reverse_Permutation.
  - intros e1 e2 H1 H2 Hk Hs.
    repeat (apply elem_of_cons in H1 as [->|H1]); [| | | by apply elem_of_nil in H1];
      (repeat (apply elem_of_cons in H2 as [->|H2]); [| | | by apply elem_of_nil in H2]);
      first [reflexivity | discriminate Hk | discriminate Hs].
Defined.

End ShardStoreFacts.

(** ** Reads, tombstones and statistics of the shard store *)

Module ShardStoreExtra.
Import ShardStore ShardStoreFacts.

Lemma put_as_apply s tbl pk sk val ver org :
  put s tbl pk sk val ver org = apply s (Event PUT tbl pk sk val ver org).
Proof. done. Qed.

Lemma delete_as_apply s tbl pk sk ver org :
  (delete s tbl pk sk ver org).2 = apply s (Event DEL tbl pk sk [] ver org).
Proof. done. Qed.

Lemma delete_returns_live s tbl pk sk ver org :
  (delete s tbl pk sk ver org).1 = get s tbl pk sk.
Proof.
  unfold delete, get, slot_at, setdefault.
  destruct (s !! tbl) as [t|]; simpl.
  - by destruct (wins (t !! (pk, sk)) ver org).
  - by rewrite lookup_empty.
Qed.

Lemma slot_at_apply_other s e tbl pk sk :
  key e ≠ (tbl, pk, sk) → slot_at (apply s e) tbl pk sk = slot_at s tbl pk sk.
Proof.
  intros Hne. rewrite apply_unfold. destruct (wins _ _ _); [|done].
  change (slot_of_key (write s e) (tbl, pk, sk) = slot_of_key s (tbl, pk, sk)).
  by rewrite slot_of_key_write, decide_False.
Qed.

Lemma slot_at_apply_same s e :
  slot_at (apply s e) (ev_table e) (ev_pk e) (ev_sk e) =
    if wins (slot_at s (ev_table e) (ev_pk e) (ev_sk e)) (ev_version e) (ev_origin e)
    then Some (slot_of e) else slot_at s (ev_table e) (ev_pk e) (ev_sk e).
Proof.
  rewrite apply_unfold_at. destruct (wins _ _ _); [|done]. apply slot_at_write.
Qed.

(** A write that wins is what every read returns afterwards; a write
    that loses changes nothing; no write touches another key. *)
Theorem put_then_read (s : store) (tbl pk sk : string) (val : pydict)
    (ver : Z) (org : string) :
  let s' := put s tbl pk sk val ver org in
  (if wins (slot_at s tbl pk sk) ver org
   then get s' tbl pk sk = Some val ∧
        get_with_version s' tbl pk sk = (Some val, Some ver, Some org) ∧
        exists_ s' tbl pk sk = true
   else s' = s) ∧
  (∀ tbl' pk' sk', (tbl', pk', sk') ≠ (tbl, pk, sk) →
     slot_at s' tbl' pk' sk' = slot_at s tbl' pk' sk').
Proof.
  intros s'. subst s'. rewrite put_as_apply. split.
  - pose proof (slot_at_apply_same s (Event PUT tbl pk sk val ver org)) as Hs.
    cbn [ev_table ev_pk ev_sk ev_version ev_origin] in Hs.
    destruct (wins (slot_at s tbl pk sk) ver org) eqn:Hw.
    + unfold get, get_with_version, exists_. by rewrite Hs.
    + rewrite apply_unfold_at. cbn [ev_table ev_pk ev_sk ev_version ev_origin].
      by rewrite Hw.
  - intros tbl' pk' sk' Hne. apply slot_at_apply_other.
    intros Heq. apply Hne. by rewrite <- Heq.
Qed.

(** [delete] returns the value that was live. When it wins, the key
    reads as absent afterwards while its slot stays, as a tombstone that
    carries the version and origin of the delete; when it loses, nothing
    changes. No delete touches another key. *)
Theorem delete_then_read (s : store) (tbl pk sk : string) (ver : Z) (org : string) :
  let out := delete s tbl pk sk ver org in
  out.1 = get s tbl pk sk ∧
  (if wins (slot_at s tbl pk sk) ver org
   then get out.2 tbl pk sk = None ∧
        get_with_version out.2 tbl pk sk = (None, Some ver, Some org) ∧
        exists_ out.2 tbl pk sk = false ∧
        slot_at out.2 tbl pk sk = Some (Slot [] ver org true)
   else out.2 = s) ∧
  (∀ tbl' pk' sk', (tbl', pk', sk') ≠ (tbl, pk, sk) →
     slot_at out.2 tbl' pk' sk' = slot_at s tbl' pk' sk').
Proof.
  intros out. subst out. rewrite delete_returns_live, delete_as_apply.
  split; [done|]. split.
  - pose proof (slot_at_apply_same s (Event DEL tbl pk sk [] ver org)) as Hs.
    cbn [ev_table ev_pk ev_sk ev_version ev_origin] in Hs.
    destruct (wins (slot_at s tbl pk sk) ver org) eqn:Hw.
    + unfold get, get_with_version, exists_. by rewrite Hs.
    + rewrite apply_unfold_at. cbn [ev_table ev_pk ev_sk ev_version ev_origin].
      by rewrite Hw.
  - intros tbl' pk' sk' Hne. apply slot_at_apply_other.
    intros Heq. apply Hne. by rewrite <- Heq.
Qed.

(** One event never removes a slot and never lowers its
    [(version, origin)]. *)
Lemma apply_slot_monotone s e k c :
  slot_of_key s k = Some c →
  ∃ c', slot_of_key (apply s e) k = Some c' ∧ Py.tuple_le (slot_stamp c) (slot_stamp c').
Proof.
  intros Hc. rewrite apply_unfold, wins_stamp.
  destruct (decide (key e = k)) as [<-|Hne].
  - rewrite Hc. destruct (Py.tuple_gt (stamp e) (slot_stamp c)) eqn:Hgt.
    + exists (slot_of e). rewrite slot_of_key_write, decide_True by done.
      split; [done|]. rewrite slot_stamp_slot_of. by apply PyFacts.tuple_gt_le.
    + by exists c.
  - destruct (match slot_of_key s (key e) with Some _ => _ | None => _ end).
    + exists c. by rewrite slot_of_key_write, decide_False.
    + by exists c.
Qed.

(** Slots are never removed, and versions never go backwards: whatever
    events are applied to a store, in whatever order, a key that had a
    slot still has one, with a [(version, origin)] at least as large. *)
Theorem slots_only_grow (s : store) (l : list event) (tbl pk sk : string) (c : slot) :
  slot_at s tbl pk sk = Some c →
  ∃ c', slot_at (apply_all s l) tbl pk sk = Some c' ∧
        Py.tuple_le (slot_stamp c) (slot_stamp c').
Proof.
  revert s c. induction l as [|e l IH]; intros s c Hc.
  - by exists c.
  - destruct (apply_slot_monotone s e (tbl, pk, sk) c Hc) as (c1 & Hc1 & Hle1).
    destruct (IH (apply s e) c1 Hc1) as (c2 & Hc2 & Hle2).
    exists c2. split; [exact Hc2 | by etrans].
Qed.

Lemma slots_only_grow_witness :
  ∃ c', slot_at (apply_all (apply_all init [Samples.ev_put1])
                   [Samples.ev_del2; Samples.ev_put3; Samples.ev_del1])
          "users" "u1" "2024" = Some c' ∧
        Py.tuple_le (slot_stamp (Slot [("name", JStr "Ada")] 1 "r1" false)) (slot_stamp c').
Proof.
  apply (slots_only_grow (apply_all init [Samples.ev_put1])
           [Samples.ev_del2; Samples.ev_put3; Samples.ev_del1] "users" "u1" "2024"
           (Slot [("name", JStr "Ada")] 1 "r1" false)).
  vm_compute. reflexivity.
Defined.

(** [iter_records] yields every slot of the store, and nothing else. *)
Lemma elem_of_iter_records s tbl pk sk v ver org del :
  (tbl, pk, sk, v, ver, org, del) ∈ iter_records s ↔
  slot_at s tbl pk sk = Some (Slot v ver org del).
Proof.
  unfold iter_records, slot_at. rewrite list_elem_of_bind. split.
  - intros ([tbl' t] & Hin & Ht%elem_of_map_to_list).
    apply list_elem_of_fmap in Hin as ([[pk' sk'] c] & Heq & Hc%elem_of_map_to_list).
    unfold record_of in Heq. simpl in *. injection Heq as -> -> -> -> -> -> ->.
    rewrite Ht. simpl. rewrite Hc. by destruct c.
  - intros Hs. destruct (s !! tbl) as [t|] eqn:Ht; simpl in Hs;
      [|by rewrite lookup_empty in Hs].
    exists (tbl, t). split; [|by apply elem_of_map_to_list].
    apply list_elem_of_fmap. exists ((pk, sk), Slot v ver org del).
    split; [done | by apply elem_of_map_to_list].
Qed.

Global Instance record_of_inj tbl : Inj (=) (=) (record_of tbl).
Proof.
  intros [[pk1 sk1] [v1 n1 o1 d1]] [[pk2 sk2] [v2 n2 o2 d2]]. unfold record_of. simpl.
  by intros [= -> -> -> -> -> ->].
Qed.

(** [iter_records] yields one record for each slot of the store, live or
    tombstoned, with the slot's fields, and nothing else. *)
Theorem iter_records_lists_slots (s : store) :
  NoDup (iter_records s) ∧
  ∀ tbl pk sk v ver org del,
    (tbl, pk, sk, v, ver, org, del) ∈ iter_records s ↔
    slot_at s tbl pk sk = Some (Slot v ver org del).
Proof.
  split; [|intros; apply elem_of_iter_records].
  unfold iter_records. apply NoDup_bind.
  - intros [tbl1 t1] [tbl2 t2] r H1 H2 Hr1 Hr2. cbn [fst snd] in *.
    apply list_elem_of_fmap in Hr1 as (kc1 & -> & _).
    apply list_elem_of_fmap in Hr2 as (kc2 & Heq & _).
    injection Heq as -> _.
    apply elem_of_map_to_list in H1, H2. simpl in H1, H2. congruence.
  - intros [tbl t] _. cbn [fst snd]. apply (NoDup_fmap_2 _), NoDup_map_to_list.
  - apply NoDup_map_to_list.
Qed.

Lemma apply_slot_dep e s s' :
  slot_of_key s (key e) = slot_of_key s' (key e) →
  slot_of_key (apply s e) (key e) = slot_of_key (apply s' e) (key e).
Proof.
  intros Heq. unfold slot_of_key in *. cbn [key fst snd] in *.
  by rewrite !slot_at_apply_same, Heq.
Qed.

Lemma apply_slot_other e e' s :
  key e' ≠ key e → slot_of_key (apply s e') (key e) = slot_of_key s (key e).
Proof.
  intros Hk. destruct (key e) as [[tbl pk] sk] eqn:Hke. by apply slot_at_apply_other.
Qed.

(** Once [e] has been absorbed, repeating it among events for other
    keys leaves its key as it is. *)
Lemma apply_all_absorbed e l :
  (∀ e', e' ∈ l → key e' = key e → e' = e) →
  ∀ s, slot_of_key (apply s e) (key e) = slot_of_key s (key e) →
       slot_of_key (apply_all s l) (key e) = slot_of_key s (key e).
Proof.
  induction l as [|e' l IH]; intros Hsame s Habs; [done|].
  cbn [apply_all foldl]. fold (apply_all (apply s e') l).
  assert (slot_of_key (apply s e') (key e) = slot_of_key s (key e)) as H1.
  { destruct (decide (key e' = key e)) as [Hk|Hk].
    - by rewrite (Hsame e') by (by left || done).
    - by apply apply_slot_other. }
  rewrite IH.
  - done.
  - intros e0 He0. apply Hsame. by right.
  - rewrite H1, <- Habs. by apply apply_slot_dep.
Qed.

(** Events for one key that are all the same event [e] act on that key
    as [e] applied once, however often it is repeated and whatever
    events for other keys run in between. *)
Lemma apply_all_same_key e l :
  (∀ e', e' ∈ l → key e' = key e → e' = e) → e ∈ l →
  ∀ s, slot_of_key (apply_all s l) (key e) = slot_of_key (apply s e) (key e).
Proof.
  induction l as [|e' l IH]; intros Hsame Hin s; [by apply elem_of_nil in Hin|].
  cbn [apply_all foldl]. fold (apply_all (apply s e') l).
  assert (∀ e0, e0 ∈ l → key e0 = key e → e0 = e) as Hsame'.
  { intros e0 He0. apply Hsame. by right. }
  destruct (decide (key e' = key e)) as [Hk|Hk].
  - rewrite (Hsame e') by (by left || done).
    apply apply_all_absorbed; [done | by rewrite apply_idem].
  - apply elem_of_cons in Hin as [->|Hin]; [done|].
    rewrite IH by done. apply apply_slot_dep. by apply apply_slot_other.
Qed.

Lemma apply_all_other_key l tbl pk sk :
  (∀ e, e ∈ l → key e ≠ (tbl, pk, sk)) →
  ∀ s, slot_at (apply_all s l) tbl pk sk = slot_at s tbl pk sk.
Proof.
  induction l as [|e l IH]; intros Hne s; [done|].
  cbn [apply_all foldl]. fold (apply_all (apply s e) l).
  rewrite IH by (intros e0 He0; apply Hne; by right).
  apply slot_at_apply_other, Hne. by left.
Qed.

Lemma filter_nil_gen {A} (P : A → Prop) `{!∀ x, Decision (P x)} (l : list A) :
  Forall (λ x, ¬ P x) l → filter P l = [].
Proof.
  induction 1 as [|x l Hx _ IH]; [done|]. by rewrite filter_cons_False.
Qed.

Lemma filter_ext_in {A} (P Q : A → Prop) `{!∀ x, Decision (P x)} `{!∀ x, Decision (Q x)}
    (l : list A) :
  (∀ x, x ∈ l → (P x ↔ Q x)) → filter P l = filter Q l.
Proof.
  induction l as [|x l IH]; intros Hpq; [done|].
  assert (P x ↔ Q x) as Hx by (apply Hpq; by left).
  assert (filter P l = filter Q l) as Hl by (apply IH; intros y Hy; apply Hpq; by right).
  destruct (decide (P x)).
  - rewrite !filter_cons_True by tauto. by rewrite Hl.
  - rewrite !filter_cons_False by tauto. done.
Qed.

Lemma filter_fmap_length {A B} (f : A → B) (P : B → Prop) `{!∀ x, Decision (P x)}
    (l : list A) :
  length (filter P (f <$> l)) = length (filter (λ x, P (f x)) l).
Proof.
  induction l as [|x l IH]; [done|]. rewrite fmap_cons.
  destruct (decide (P (f x))).
  - rewrite !filter_cons_True by done. simpl. by rewrite IH.
  - by rewrite !filter_cons_False.
Qed.

(** The live records of one table are as many as [alive] counts. *)
Lemma live_records_of_table (tbl : string) (t : gmap (string * string) slot) :
  length (filter (λ r, record_deleted r = false) (record_of tbl <$> map_to_list t))
    = alive t.
Proof.
  unfold alive. rewrite filter_fmap_length.
  rewrite (filter_fmap_length snd (λ c, deleted c = false)). done.
Qed.

(** [stats] counts live records only: its [total_keys] is the number of
    records that [iter_records] yields with [deleted] false, and its
    count for a table is the number of those records in that table. *)
Theorem stats_counts_live_records (s : store) :
  (stats s).2 = length (filter (λ r, record_deleted r = false) (iter_records s)) ∧
  (∀ tbl, default 0%nat ((stats s).1 !! tbl) =
          length (filter (λ r, record_deleted r = false ∧ record_table r = tbl)
                         (iter_records s))).
Proof.
  split.
  - unfold stats, iter_records. cbn [snd].
    induction (map_to_list s) as [|[tbl t] l IH]; [done|].
    rewrite bind_cons, filter_app, length_app, !fmap_cons. cbn [fst snd sum_list].
    cbn [sum_list_with]. rewrite <- IH. f_equal. symmetry. apply live_records_of_table.
  - intros tbl. unfold stats. cbn [fst]. rewrite lookup_fmap.
    unfold iter_records.
    assert (NoDup ((map_to_list s).*1)) as Hnd by apply NoDup_fst_map_to_list.
    assert (∀ t, s !! tbl = Some t ↔ (tbl, t) ∈ map_to_list s) as Hel.
    { intros t. by rewrite elem_of_map_to_list. }
    revert Hnd Hel. generalize (s !! tbl) as o.
    induction (map_to_list s) as [|[tbl' t'] l IH]; intros o Hnd Hel.
    + destruct o as [t|]; [|done].
      destruct (Hel t) as [H1 _]. by apply elem_of_nil in H1.
    + rewrite bind_cons, filter_app, length_app. cbn [fst snd].
      rewrite fmap_cons in Hnd. apply NoDup_cons in Hnd as [Hnin Hnd].
      destruct (decide (tbl' = tbl)) as [->|Hne].
      * assert (o = Some t') as ->.
        { destruct (Hel t') as [_ H2]. apply H2. by left. }
        cbn [fmap option_fmap option_map default].
        rewrite <- (live_records_of_table tbl t').
        assert (filter (λ r : record, record_deleted r = false ∧ record_table r = tbl)
                  (l ≫= λ tt, record_of tt.1 <$> map_to_list tt.2) = []) as ->.
        { apply filter_nil_gen.
          apply Forall_forall. intros r Hr [_ Hrt].
          apply list_elem_of_bind in Hr as ([tbl0 t0] & Hr & Hin0).
          apply list_elem_of_fmap in Hr as (kc & -> & _).
          unfold record_table, record_of in Hrt. simpl in Hrt. subst tbl0.
          apply Hnin. apply list_elem_of_fmap. by exists (tbl, t0). }
        simpl. rewrite Nat.add_0_r. f_equal.
        apply filter_ext_in. intros r Hr.
        apply list_elem_of_fmap in Hr as (kc & -> & _).
        unfold record_table, record_of. simpl. tauto.
      * assert (filter (λ r : record, record_deleted r = false ∧ record_table r = tbl)
                  (record_of tbl' <$> map_to_list t') = []) as ->.
        { apply filter_nil_gen.
          apply Forall_forall. intros r Hr [_ Hrt].
          apply list_elem_of_fmap in Hr as (kc & -> & _).
          unfold record_table, record_of in Hrt. simpl in Hrt. done. }
        simpl. apply IH; [done|]. intros t. rewrite Hel. rewrite elem_of_cons.
        split; [intros [[=]|?]; done | by right].
Qed.

End ShardStoreExtra.

(** ** Properties of the consistent-hash ring *)

Module RingFacts.
Import Ring.

(** *** Bisection on strictly sorted lists *)

Lemma filter_none (P : Z → Prop) `{!∀ x, Decision (P x)} (l : list Z) :
  Forall (λ x, ¬ P x) l → filter P l = [].
Proof.
  induction 1 as [|x l Hx _ IH]; [done|]. by rewrite filter_cons_False.
Qed.

Lemma filter_all (P : Z → Prop) `{!∀ x, Decision (P x)} (l : list Z) :
  Forall P l → filter P l = l.
Proof.
  induction 1 as [|x l Hx _ IH]; [done|]. rewrite filter_cons_True by done.
  by rewrite IH.
Qed.

(** [bisect] cuts a sorted list into the entries [≤ h] and those [> h]. *)
Lemma bisect_split sk h :
  StronglySorted Z.lt sk →
  ∃ lo hi : list Z, sk = lo ++ hi ∧ length lo = bisect sk h ∧
           Forall (λ e, e ≤ h) lo ∧ Forall (λ e, h < e) hi.
Proof.
  unfold bisect. induction 1 as [|x l Hs IH Hx].
  - exists [], []. by repeat split.
  - destruct (decide (x ≤ h)) as [Hle|Hgt].
    + destruct IH as (lo & hi & -> & Hlen & Hlo & Hhi).
      exists (x :: lo), hi. rewrite filter_cons_True by done. simpl.
      split_and!; [done | by rewrite Hlen | by constructor | done].
    + exists [], (x :: l). rewrite filter_cons_False by done.
      rewrite filter_none.
      * split_and!; [done .. |]. constructor; [lia|].
        eapply Forall_impl; [done|]. simpl. lia.
      * eapply Forall_impl; [done|]. simpl. lia.
Qed.

(** [bisect_left] cuts a sorted list into the entries [< h] and those [≥ h]. *)
Lemma bisect_left_split sk h :
  StronglySorted Z.lt sk →
  ∃ lo hi : list Z, sk = lo ++ hi ∧ length lo = bisect_left sk h ∧
           Forall (λ e, e < h) lo ∧ Forall (λ e, h ≤ e) hi.
Proof.
  unfold bisect_left. induction 1 as [|x l Hs IH Hx].
  - exists [], []. by repeat split.
  - destruct (decide (x < h)) as [Hle|Hgt].
    + destruct IH as (lo & hi & -> & Hlen & Hlo & Hhi).
      exists (x :: lo), hi. rewrite filter_cons_True by done. simpl.
      split_and!; [done | by rewrite Hlen | by constructor | done].
    + exists [], (x :: l). rewrite filter_cons_False by done.
      rewrite filter_none.
      * split_and!; [done .. |]. constructor; [lia|].
        eapply Forall_impl; [done|]. simpl. lia.
      * eapply Forall_impl; [done|]. simpl. lia.
Qed.

(** *** Lookup *)

Lemma wf_empty_iff r : wf r → (_sorted_keys r = [] ↔ _ring r = ∅).
Proof.
  intros [_ Hdom]. split; intros He.
  - apply map_empty. intros p. apply eq_None_not_Some. rewrite <- Hdom, He.
    apply not_elem_of_nil.
  - destruct (_sorted_keys r) as [|p sk]; [done|].
    assert (is_Some (_ring r !! p)) as [n Hn] by (apply Hdom; by left).
    by rewrite He, lookup_empty in Hn.
Qed.

(** On a well-formed, non-empty ring [get] answers with the node at the
    first position strictly above the hash of the key, wrapping around. *)
Lemma get_successor r key :
  wf r → _ring r ≠ ∅ →
  ∃ p n, successor_gt r (_hash_to_int key) p ∧ _ring r !! p = Some n ∧
         get r key = Ok (Some n).
Proof.
  intros Hwf Hne. pose proof Hwf as [Hs Hdom].
  assert (_sorted_keys r ≠ []) as Hsk by (by rewrite wf_empty_iff).
  unfold get. set (h := _hash_to_int key). clearbody h.
  destruct (bisect_split _ h Hs) as (lo & hi & Hsplit & Hlen & Hlo & Hhi).
  rewrite <- Hlen.
  destruct (_sorted_keys r) as [|p0 sk0] eqn:Hsk0; [done|].
  rewrite <- Hsk0 in *. clear p0 sk0 Hsk0.
  rewrite Hsplit in Hs. apply StronglySorted_app in Hs as (Hcross & Hslo & Hshi).
  destruct hi as [|p hi].
  - (* every position is [≤ h]: wrap to the first one *)
    rewrite app_nil_r in Hsplit. rewrite Hsplit.
    rewrite Nat.Div0.mod_same.
    destruct lo as [|p lo]; [by rewrite Hsplit in Hsk|].
    simpl. assert (is_Some (_ring r !! p)) as [n Hn].
    { apply Hdom. rewrite Hsplit. by left. }
    exists p, n. rewrite Hn. split_and!; [|done..].
    right. split.
    + intros q Hq%Hdom. rewrite Hsplit in Hq.
      rewrite Forall_forall in Hlo. specialize (Hlo q Hq). simpl in Hlo. lia.
    + split_and!; [by eexists | done |].
      intros q Hq%Hdom _. rewrite Hsplit in Hq.
      apply elem_of_cons in Hq as [->|Hq]; [lia|].
      apply StronglySorted_cons in Hslo as [Hall _].
      rewrite Forall_forall in Hall. specialize (Hall q Hq). lia.
  - (* [p] is the first position [> h] *)
    rewrite Hsplit. rewrite Nat.mod_small by (rewrite length_app; simpl; lia).
    rewrite lookup_app_r by lia. rewrite Nat.sub_diag. simpl.
    assert (is_Some (_ring r !! p)) as [n Hn].
    { apply Hdom. rewrite Hsplit. apply elem_of_app. right. by left. }
    exists p, n. rewrite Hn. split_and!; [|done..].
    left. apply Forall_cons in Hhi as [Hp Hhi].
    split_and!; [by eexists | done |].
    intros q Hq%Hdom Hhq. rewrite Hsplit in Hq.
    apply elem_of_app in Hq as [Hq|Hq].
    + rewrite Forall_forall in Hlo. specialize (Hlo q Hq). simpl in Hlo. lia.
    + apply elem_of_cons in Hq as [->|Hq]; [lia|].
      apply StronglySorted_cons in Hshi as [Hall _].
      rewrite Forall_forall in Hall. specialize (Hall q Hq). lia.
Qed.

Lemma get_empty r key : _sorted_keys r = [] → get r key = Ok None.
Proof. unfold get. by intros ->. Qed.

(** *** Strictly sorted lists *)

Lemma sorted_lt_NoDup (l : list Z) : StronglySorted Z.lt l → NoDup l.
Proof.
  induction 1 as [|x l _ IH Hx]; constructor; [|done].
  intros Hin. rewrite Forall_forall in Hx. specialize (Hx x Hin). lia.
Qed.

Lemma sorted_le_NoDup_lt (l : list Z) :
  Sorted Z.le l → NoDup l → StronglySorted Z.lt l.
Proof.
  intros Hs%Sorted_StronglySorted; [|apply _].
  induction Hs as [|x l _ IH Hx]; intros Hnd; [constructor|].
  apply NoDup_cons in Hnd as [Hnin Hnd]. constructor; [by apply IH|].
  rewrite Forall_forall in Hx |- *. intros y Hy. specialize (Hx y Hy).
  assert (x ≠ y) by (by intros ->). lia.
Qed.

Lemma sorted_lt_filter (P : Z → Prop) `{!∀ x, Decision (P x)} (l : list Z) :
  StronglySorted Z.lt l → StronglySorted Z.lt (filter P l).
Proof.
  induction 1 as [|x l _ IH Hx]; [constructor|].
  destruct (decide (P x)).
  - rewrite filter_cons_True by done. constructor; [done|].
    rewrite Forall_forall in Hx |- *. intros y [_ Hy]%list_elem_of_filter. by apply Hx.
  - by rewrite filter_cons_False.
Qed.

Lemma sorted_lt_ext (l1 l2 : list Z) :
  StronglySorted Z.lt l1 → StronglySorted Z.lt l2 →
  (∀ x, x ∈ l1 ↔ x ∈ l2) → l1 = l2.
Proof.
  intros H1 H2 Hel. apply (StronglySorted_unique_strong Z.lt); [lia | done | done |].
  apply NoDup_Permutation; [by apply sorted_lt_NoDup .. | done].
Qed.

(** *** Removal *)

(** On a strictly sorted list the bisect-and-pop of [remove] drops
    exactly the entry equal to [k], if there is one. *)
Lemma remove_key_sorted m sk k n :
  StronglySorted Z.lt sk → m !! k = Some n →
  remove_key (m, sk) k = Ok (delete k m, filter (λ e, e ≠ k) sk).
Proof.
  intros Hs Hm. unfold remove_key. rewrite Hm.
  destruct (bisect_left_split _ k Hs) as (lo & hi & Hsplit & Hlen & Hlo & Hhi).
  rewrite <- Hlen. rewrite Hsplit in Hs |- *.
  apply StronglySorted_app in Hs as (_ & _ & Hshi).
  rewrite filter_app. rewrite (filter_all _ lo).
  2:{ eapply Forall_impl; [done|]. simpl. lia. }
  rewrite lookup_app_r by lia. rewrite Nat.sub_diag.
  destruct hi as [|x hi].
  - rewrite lookup_nil. rewrite bool_decide_eq_false_2 by done. done.
  - change ((x :: hi) !! 0%nat) with (Some x).
    apply StronglySorted_cons in Hshi as [Hall _].
    destruct (decide (x = k)) as [->|Hne].
    + rewrite bool_decide_eq_true_2 by done.
      rewrite filter_cons_False by (intros Hk; by apply Hk).
      rewrite filter_all.
      2:{ eapply Forall_impl; [done|]. simpl. lia. }
      unfold pop. rewrite take_app_length.
      rewrite drop_app_ge by lia.
      by replace (S (length lo) - length lo)%nat with 1%nat by lia.
    + rewrite bool_decide_eq_false_2 by congruence.
      rewrite filter_all; [done|]. apply Forall_cons in Hhi as [Hx Hhi].
      constructor; [done|]. eapply Forall_impl; [exact Hall|]. simpl. lia.
Qed.

Lemma lookup_foldl_delete (m : gmap Z RingNode) (ks : list Z) (p : Z) :
  foldl (λ m k, delete k m) m ks !! p = if decide (p ∈ ks) then None else m !! p.
Proof.
  revert m. induction ks as [|k ks IH]; intros m; cbn [foldl].
  - by destruct (decide (p ∈ [])) as [?%elem_of_nil|].
  - rewrite IH. destruct (decide (p ∈ ks)) as [Hin|Hnin].
    + rewrite decide_True; [done | by right].
    + destruct (decide (p = k)) as [->|Hne].
      * rewrite decide_True by (by left). apply lookup_delete_eq.
      * rewrite decide_False by (by intros [?|?]%elem_of_cons).
        by apply lookup_delete_ne.
Qed.

Lemma lookup_foldl_insert (m : gmap Z RingNode) (n : RingNode) (ks : list Z) (p : Z) :
  foldl (λ m k, <[k := n]> m) m ks !! p = if decide (p ∈ ks) then Some n else m !! p.
Proof.
  revert m. induction ks as [|k ks IH]; intros m; cbn [foldl].
  - by destruct (decide (p ∈ [])) as [?%elem_of_nil|].
  - rewrite IH. destruct (decide (p ∈ ks)) as [Hin|Hnin].
    + rewrite decide_True; [done | by right].
    + destruct (decide (p = k)) as [->|Hne].
      * rewrite decide_True by (by left). apply lookup_insert_eq.
      * rewrite decide_False by (by intros [?|?]%elem_of_cons).
        by apply lookup_insert_ne.
Qed.

Lemma remove_keys_sorted ks : ∀ m sk,
  StronglySorted Z.lt sk → NoDup ks → (∀ k, k ∈ ks → is_Some (m !! k)) →
  remove_keys (m, sk) ks =
    Ok (foldl (λ m k, delete k m) m ks, filter (λ e, e ∉ ks) sk).
Proof.
  induction ks as [|k ks IH]; intros m sk Hs Hnd Hin; cbn [remove_keys foldl].
  - rewrite filter_all; [done|]. apply Forall_forall. intros x _. apply not_elem_of_nil.
  - apply NoDup_cons in Hnd as [Hk Hnd].
    destruct (Hin k) as [n Hn]; [by left|].
    rewrite (remove_key_sorted _ _ _ n) by done. cbn [rbind].
    rewrite IH; [| by apply sorted_lt_filter | done |].
    + do 2 f_equal. rewrite list_filter_filter. apply list_filter_iff.
      intros x. rewrite not_elem_of_cons. tauto.
    + intros k' Hk'. rewrite lookup_delete_ne by (by intros ->).
      apply Hin. by right.
Qed.

(** Removal keeps a ring well formed, unless two virtual nodes of the
    shard collide. *)
Lemma remove_wf r s :
  wf r → NoDup (vnode_keys (replicas r) s) → ∃ r', remove r s = Ok r' ∧ wf r'.
Proof.
  intros [Hs Hdom] Hnd. unfold remove.
  set (ks := filter (λ k, is_Some (_ring r !! k)) (vnode_keys (replicas r) s)).
  assert (NoDup ks) as Hndk by (by apply NoDup_filter).
  rewrite remove_keys_sorted; [| done | done |].
  2:{ intros k Hk. by apply list_elem_of_filter in Hk as [Hk _]. }
  cbn [rbind fst snd]. eexists. split; [done|]. split; cbn [_sorted_keys _ring].
  - by apply sorted_lt_filter.
  - intros p. rewrite list_elem_of_filter, lookup_foldl_delete, Hdom.
    destruct (decide (p ∈ ks)) as [Hin|Hnin]; [|tauto].
    split; [tauto | by intros [? ?]].
Qed.

(** *** Addition *)

Lemma add_fresh r node :
  present r (url node) = false → add r node = Ok (added r node).
Proof. unfold add. by intros ->. Qed.

Lemma added_wf r node : wf r → collision_free r (url node) → wf (added r node).
Proof.
  intros [Hs Hdom] [Hnd Hfree]. unfold added. split; simpl.
  - apply sorted_le_NoDup_lt; [apply Sorted_merge_sort; apply _ |].
    rewrite merge_sort_Permutation. apply NoDup_app. split_and!; [| | done].
    + by apply sorted_lt_NoDup.
    + intros p Hp%Hdom Hk. apply Hfree in Hk. rewrite Hk in Hp. by destruct Hp.
  - intros p. rewrite merge_sort_Permutation, elem_of_app, lookup_foldl_insert.
    rewrite Hdom. destruct (decide (p ∈ _)) as [Hin|Hnin]; [|tauto].
    split; [by eexists | by right].
Qed.

(** Removing a shard right after it was added, without hash collision,
    gives back the very same ring state. *)
Lemma remove_added r s :
  wf r → collision_free r s → remove (added r (mkRingNode s)) s = Ok r.
Proof.
  intros Hwf Hcf. pose proof (added_wf r (mkRingNode s) Hwf Hcf) as [Hs' Hdom'].
  destruct Hwf as [Hs Hdom], Hcf as [Hnd Hfree].
  unfold remove. cbn [added replicas _ring _sorted_keys url] in *.
  set (ks := vnode_keys (replicas r) s) in *.
  rewrite filter_all.
  2:{ apply Forall_forall. intros k Hk. rewrite lookup_foldl_insert.
      rewrite decide_True by done. by eexists. }
  rewrite remove_keys_sorted; [| done | done |].
  2:{ intros k Hk. rewrite lookup_foldl_insert, decide_True by done. by eexists. }
  cbn [rbind fst snd]. destruct r as [n m sk]. cbn [replicas _ring _sorted_keys] in *.
  do 2 f_equal.
  - apply map_eq. intros p. rewrite lookup_foldl_delete, lookup_foldl_insert.
    destruct (decide (p ∈ ks)) as [Hin|Hnin]; [|done]. symmetry. by apply Hfree.
  - apply sorted_lt_ext; [by apply sorted_lt_filter | done |].
    intros p. rewrite list_elem_of_filter, merge_sort_Permutation, elem_of_app.
    split; [tauto|]. intros Hp. split; [|by left].
    intros Hk. apply Hfree in Hk. apply Hdom in Hp. rewrite Hk in Hp. by destruct Hp.
Qed.

(** *** Rings built from a membership *)

Lemma present_false r s :
  (∀ p n, _ring r !! p = Some n → url n ≠ s) → present r s = false.
Proof.
  intros Hall. unfold present. apply not_true_iff_false.
  intros ([p n] & Hin & Hurl)%existsb_exists.
  apply list_elem_of_In, elem_of_map_to_list in Hin.
  apply bool_decide_eq_true in Hurl. by eapply Hall.
Qed.

Lemma wf_ring_ext r1 r2 :
  wf r1 → wf r2 → replicas r1 = replicas r2 → _ring r1 = _ring r2 → r1 = r2.
Proof.
  destruct r1 as [n1 m1 sk1], r2 as [n2 m2 sk2]. intros [Hs1 Hd1] [Hs2 Hd2].
  simpl in *. intros -> ->. f_equal. apply sorted_lt_ext; [done..|].
  intros p. by rewrite Hd1, Hd2.
Qed.

Lemma build_snoc n l s :
  build n (l ++ [s]) = r ←r build n l; add r (mkRingNode s).
Proof.
  unfold build. destruct (new n) as [r0|e]; cbn [rbind].
  - by rewrite foldl_app.
  - done.
Qed.

(** Without hash collision among the virtual nodes of the members, [build]
    succeeds and yields a well-formed ring whose virtual nodes are those
    of the members. *)
Lemma build_ok n l :
  0 < n → NoDup (l ≫= vnode_keys n) →
  ∃ r, build n l = Ok r ∧ wf r ∧ replicas r = n ∧
       ∀ p node, _ring r !! p = Some node ↔
                 ∃ s, s ∈ l ∧ p ∈ vnode_keys n s ∧ node = mkRingNode s.
Proof.
  intros Hn. induction l as [|s l IH] using rev_ind; intros Hnd.
  - exists (mkRing n ∅ []). unfold build, new.
    rewrite bool_decide_eq_false_2 by lia. split_and!; [done | | done |].
    + split; [constructor|]. intros p. simpl. rewrite lookup_empty.
      split; [by intros ?%elem_of_nil | by intros [? ?]].
    + intros p node. simpl. rewrite lookup_empty. split; [done|].
      by intros (s & ?%elem_of_nil & _).
  - rewrite bind_app in Hnd. cbn [mbind list_bind] in Hnd. rewrite app_nil_r in Hnd.
    apply NoDup_app in Hnd as (Hnd & Hdisj & Hnds).
    destruct (IH Hnd) as (r & Hb & Hwf & Hrep & Hchar).
    assert (∀ k, k ∈ vnode_keys n s → _ring r !! k = None) as Hfree.
    { intros k Hk. apply eq_None_not_Some. intros [node Hnode].
      apply Hchar in Hnode as (s' & Hs' & Hk' & _).
      apply (Hdisj k); [|done]. apply list_elem_of_bind. eauto. }
    assert (present r s = false) as Hpres.
    { apply present_false. intros p node Hnode Hurl.
      pose proof Hnode as (s' & Hs' & Hk' & ->)%Hchar. simpl in Hurl. subst s'.
      by rewrite Hfree in Hnode. }
    assert (collision_free r s) as Hcf by (unfold collision_free; by rewrite Hrep).
    exists (added r (mkRingNode s)).
    rewrite build_snoc, Hb. cbn [rbind]. split_and!.
    + by apply (add_fresh r (mkRingNode s)).
    + by apply added_wf.
    + by simpl.
    + intros p node. cbn [added _ring url]. rewrite lookup_foldl_insert, Hrep.
      destruct (decide (p ∈ vnode_keys n s)) as [Hin|Hnin].
      * split.
        -- intros [= <-]. exists s. split_and!; [|done..]. apply elem_of_app. right. by left.
        -- intros (s' & [Hs'|Hs']%elem_of_app & Hk' & ->).
           ++ exfalso. apply (Hdisj p); [|done]. apply list_elem_of_bind. eauto.
           ++ by apply list_elem_of_singleton in Hs' as ->.
      * rewrite Hchar. split.
        -- intros (s' & Hs' & Hk' & ->). exists s'. split_and!; [|done..].
           apply elem_of_app. by left.
        -- intros (s' & [Hs'|Hs']%elem_of_app & Hk' & ->); [by eauto|].
           by apply list_elem_of_singleton in Hs' as ->.
Qed.

(** A shard whose virtual nodes collide neither with one another nor
    with those of the members of a built ring is absent from that ring
    and can be added to it without collision. *)
Lemma build_fresh n l s :
  0 < n → NoDup ((l ++ [s]) ≫= vnode_keys n) →
  ∃ r, build n l = Ok r ∧ wf r ∧ present r s = false ∧ collision_free r s.
Proof.
  intros Hn Hnd. rewrite bind_app in Hnd. cbn [mbind list_bind] in Hnd.
  rewrite app_nil_r in Hnd. apply NoDup_app in Hnd as (Hnd & Hdisj & Hnds).
  destruct (build_ok n l Hn Hnd) as (r & Hb & Hwf & Hrep & Hchar).
  assert (∀ k, k ∈ vnode_keys n s → _ring r !! k = None) as Hfree.
  { intros k Hk. apply eq_None_not_Some. intros [node Hnode].
    apply Hchar in Hnode as (s' & Hs' & Hk' & _).
    apply (Hdisj k); [|done]. apply list_elem_of_bind. eauto. }
  exists r. split_and!; [done | done | |].
  - apply present_false. intros p node Hnode Hurl.
    pose proof Hnode as (s' & Hs' & Hk' & ->)%Hchar. simpl in Hurl. subst s'.
    by rewrite Hfree in Hnode.
  - unfold collision_free. by rewrite Hrep.
Qed.

(** The ring state depends on the membership only, not on the order in
    which the members were added. *)
Lemma build_perm n l1 l2 :
  0 < n → l1 ≡ₚ l2 → NoDup (l1 ≫= vnode_keys n) →
  ∃ r, build n l1 = Ok r ∧ build n l2 = Ok r.
Proof.
  intros Hn Hp Hnd1.
  assert (NoDup (l2 ≫= vnode_keys n)) as Hnd2 by (by rewrite <- Hp).
  destruct (build_ok n l1 Hn Hnd1) as (r1 & Hb1 & Hwf1 & Hrep1 & Hc1).
  destruct (build_ok n l2 Hn Hnd2) as (r2 & Hb2 & Hwf2 & Hrep2 & Hc2).
  exists r1. split; [done|]. rewrite Hb2. f_equal.
  apply wf_ring_ext; [done | done | congruence |].
  apply map_eq. intros p. apply option_eq. intros node.
  rewrite Hc1, Hc2. by setoid_rewrite Hp.
Qed.

(** *** The claims on the ring *)

(** C3, as stated, fails: with one virtual node per shard and the shards
    [s1] and [s2], the key ["s1#0"] hashes exactly onto the virtual node
    of [s1], which is therefore the smallest position [≥ H(key)]; [get]
    answers [s2]. *)
Lemma get_skips_position_equal_to_hash :
  ∃ r, build 1 ["s1"; "s2"] = Ok r ∧
       successor_ge r (_hash_to_int "s1#0") (_hash_to_int "s1#0") ∧
       _ring r !! _hash_to_int "s1#0" = Some (mkRingNode "s1") ∧
       get r "s1#0" = Ok (Some (mkRingNode "s2")).
Proof.
  eexists. split; [vm_compute; reflexivity|]. split_and!.
  - left. split_and!.
    + exists (mkRingNode "s1"). vm_compute. reflexivity.
    + apply Z.le_refl.
    + intros q _ Hq. exact Hq.
  - vm_compute. reflexivity.
  - vm_compute. reflexivity.
Qed.

(** C3 (amended): for every well-formed ring and every key [k], [get k]
    returns [None] iff the ring is empty, and otherwise returns the shard
    whose virtual node sits at the smallest position strictly greater than
    [H(k)], wrapping past the end of the hash space to the smallest
    position. *)
Theorem get_spec (r : ring) (key : string) :
  wf r →
  (get r key = Ok None ↔ _ring r = ∅) ∧
  (_ring r ≠ ∅ →
     ∃ p n, successor_gt r (_hash_to_int key) p ∧ _ring r !! p = Some n ∧
            get r key = Ok (Some n)).
Proof.
  intros Hwf. split.
  - split.
    + intros Hget. destruct (decide (_ring r = ∅)) as [|Hne]; [done|].
      destruct (get_successor r key Hwf Hne) as (p & n & _ & _ & Hn). congruence.
    + intros He. apply get_empty. by apply wf_empty_iff.
  - by apply get_successor.
Qed.

Lemma get_spec_witness :
  ∃ r, build 1 ["s1"; "s2"] = Ok r ∧
    (get r "s1#0" = Ok None ↔ _ring r = ∅) ∧
    (_ring r ≠ ∅ →
       ∃ p n, successor_gt r (_hash_to_int "s1#0") p ∧ _ring r !! p = Some n ∧
              get r "s1#0" = Ok (Some n)).
Proof.
  destruct (build_ok 1 ["s1"; "s2"]) as (r & Hb & Hwf & _).
  - lia.
  - refine (bool_decide_unpack _ _); vm_compute; exact I.
  - exists r. split; [exact Hb|]. apply (get_spec r "s1#0"). exact Hwf.
Defined.

(** C6: for a fixed membership the ring, and so [get k] for every key
    [k], does not depend on the order in which the members were added;
    and for every well-formed ring [r] and every shard [s] not present in
    it, [add s] followed by [remove s] gives a ring on which [get k]
    equals the result before the addition, for every key [k]. Hash
    collisions between virtual nodes are excluded. *)
Theorem ring_determinism (n : Z) (l1 l2 : list string) (r : ring) (s : string) :
  0 < n → l1 ≡ₚ l2 → NoDup (l1 ≫= vnode_keys n) →
  wf r → present r s = false → collision_free r s →
  (∃ r1 r2, build n l1 = Ok r1 ∧ build n l2 = Ok r2 ∧ ∀ k, get r1 k = get r2 k) ∧
  (∃ r1 r2, add r (mkRingNode s) = Ok r1 ∧ remove r1 s = Ok r2 ∧
            ∀ k, get r2 k = get r k).
Proof.
  intros Hn Hp Hnd Hwf Hpres Hcf. split.
  - destruct (build_perm n l1 l2 Hn Hp Hnd) as (r0 & H1 & H2).
    by exists r0, r0.
  - exists (added r (mkRingNode s)), r. split_and!.
    + by apply (add_fresh r (mkRingNode s)).
    + by apply remove_added.
    + done.
Qed.

Lemma ring_determinism_witness :
  ∃ r, build 2 ["s1"; "s2"] = Ok r ∧
    (∃ r1 r2, build 2 ["s1"; "s2"; "s3"] = Ok r1 ∧ build 2 ["s3"; "s2"; "s1"] = Ok r2 ∧
              ∀ k, get r1 k = get r2 k) ∧
    (∃ r1 r2, add r (mkRingNode "s3") = Ok r1 ∧ remove r1 "s3" = Ok r2 ∧
              ∀ k, get r2 k = get r k).
Proof.
  assert (NoDup (["s1"; "s2"; "s3"] ≫= vnode_keys 2)) as Hnd.
  { refine (bool_decide_unpack _ _); vm_compute; exact I. }
  destruct (build_fresh 2 ["s1"; "s2"] "s3") as (r & Hb & Hwf & Hpres & Hcf).
  - lia.
  - exact Hnd.
  - exists r. split; [exact Hb|].
    apply (ring_determinism 2 ["s1"; "s2"; "s3"] ["s3"; "s2"; "s1"] r "s3").
    + lia.
    + change (["s1"; "s2"; "s3"] ≡ₚ reverse ["s1"; "s2"; "s3"]).
      symmetry. apply reverse_Permutation.
    + exact Hnd.
    + exact Hwf.
    + exact Hpres.
    + exact Hcf.
Defined.

End RingFacts.

(** ** Membership of the consistent-hash ring *)

Module RingExtra.
Import Ring RingFacts.

Lemma elem_of_nodes r n : n ∈ nodes r ↔ ∃ p, _ring r !! p = Some n.
Proof.
  unfold nodes. rewrite merge_sort_Permutation, elem_of_remove_dups, list_elem_of_fmap.
  split.
  - intros ([p n'] & -> & Hin%elem_of_map_to_list). by exists p.
  - intros [p Hp]. exists (p, n). split; [done | by apply elem_of_map_to_list].
Qed.

Lemma present_true r p s : _ring r !! p = Some (mkRingNode s) → present r s = true.
Proof.
  intros Hp. unfold present. apply existsb_exists. exists (p, mkRingNode s). split.
  - by apply list_elem_of_In, elem_of_map_to_list.
  - by apply bool_decide_eq_true.
Qed.

(** [get] only ever answers with a shard that [nodes] lists. *)
Theorem get_in_nodes (r : ring) (key : string) (n : RingNode) :
  get r key = Ok (Some n) → n ∈ nodes r.
Proof.
  unfold get. destruct (_sorted_keys r) as [|p0 sk]; [done|].
  destruct (_ !! _) as [p|]; [|done].
  destruct (_ring r !! p) as [n'|] eqn:Hp; [|done].
  intros [= <-]. apply elem_of_nodes. by exists p.
Qed.

Lemma get_in_nodes_witness :
  mkRingNode "s2" ∈ nodes (CoordMain.ring Samples.c_s2).
Proof.
  apply (get_in_nodes (CoordMain.ring Samples.c_s2) "u1" (mkRingNode "s2")).
  vm_compute. reflexivity.
Defined.

Lemma vnode_keys_nonempty n s : 0 < n → ∃ k, k ∈ vnode_keys n s.
Proof.
  intros Hn. unfold vnode_keys.
  destruct (Z.to_nat n) as [|m] eqn:Hm; [lia|].
  eexists. rewrite <- cons_seq, fmap_cons. by left.
Qed.

Lemma members_NoDup n (l : list string) :
  0 < n → NoDup (l ≫= vnode_keys n) → NoDup l.
Proof.
  intros Hn. induction l as [|s l IH]; intros Hnd; [constructor|].
  rewrite bind_cons in Hnd. apply NoDup_app in Hnd as (_ & Hdisj & Hnd).
  constructor; [|by apply IH]. intros Hin.
  destruct (vnode_keys_nonempty n s Hn) as [k Hk].
  apply (Hdisj k Hk). apply list_elem_of_bind. eauto.
Qed.

(** The names that [nodes] lists for a ring built from the members [l]:
    the members, sorted. *)
Lemma nodes_of_build n l r :
  0 < n → NoDup (l ≫= vnode_keys n) → build n l = Ok r →
  url <$> nodes r = merge_sort String.le l.
Proof.
  intros Hn Hnd Hb.
  destruct (build_ok n l Hn Hnd) as (r' & Hb' & Hwf & Hrep & Hchar).
  rewrite Hb in Hb'. injection Hb' as <-.
  apply (Sorted_unique String.le).
  - unfold nodes. eapply Sorted_fmap; [|apply Sorted_merge_sort].
    + intros x y Hxy. exact Hxy.
    + intros x y. apply (total String.le).
  - apply Sorted_merge_sort. apply _.
  - rewrite merge_sort_Permutation. apply NoDup_Permutation.
    + apply NoDup_fmap_2_strong.
      * intros [x] [y] _ _. simpl. by intros ->.
      * unfold nodes. rewrite merge_sort_Permutation. apply NoDup_remove_dups.
    + by eapply members_NoDup.
    + intros s. rewrite list_elem_of_fmap. split.
      * intros (nd & -> & [p Hp]%elem_of_nodes).
        apply Hchar in Hp as (s' & Hs' & _ & ->). done.
      * intros Hs. exists (mkRingNode s). split; [done|]. apply elem_of_nodes.
        destruct (vnode_keys_nonempty n s Hn) as [k Hk]. exists k.
        apply Hchar. eauto.
Qed.

(** The ring built from the members [l1 ++ s :: l2], and what removing
    or adding [s] again does to it. *)
Lemma build_member n l1 s l2 :
  0 < n → NoDup ((l1 ++ s :: l2) ≫= vnode_keys n) →
  ∃ r r', build n (l1 ++ s :: l2) = Ok r ∧ build n (l1 ++ l2) = Ok r' ∧
          wf r ∧ present r s = true ∧
          remove r s = Ok r' ∧ add r (mkRingNode s) = Ok r.
Proof.
  intros Hn Hnd.
  assert (l1 ++ s :: l2 ≡ₚ (l1 ++ l2) ++ [s]) as Hp.
  { rewrite <- Permutation_middle, <- Permutation_cons_append. done. }
  assert (NoDup (((l1 ++ l2) ++ [s]) ≫= vnode_keys n)) as Hnd' by (by rewrite <- Hp).
  destruct (build_fresh n (l1 ++ l2) s Hn Hnd') as (r' & Hb' & Hwf' & Hpres' & Hcf').
  destruct (build_perm n ((l1 ++ l2) ++ [s]) (l1 ++ s :: l2) Hn) as (r & Hb1 & Hb2);
    [done | done |].
  assert (r = added r' (mkRingNode s)) as Hr.
  { rewrite build_snoc, Hb' in Hb1. cbn [rbind] in Hb1.
    rewrite (add_fresh r' (mkRingNode s)) in Hb1 by done. by injection Hb1. }
  assert (present r s = true) as Hpres.
  { destruct (vnode_keys_nonempty (replicas r') s) as [k Hk].
    - destruct (build_ok n (l1 ++ l2) Hn) as (r0 & Hb0 & _ & Hrep & _).
      + rewrite bind_app in Hnd'. by apply NoDup_app in Hnd' as [? _].
      + rewrite Hb' in Hb0. injection Hb0 as <-. lia.
    - apply (present_true r k). rewrite Hr. cbn [added _ring url].
      by rewrite lookup_foldl_insert, decide_True. }
  assert (remove r s = Ok r') as Hrem by (rewrite Hr; by apply remove_added).
  exists r, r'. split_and!; [done | done | | done | done |].
  - rewrite Hr. by apply added_wf.
  - unfold add. cbn [url]. rewrite Hpres, Hrem. cbn [rbind]. by rewrite Hr.
Qed.

(** [remove] undoes a membership whatever the order of the additions:
    removing [s] from the ring built from [l1 ++ s :: l2] gives the ring
    built from [l1 ++ l2]. Hash collisions between virtual nodes are
    excluded. *)
Theorem remove_member (n : Z) (l1 : list string) (s : string) (l2 : list string) :
  0 < n → NoDup ((l1 ++ s :: l2) ≫= vnode_keys n) →
  ∃ r r', build n (l1 ++ s :: l2) = Ok r ∧ remove r s = Ok r' ∧
          build n (l1 ++ l2) = Ok r'.
Proof.
  intros Hn Hnd.
  destruct (build_member n l1 s l2 Hn Hnd) as (r & r' & Hb & Hb' & _ & _ & Hrem & _).
  by exists r, r'.
Qed.

Lemma remove_member_witness :
  ∃ r r', build 2 (["s1"] ++ "s2" :: ["s3"]) = Ok r ∧ remove r "s2" = Ok r' ∧
          build 2 (["s1"] ++ ["s3"]) = Ok r'.
Proof.
  apply (remove_member 2 ["s1"] "s2" ["s3"]).
  - lia.
  - refine (bool_decide_unpack _ _); vm_compute; exact I.
Defined.

(** Adding a shard that is already a member leaves the ring as it is
    (its virtual nodes are removed and inserted again). Hash collisions
    between virtual nodes are excluded. *)
Theorem add_member_is_noop (n : Z) (l1 : list string) (s : string) (l2 : list string) :
  0 < n → NoDup ((l1 ++ s :: l2) ≫= vnode_keys n) →
  ∃ r, build n (l1 ++ s :: l2) = Ok r ∧ add r (mkRingNode s) = Ok r.
Proof.
  intros Hn Hnd.
  destruct (build_member n l1 s l2 Hn Hnd) as (r & r' & Hb & _ & _ & _ & _ & Hadd).
  by exists r.
Qed.

Lemma add_member_is_noop_witness :
  ∃ r, build 2 (["s1"] ++ "s2" :: ["s3"]) = Ok r ∧ add r (mkRingNode "s2") = Ok r.
Proof.
  apply (add_member_is_noop 2 ["s1"] "s2" ["s3"]).
  - lia.
  - refine (bool_decide_unpack _ _); vm_compute; exact I.
Defined.

Lemma clone_of_build n l r :
  0 < n → NoDup (l ≫= vnode_keys n) → build n l = Ok r →
  build (replicas r) (url <$> nodes r) = Ok r.
Proof.
  intros Hn Hnd Hb.
  rewrite (nodes_of_build n l r Hn Hnd Hb).
  destruct (build_ok n l Hn Hnd) as (r0 & Hb0 & _ & Hrep & _).
  rewrite Hb in Hb0. injection Hb0 as <-. rewrite Hrep.
  destruct (build_perm n l (merge_sort String.le l) Hn) as (r1 & H1 & H2);
    [by rewrite merge_sort_Permutation | done |].
  rewrite H2. rewrite Hb in H1. by injection H1 as ->.
Qed.

(** The snapshot that [_clone_ring] takes of a ring built from any
    membership is that very ring, and [nodes] lists exactly its members,
    sorted by name. [on_ring_changed] records that snapshot as the
    previous ring and starts a migration, unless one is running, in
    which case it does nothing. Hash collisions between virtual nodes
    are excluded. *)
Theorem clone_ring_is_ring (n : Z) (l : list string) (prev : option ring) :
  0 < n → NoDup (l ≫= vnode_keys n) →
  ∃ r, build n l = Ok r ∧ Rebalance._clone_ring r = Ok r ∧
       url <$> nodes r = merge_sort String.le l ∧
       Rebalance.on_ring_changed (Rebalance.mk r prev false)
         = Ok (true, Rebalance.mk r (Some r) true) ∧
       Rebalance.on_ring_changed (Rebalance.mk r prev true)
         = Ok (false, Rebalance.mk r prev true).
Proof.
  intros Hn Hnd.
  destruct (build_ok n l Hn Hnd) as (r & Hb & _).
  assert (Rebalance._clone_ring r = Ok r) as Hclone by (by apply (clone_of_build n l)).
  exists r. split_and!; [done | done | | |done].
  - by apply (nodes_of_build n).
  - unfold Rebalance.on_ring_changed. cbn [Rebalance._migrating Rebalance.ring].
    by rewrite Hclone.
Qed.

Lemma clone_ring_is_ring_witness :
  ∃ r, build 2 ["s2"; "s3"; "s1"] = Ok r ∧ Rebalance._clone_ring r = Ok r ∧
       url <$> nodes r = merge_sort String.le ["s2"; "s3"; "s1"] ∧
       Rebalance.on_ring_changed (Rebalance.mk r None false)
         = Ok (true, Rebalance.mk r (Some r) true) ∧
       Rebalance.on_ring_changed (Rebalance.mk r None true)
         = Ok (false, Rebalance.mk r None true).
Proof.
  apply (clone_ring_is_ring 2 ["s2"; "s3"; "s1"] None).
  - lia.
  - refine (bool_decide_unpack _ _); vm_compute; exact I.
Defined.

(** On a ring built from a membership that is not empty, [get] never
    raises and never answers [None]: every key is given to one of the
    members. Hash collisions between virtual nodes are excluded. *)
Theorem get_answers_member (n : Z) (l : list string) (key : string) :
  0 < n → NoDup (l ≫= vnode_keys n) → l ≠ [] →
  ∃ r s, build n l = Ok r ∧ get r key = Ok (Some (mkRingNode s)) ∧ s ∈ l.
Proof.
  intros Hn Hnd Hne.
  destruct (build_ok n l Hn Hnd) as (r & Hb & Hwf & _ & Hchar).
  assert (_ring r ≠ ∅) as Hring.
  { destruct l as [|s l]; [done|].
    destruct (vnode_keys_nonempty n s Hn) as [k Hk].
    intros Hempty.
    assert (_ring r !! k = Some (mkRingNode s)) as Hk'.
    { apply Hchar. exists s. split_and!; [by left | done | done]. }
    by rewrite Hempty, lookup_empty in Hk'. }
  destruct (get_successor r key Hwf Hring) as (p & nd & _ & Hp & Hget).
  apply Hchar in Hp as (s & Hs & _ & ->).
  by exists r, s.
Qed.

Lemma get_answers_member_witness :
  ∃ r s, build 2 ["s1"; "s2"; "s3"] = Ok r ∧ get r "u1" = Ok (Some (mkRingNode s)) ∧
         s ∈ ["s1"; "s2"; "s3"].
Proof.
  apply (get_answers_member 2 ["s1"; "s2"; "s3"] "u1").
  - lia.
  - refine (bool_decide_unpack _ _); vm_compute; exact I.
  - discriminate.
Defined.

End RingExtra.

(** ** Properties of the registries *)

Module CoordStorageFacts.
Import CoordStorage.

Lemma odict_get_set_eq {V} (d : ODict.t V) k v : ODict.get (ODict.set d k v) k = Some v.
Proof.
  induction d as [|[k' v'] d IH]; simpl.
  - by rewrite decide_True.
  - destruct (decide (k' = k)) as [->|Hne]; simpl.
    + by rewrite decide_True.
    + by rewrite decide_False.
Qed.

Lemma odict_get_set_ne {V} (d : ODict.t V) k k' v :
  k ≠ k' → ODict.get (ODict.set d k v) k' = ODict.get d k'.
Proof.
  intros Hne. induction d as [|[k0 v0] d IH]; simpl.
  - by rewrite decide_False.
  - destruct (decide (k0 = k)) as [->|Hne0]; simpl.
    + by rewrite !decide_False.
    + destruct (decide (k0 = k')); [done | apply IH].
Qed.

(** *** Table definitions *)

Lemma table_register_lookup reg d :
  TableRegistry.get (TableRegistry.register reg d).2 (table_name d) = Ok d.
Proof. unfold TableRegistry.get, TableRegistry.register. simpl. by rewrite lookup_insert_eq. Qed.

Lemma table_register_other reg d name :
  table_name d ≠ name →
  TableRegistry.get (TableRegistry.register reg d).2 name = TableRegistry.get reg name.
Proof.
  intros Hne. unfold TableRegistry.get, TableRegistry.register. simpl.
  by rewrite lookup_insert_ne.
Qed.

(** *** Leader election by registration *)

Import ReplicaRegistry.

Lemma assign_none leaders shard url req :
  assign leaders None shard url req = (Leader, <[shard := url]> leaders).
Proof. unfold assign. destruct req; by rewrite ?insert_insert_eq. Qed.

Lemma assign_some leaders l shard url req :
  assign leaders (Some l) shard url req = (Follower, leaders).
Proof. unfold assign. by destruct req. Qed.

Lemma keep_leader_Leader prev leaders shard url :
  keep_leader prev leaders shard url Leader = Leader.
Proof.
  unfold keep_leader. destruct prev as [p|]; [|done].
  by destruct (bool_decide (role p = Leader) && _).
Qed.

(** [register] never raises: it always returns a role and a leader URL. *)
Lemma register_total reg now clock shard url rid req :
  ∃ a l reg', register reg now clock shard url rid req = Ok (a, l, reg').
Proof.
  unfold register, current_leader.
  destruct (_leader_url reg !! shard) as [l|] eqn:Hl.
  - destruct (Py.truthy l && negb (_is_active reg clock shard l)).
    + rewrite assign_none, lookup_insert_eq. eauto.
    + rewrite assign_some, Hl. eauto.
  - rewrite assign_none, lookup_insert_eq. eauto.
Qed.

(** The role assigned by [register] when the recorded leader URL, if
    any, is a non-empty string: the registrant becomes leader iff the
    shard has no active leader, or the registrant is that active leader. *)
Lemma register_assigned_role reg now clock shard url rid req a l reg' :
  leader_recorded reg →
  (∀ l0, _leader_url reg !! shard = Some l0 → l0 ≠ "") →
  register reg now clock shard url rid req = Ok (a, l, reg') →
  (a = Leader ↔
     leader_url reg clock shard = None ∨
     leader_url reg clock shard = Some (Py.rstrip_slash url)).
Proof.
  intros Hinv Hne. unfold register, leader_url, current_leader.
  destruct (_leader_url reg !! shard) as [l0|] eqn:Hl.
  - assert (Py.truthy l0 = true) as Ht.
    { specialize (Hne l0 eq_refl). by destruct l0. }
    rewrite Ht. cbn [andb].
    destruct (_is_active reg clock shard l0) eqn:Hact; cbn [negb].
    + (* an active leader is recorded *)
      rewrite assign_some, Hl. intros [= <- <- <-].
      destruct (Hinv shard l0 Hl) as (info & Hinfo & Hrole).
      unfold keep_leader.
      destruct (decide (l0 = Py.rstrip_slash url)) as [->|Hother].
      * rewrite Hinfo, Hrole, Hl. rewrite !bool_decide_eq_true_2 by done.
        split; auto.
      * rewrite Hl. rewrite (bool_decide_eq_false_2 (Some l0 = _)) by congruence.
        destruct (ODict.get _ (Py.rstrip_slash url)); rewrite ?andb_false_r;
          (split; [done | intros [?|?]; congruence]).
    + (* the recorded leader is stale *)
      rewrite assign_none, lookup_insert_eq. intros [= <- <- <-].
      rewrite keep_leader_Leader. by split; [auto|].
  - rewrite assign_none, lookup_insert_eq. intros [= <- <- <-].
    rewrite keep_leader_Leader. by split; [auto|].
Qed.

Lemma fix_leader_entry_get leaders shard reps l0 info :
  leaders !! shard = Some l0 → ODict.get reps l0 = Some info → role info = Leader →
  ∃ info', ODict.get (fix_leader_entry leaders shard reps) l0 = Some info' ∧
           role info' = Leader.
Proof.
  intros Hl Hget Hrole. unfold fix_leader_entry. rewrite Hl.
  destruct (Py.truthy l0); [|by eauto].
  rewrite Hget, odict_get_set_eq. by eauto.
Qed.

Lemma fix_leader_entry_promotes leaders shard reps l0 info :
  leaders !! shard = Some l0 → l0 ≠ "" → ODict.get reps l0 = Some info →
  ∃ info', ODict.get (fix_leader_entry leaders shard reps) l0 = Some info' ∧
           role info' = Leader.
Proof.
  intros Hl Hne Hget. unfold fix_leader_entry. rewrite Hl.
  assert (Py.truthy l0 = true) as -> by (by destruct l0).
  rewrite Hget, odict_get_set_eq. by eauto.
Qed.

(** [register] maintains [leader_recorded]. *)
Lemma register_leader_recorded reg now clock shard url rid req a l reg' :
  leader_recorded reg →
  register reg now clock shard url rid req = Ok (a, l, reg') →
  leader_recorded reg'.
Proof.
  intros Hinv. unfold register.
  set (u := Py.rstrip_slash url).
  (* when the registrant ends up as the recorded leader *)
  assert (∀ leaders,
    leaders !! shard = Some u →
    (∀ sh, sh ≠ shard → leaders !! sh = _leader_url reg !! sh) →
    leader_recorded
      (mk (ttl_sec reg)
         (<[shard := fix_leader_entry leaders shard
                       (ODict.set (replicas_of reg shard) u
                          (mkReplicaInfo shard u rid Leader now))]> (_replicas reg))
         leaders (_rr_idx reg))) as Hself.
  { intros leaders Hlead Hoth sh l1. unfold replicas_of. cbn [_leader_url _replicas].
    destruct (decide (sh = shard)) as [->|Hsh].
    - rewrite Hlead, lookup_insert_eq. intros [= <-]. cbn [default].
      eapply fix_leader_entry_get; [done | apply odict_get_set_eq | done].
    - rewrite Hoth, lookup_insert_ne by done. apply Hinv. }
  unfold current_leader.
  destruct (_leader_url reg !! shard) as [l0|] eqn:Hl.
  - destruct (Py.truthy l0 && negb (_is_active reg clock shard l0)) eqn:Hstale.
    + rewrite assign_none, lookup_insert_eq. intros [= <- <- <-].
      rewrite keep_leader_Leader.
      apply Hself; [apply lookup_insert_eq|].
      intros sh Hsh. by rewrite lookup_insert_ne, lookup_delete_ne.
    + rewrite assign_some, Hl. intros [= <- <- <-].
      destruct (Hinv shard l0 Hl) as (info & Hinfo & Hrole).
      destruct (decide (l0 = u)) as [->|Hother].
      * replace (keep_leader _ _ _ _ Follower) with Leader.
        2:{ unfold keep_leader. rewrite Hinfo, Hrole, Hl.
            by rewrite !bool_decide_eq_true_2. }
        by apply Hself.
      * intros sh l1. unfold replicas_of. cbn [_leader_url _replicas].
        destruct (decide (sh = shard)) as [->|Hsh].
        -- rewrite Hl, lookup_insert_eq. intros [= <-]. cbn [default].
           eapply fix_leader_entry_get; [done | | done].
           rewrite odict_get_set_ne by done. exact Hinfo.
        -- rewrite lookup_insert_ne by done. apply Hinv.
  - rewrite assign_none, lookup_insert_eq. intros [= <- <- <-].
    rewrite keep_leader_Leader.
    apply Hself; [apply lookup_insert_eq|].
    intros sh Hsh. by rewrite lookup_insert_ne.
Qed.

Lemma init_leader_recorded ttl : leader_recorded (init ttl).
Proof. intros shard l. unfold init. simpl. by rewrite lookup_empty. Qed.

(** C4 fails on the code when the canonical URL of the recorded leader
    is the empty string. The replica that registers first with the URL
    ["/"] is recorded as leader under the URL [""]. Once it has been
    silent for longer than the TTL the shard has no active leader
    ([leader_url] answers [None]), yet the next replica to register, even
    asking for the leader role, is made a follower: the stale-leader
    check [if leader and not self._is_active(...)] takes the empty
    string for an absent leader and does not clear it. *)
Lemma register_after_ttl_of_empty_leader_url :
  ∃ reg1 reg2,
    register (init 30) 0 0 "s1" "/" (Some "r1") ReqAuto = Ok (Leader, "", reg1) ∧
    _is_active reg1 1000 "s1" "" = false ∧
    leader_url reg1 1000 "s1" = None ∧
    register reg1 1000 1000 "s1" "http://r2:8080" (Some "r2") ReqLeader
      = Ok (Follower, "", reg2).
Proof.
  eexists _, _. split_and!.
  - vm_compute. reflexivity.
  - vm_compute. reflexivity.
  - vm_compute. reflexivity.
  - vm_compute. reflexivity.
Qed.

End CoordStorageFacts.

(** ** Leadership and read balancing in the replica registry *)

Module RegistryExtra.
Import CoordStorage CoordStorageFacts ReplicaRegistry.

Lemma leader_url_Some reg clock shard l :
  leader_url reg clock shard = Some l ↔
  _leader_url reg !! shard = Some l ∧ Py.truthy l = true ∧
  _is_active reg clock shard l = true.
Proof.
  unfold leader_url. destruct (_leader_url reg !! shard) as [l0|].
  - split.
    + destruct (Py.truthy l0) eqn:Ht; [|done].
      destruct (_is_active reg clock shard l0) eqn:Ha; [|done].
      by intros [= <-].
    + intros ([= ->] & -> & ->). done.
  - split; [done | by intros [? _]].
Qed.

Lemma fix_leader_entry_other leaders shard reps l u :
  leaders !! shard = Some l → u ≠ l →
  ODict.get (fix_leader_entry leaders shard reps) u = ODict.get reps u.
Proof.
  intros Hl Hne. unfold fix_leader_entry. rewrite Hl.
  destruct (Py.truthy l); [|done].
  destruct (ODict.get reps l) as [li|] eqn:Hli; [|done].
  by rewrite odict_get_set_ne.
Qed.

Lemma fix_leader_entry_last_seen leaders shard reps u :
  last_seen_unix <$> ODict.get (fix_leader_entry leaders shard reps) u
  = last_seen_unix <$> ODict.get reps u.
Proof.
  unfold fix_leader_entry. destruct (leaders !! shard) as [l|]; [|done].
  destruct (Py.truthy l); [|done].
  destruct (ODict.get reps l) as [li|] eqn:Hli; [|done].
  destruct (decide (l = u)) as [->|Hne].
  - by rewrite odict_get_set_eq, Hli.
  - by rewrite odict_get_set_ne.
Qed.

Lemma is_active_last_seen reg reg' clock shard u :
  ttl_sec reg' = ttl_sec reg →
  last_seen_unix <$> ODict.get (replicas_of reg' shard) u
  = last_seen_unix <$> ODict.get (replicas_of reg shard) u →
  _is_active reg' clock shard u = _is_active reg clock shard u.
Proof.
  intros Httl. unfold _is_active.
  destruct (ODict.get (replicas_of reg' shard) u),
           (ODict.get (replicas_of reg shard) u); simpl; try done.
  intros [= ->]. by rewrite Httl.
Qed.

(** While a shard has an active leader, a registration from any other
    URL does not displace it, whatever role is asked for: the registrant
    is made a follower and told the leader's URL, and the shard's leader
    stays what it was at every later reading of the clock. *)
Theorem register_no_preemption (reg : t) (now clock : Z) (shard url : string)
    (rid : option string) (requested : requested_role_t) (l0 : string) :
  leader_url reg clock shard = Some l0 →
  Py.rstrip_slash url ≠ l0 →
  ∃ reg', register reg now clock shard url rid requested = Ok (Follower, l0, reg') ∧
          _leader_url reg' = _leader_url reg ∧
          ∀ clock', leader_url reg' clock' shard = leader_url reg clock' shard.
Proof.
  intros (Hl & Ht & Ha)%leader_url_Some Hne.
  unfold register, current_leader. rewrite Hl, Ht, Ha. cbn [andb negb].
  rewrite assign_some, Hl.
  assert (keep_leader (ODict.get (replicas_of reg shard) (Py.rstrip_slash url))
            (_leader_url reg) shard (Py.rstrip_slash url) Follower = Follower) as ->.
  { unfold keep_leader. destruct (ODict.get _ _) as [p|]; [|done].
    rewrite Hl, (bool_decide_eq_false_2 (Some l0 = _)) by congruence.
    by rewrite andb_false_r. }
  eexists. split_and!; [done | done |].
  intros clock'. unfold leader_url. cbn [_leader_url]. rewrite Hl.
  rewrite Ht. cbn [andb].
  match goal with |- (if ?a then _ else _) = (if ?b then _ else _) =>
    replace a with b; [done|] end.
  symmetry. apply is_active_last_seen; [done|].
  unfold replicas_of at 1. cbn [_replicas]. rewrite lookup_insert_eq.
  cbn [default from_option id].
  rewrite fix_leader_entry_last_seen. by rewrite odict_get_set_ne.
Qed.

Lemma register_no_preemption_witness :
  ∃ reg', register (CoordMain.replicas Samples.c_s1) 7 7 "s1" "http://r2:8080/"
            (Some "r2") ReqLeader = Ok (Follower, "http://r1:8080", reg') ∧
          _leader_url reg' = _leader_url (CoordMain.replicas Samples.c_s1) ∧
          ∀ clock', leader_url reg' clock' "s1"
                    = leader_url (CoordMain.replicas Samples.c_s1) clock' "s1".
Proof.
  apply (register_no_preemption (CoordMain.replicas Samples.c_s1) 7 7 "s1"
           "http://r2:8080/" (Some "r2") ReqLeader "http://r1:8080").
  - vm_compute. reflexivity.
  - vm_compute. discriminate.
Defined.

(** A registrant that is assigned the leader role is the leader the
    registry then reports, under its URL without trailing slashes, for
    as long as its registration is not older than the TTL, and not
    after. *)
Theorem register_leader_is_reported (reg : t) (now clock : Z) (shard url : string)
    (rid : option string) (requested : requested_role_t) (l : string) (reg' : t) :
  register reg now clock shard url rid requested = Ok (Leader, l, reg') →
  Py.rstrip_slash url ≠ "" →
  l = Py.rstrip_slash url ∧
  ∀ clock', leader_url reg' clock' shard
            = if bool_decide (clock' - now ≤ ttl_sec reg) then Some l else None.
Proof.
  intros Hreg Hne.
  set (u := Py.rstrip_slash url) in *.
  assert (Py.truthy u = true) as Ht by (by destruct u).
  assert (∀ leaders prev,
    leaders !! shard = Some u →
    ∀ clock',
      leader_url
        (mk (ttl_sec reg)
           (<[shard := fix_leader_entry leaders shard
                         (ODict.set (replicas_of reg shard) u
                            (mkReplicaInfo shard u rid prev now))]> (_replicas reg))
           leaders (_rr_idx reg)) clock' shard
      = if bool_decide (clock' - now ≤ ttl_sec reg) then Some u else None) as Hself.
  { intros leaders prev Hlead clock'. unfold leader_url, _is_active, replicas_of.
    cbn [_leader_url _replicas ttl_sec]. rewrite Hlead, Ht, lookup_insert_eq.
    cbn [default from_option id andb].
    pose proof (fix_leader_entry_last_seen leaders shard
                  (ODict.set (default [] (_replicas reg !! shard)) u
                     (mkReplicaInfo shard u rid prev now)) u) as Hls.
    rewrite odict_get_set_eq in Hls. cbn in Hls.
    unfold replicas_of.
    destruct (ODict.get (fix_leader_entry _ _ _) u) as [info|]; [|done].
    injection Hls as ->. done. }
  revert Hreg. unfold register, current_leader. fold u.
  destruct (_leader_url reg !! shard) as [l0|] eqn:Hl.
  - destruct (Py.truthy l0 && negb (_is_active reg clock shard l0)).
    + rewrite assign_none, lookup_insert_eq. intros [= _ <- <-].
      split; [done|]. apply Hself, lookup_insert_eq.
    + rewrite assign_some, Hl. intros [= Hk <- <-].
      assert (l0 = u) as ->.
      { revert Hk. unfold keep_leader.
        destruct (ODict.get (replicas_of reg shard) u) as [p|]; [|done].
        rewrite Hl. destruct (bool_decide (role p = Leader)); [|done]. cbn [andb].
        destruct (bool_decide (Some l0 = Some u)) eqn:Hb; [|done].
        apply bool_decide_eq_true in Hb. by injection Hb. }
      split; [done|]. by apply Hself.
  - rewrite assign_none, lookup_insert_eq. intros [= _ <- <-].
    split; [done|]. apply Hself, lookup_insert_eq.
Qed.

Lemma register_leader_is_reported_witness :
  "http://r1:8080" = Py.rstrip_slash "http://r1:8080//" ∧
  ∀ clock', leader_url
              (mk 30 {["s1" := [("http://r1:8080",
                                 mkReplicaInfo "s1" "http://r1:8080" (Some "r1") Leader 3)]]}
                  {["s1" := "http://r1:8080"]} ∅)
              clock' "s1"
            = if bool_decide (clock' - 3 ≤ ttl_sec (init 30))
              then Some "http://r1:8080" else None.
Proof.
  apply (register_leader_is_reported (init 30) 3 3 "s1" "http://r1:8080//"
           (Some "r1") ReqAuto).
  - vm_compute. reflexivity.
  - vm_compute. discriminate.
Defined.

(** *** Round-robin reads *)

Lemma pick_read_replica_step reg clock shard r reps :
  active_replicas reg clock shard = r :: reps →
  let n := length (r :: reps) in
  let i := (default 0%nat (_rr_idx reg !! shard) mod n)%nat in
  ∃ reg', pick_read_replica reg clock shard = (replica_url <$> (r :: reps) !! i, reg') ∧
          active_replicas reg' clock shard = r :: reps ∧
          _rr_idx reg' !! shard = Some (S i).
Proof.
  intros Ha. unfold pick_read_replica. rewrite Ha. cbn zeta.
  eexists. split; [done|]. split; [exact Ha|].
  cbn [_rr_idx]. by rewrite lookup_insert_eq.
Qed.

Lemma pick_read_replicas_formula k reg clock shard r reps :
  active_replicas reg clock shard = r :: reps →
  let n := length (r :: reps) in
  let i0 := default 0%nat (_rr_idx reg !! shard) in
  (pick_read_replicas k reg clock shard).1
  = (λ j, replica_url <$> (r :: reps) !! ((i0 + j) mod n)%nat) <$> seq 0 k.
Proof.
  revert reg. induction k as [|k IH]; intros reg Ha; [done|].
  cbn zeta. cbn [pick_read_replicas].
  destruct (pick_read_replica_step reg clock shard r reps Ha) as (reg1 & -> & Ha1 & Hidx).
  specialize (IH reg1 Ha1). cbn zeta in IH.
  destruct (pick_read_replicas k reg1 clock shard) as [us reg2]. cbn [fst] in *.
  rewrite <- cons_seq, fmap_cons, Nat.add_0_r. f_equal.
  rewrite IH, Hidx, <- fmap_S_seq, <- list_fmap_compose.
  cbn [default from_option id].
  apply list_fmap_ext. intros _ j _. cbn [compose]. do 2 f_equal.
  rewrite (Nat.add_succ_comm (_ mod _) j). apply Nat.Div0.add_mod_idemp_l.
Qed.

Lemma rotate_Permutation {A} (n : nat) (l : list A) : rotate n l ≡ₚ l.
Proof.
  unfold rotate. rewrite Permutation_app_comm. by rewrite take_drop.
Qed.

(** Reads are balanced over the active replicas of a shard: as many
    calls of [pick_read_replica] in a row as there are active replicas
    answer with each of them once, in registration order starting from
    the shard's round-robin index. *)
Theorem pick_read_replica_round_robin (reg : t) (clock : Z) (shard : string) :
  let reps := active_replicas reg clock shard in
  let answers := (pick_read_replicas (length reps) reg clock shard).1 in
  answers = (λ r, Some (replica_url r))
              <$> rotate (default 0%nat (_rr_idx reg !! shard)) reps ∧
  answers ≡ₚ (λ r, Some (replica_url r)) <$> reps.
Proof.
  cbn zeta.
  assert ((pick_read_replicas (length (active_replicas reg clock shard)) reg clock shard).1
          = (λ r, Some (replica_url r))
              <$> rotate (default 0%nat (_rr_idx reg !! shard))
                    (active_replicas reg clock shard)) as Heq.
  { destruct (active_replicas reg clock shard) as [|r reps] eqn:Ha.
    { unfold rotate. by rewrite drop_nil, take_nil. }
    rewrite (pick_read_replicas_formula _ reg clock shard r reps Ha). cbn zeta.
    set (l := r :: reps). set (i0 := default 0%nat _).
    apply list_eq. intros j. rewrite !list_lookup_fmap.
    destruct (decide (j < length l)%nat) as [Hj|Hj].
    - rewrite lookup_seq_lt by done. rewrite lookup_rotate_r by done.
      cbn [fmap option_fmap option_map].
      unfold rotate_nat_add.
      rewrite <- Nat2Z.inj_add, <- Nat2Z.inj_mod, Nat2Z.id.
      destruct (lookup_lt_is_Some_2 l ((i0 + j) mod length l)%nat) as [x Hx].
      { apply Nat.mod_upper_bound. subst l. simpl. lia. }
      rewrite Nat.add_0_l. by rewrite Hx.
    - rewrite lookup_seq_ge by lia.
      rewrite (lookup_ge_None_2 (rotate _ _)) by (rewrite length_rotate; lia).
      done. }
  split; [done|]. rewrite Heq. by rewrite rotate_Permutation.
Qed.

End RegistryExtra.

(** ** Properties of the shard replica's endpoints *)

Module ShardMainFacts.
Import Http ShardMain Samples.

(** C2, as stated, fails: a write whose publish timed out can become
    visible locally. The leader's create hands its event [ev] to
    [publish], which puts it on the publisher's queue and waits; the
    wait times out before the publisher thread has taken the event, so
    the create is answered 503 and the store is as it was. The event is
    still queued: the publisher thread then publishes it, the replica's
    own consumer receives it and applies it, and a read returns the
    record. *)
Lemma timed_out_write_becomes_visible :
  let ev := ShardStore.Event ShardStore.PUT "users" "u1" "2024"
              [("name", JStr "Ada")] 1000 "r1" in
  let p := Replication.publish (Replication.mk [] []) [] ev in
  let out := create cfg_r1 leader_r1 1000 p.1 TransportError create_u1 in
  let published_later := Replication.publisher_pass p.2 true in
  let consumed := Replication.on_msg out.2 published_later in
  published (create cfg_r1 leader_r1 1000 Confirmed TransportError create_u1).2 = [ev] ∧
  p.1 = TimedOut ∧ Replication._pub_q p.2 = [ev] ∧
  out = (http_exception 503 "Replication log publish failed", leader_r1) ∧
  status (read out.2 "users" "u1" "2024") = 404 ∧
  read consumed.1 "users" "u1" "2024"
    = mkResponse 200
        (BRecord (mkRecordBody "users" "u1" "2024" (Some [("name", JStr "Ada")])
                    (Some 1000) None) None).
Proof. vm_compute. by repeat split. Qed.

(** C2 (amended): on a leader, a create or a delete whose publish to
    the replication bus fails or times out is answered 503, and the
    request handler leaves the replica's state, its store included, as
    it was: the handler writes the store only after the broker has
    confirmed the event. *)
Theorem publish_failure_prevents_apply (cfg : config) (st : state) (now_ns : Z)
    (outcome : publish_outcome) (leader_reply : reply)
    (req : CreateRecordRequest) (table_name pk sk : string) :
  ROLE st = "leader" → outcome ≠ Confirmed →
  valid_request req → valid_key table_name pk sk →
  (status (create cfg st now_ns outcome leader_reply req).1 = 503 ∧
   (create cfg st now_ns outcome leader_reply req).2 = st) ∧
  (status (delete cfg st now_ns outcome leader_reply table_name pk sk).1 = 503 ∧
   (delete cfg st now_ns outcome leader_reply table_name pk sk).2 = st).
Proof.
  intros Hrole Hout Hreq Hkey. unfold create, delete, valid_request, valid_key in *.
  rewrite Hreq, Hkey, Hrole. simpl.
  destruct outcome; done.
Qed.

Lemma publish_failure_prevents_apply_witness :
  (status (create cfg_r1 leader_r1 1700 TimedOut TransportError create_u1).1 = 503 ∧
   (create cfg_r1 leader_r1 1700 TimedOut TransportError create_u1).2 = leader_r1) ∧
  (status (delete cfg_r1 leader_r1 1700 TimedOut TransportError "users" "u1" "2024").1 = 503 ∧
   (delete cfg_r1 leader_r1 1700 TimedOut TransportError "users" "u1" "2024").2 = leader_r1).
Proof.
  apply (publish_failure_prevents_apply cfg_r1 leader_r1 1700 TimedOut TransportError
           create_u1 "users" "u1" "2024").
  - reflexivity.
  - discriminate.
  - reflexivity.
  - reflexivity.
Defined.


(** The delete of a leader whose publish is confirmed. *)
Lemma delete_leader_confirmed cfg st now_ns leader_reply table_name pk sk :
  ROLE st = "leader" → valid_key table_name pk sk →
  delete cfg st now_ns Confirmed leader_reply table_name pk sk =
    let ev := ShardStore.Event ShardStore.DEL table_name pk sk [] now_ns (ORIGIN cfg) in
    let st' := mkState (ROLE st) (LEADER_URL st) (ShardStore.apply (store st) ev)
                 (published st ++ [ev]) in
    match ShardStore.get (store st) table_name pk sk with
    | None => (http_exception 404 "Not found", st')
    | Some v =>
        (mkResponse 200
           (BRecord (mkRecordBody table_name pk sk (Some v) (Some now_ns) None) None), st')
    end.
Proof.
  intros Hrole Hkey. unfold delete, valid_key in *. rewrite Hkey, Hrole. simpl.
  unfold ShardStore.apply, ShardStore.get, ShardStore.delete, ShardStore.setdefault,
    ShardStore.slot_at. simpl.
  destruct (store st !! table_name) as [t|] eqn:Ht; simpl.
  - destruct (ShardStore.wins (t !! (pk, sk)) now_ns (ORIGIN cfg));
      by destruct (ShardStore.live_value (t !! (pk, sk))).
  - by rewrite lookup_empty.
Qed.


(** C10, as stated, fails: when the slot holds a tombstone whose
    [(version, origin)] is not below the one minted for the delete, the
    leader publishes the DEL event and answers 404, but its store keeps
    the old tombstone. *)
Lemma delete_keeps_newer_tombstone :
  let out := delete cfg_r1 tombstoned 1500 Confirmed TransportError "users" "u1" "2024" in
  ShardStore.get (store tombstoned) "users" "u1" "2024" = None ∧
  out.1 = http_exception 404 "Not found" ∧
  published out.2 = [ShardStore.Event ShardStore.DEL "users" "u1" "2024" [] 1500 "r1"] ∧
  store out.2 = store tombstoned ∧
  ShardStore.slot_at (store out.2) "users" "u1" "2024" =
    Some (ShardStore.Slot [] 2000 "migration" true).
Proof.
  cbv zeta.
  assert (ShardStore.slot_at (store tombstoned) "users" "u1" "2024"
          = Some (ShardStore.Slot [] 2000 "migration" true)) as Hslot
    by (vm_compute; reflexivity).
  assert (store (delete cfg_r1 tombstoned 1500 Confirmed TransportError
                   "users" "u1" "2024").2 = store tombstoned) as Hsame.
  { rewrite delete_leader_confirmed by reflexivity. cbv zeta.
    destruct (ShardStore.get _ _ _ _); cbn [snd store];
      apply (ShardStoreFacts.apply_stale _ _ (ShardStore.Slot [] 2000 "migration" true));
      first [exact Hslot | vm_compute; reflexivity]. }
  split_and!.
  - vm_compute. reflexivity.
  - vm_compute. reflexivity.
  - vm_compute. reflexivity.
  - exact Hsame.
  - rewrite Hsame. exact Hslot.
Qed.

(** C10 (amended): on a leader, the delete of a key whose slot is absent
    or tombstoned publishes a DEL event with a freshly minted version and
    answers 404 Not found. The store does change when the slot is absent
    or the minted [(version, origin)] is strictly greater than the
    slot's: a tombstone with the minted version is installed, and every
    later event for that key whose [(version, origin)] is not greater is
    dropped. Otherwise the store keeps the tombstone it had. *)
Theorem delete_not_found_still_writes (cfg : config) (st : state) (now_ns : Z)
    (leader_reply : reply) (table_name pk sk : string) :
  ROLE st = "leader" → valid_key table_name pk sk →
  ShardStore.get (store st) table_name pk sk = None →
  let ev := ShardStore.Event ShardStore.DEL table_name pk sk [] now_ns (ORIGIN cfg) in
  let cur := ShardStore.slot_at (store st) table_name pk sk in
  let st' := (delete cfg st now_ns Confirmed leader_reply table_name pk sk).2 in
  (delete cfg st now_ns Confirmed leader_reply table_name pk sk).1
    = http_exception 404 "Not found" ∧
  published st' = published st ++ [ev] ∧
  (ShardStore.wins cur now_ns (ORIGIN cfg) = true →
     ShardStore.slot_at (store st') table_name pk sk
       = Some (ShardStore.Slot [] now_ns (ORIGIN cfg) true) ∧
     ∀ e, ShardStore.key e = (table_name, pk, sk) →
          Py.tuple_le (ShardStore.stamp e) (now_ns, ORIGIN cfg) →
          ShardStore.apply (store st') e = store st') ∧
  (ShardStore.wins cur now_ns (ORIGIN cfg) = false → store st' = store st).
Proof.
  intros Hrole Hkey Hget ev cur st'. subst st' cur.
  rewrite (delete_leader_confirmed cfg st now_ns leader_reply table_name pk sk Hrole Hkey).
  rewrite Hget. cbn [fst snd store published].
  pose proof (ShardStoreFacts.slot_at_write (store st) ev) as Hslot.
  subst ev.
  rewrite (ShardStoreFacts.apply_unfold_at (store st)).
  cbn [ShardStore.ev_table ShardStore.ev_pk ShardStore.ev_sk
       ShardStore.ev_version ShardStore.ev_origin] in *.
  split_and!; [done | done | |].
  - intros Hwins. rewrite Hwins.
    split; [exact Hslot|]. intros e He Hle.
    apply (ShardStoreFacts.apply_stale _ _ (ShardStore.Slot [] now_ns (ORIGIN cfg) true)).
    + rewrite He. exact Hslot.
    + exact Hle.
  - intros Hwins. by rewrite Hwins.
Qed.

Lemma delete_not_found_still_writes_witness :
  let ev := ShardStore.Event ShardStore.DEL "users" "u1" "2024" [] 1700 "r1" in
  let cur := ShardStore.slot_at (store leader_r1) "users" "u1" "2024" in
  let st' := (delete cfg_r1 leader_r1 1700 Confirmed TransportError "users" "u1" "2024").2 in
  (delete cfg_r1 leader_r1 1700 Confirmed TransportError "users" "u1" "2024").1
    = http_exception 404 "Not found" ∧
  published st' = published leader_r1 ++ [ev] ∧
  (ShardStore.wins cur 1700 "r1" = true →
     ShardStore.slot_at (store st') "users" "u1" "2024"
       = Some (ShardStore.Slot [] 1700 "r1" true) ∧
     ∀ e, ShardStore.key e = ("users", "u1", "2024") →
          Py.tuple_le (ShardStore.stamp e) (1700, "r1") →
          ShardStore.apply (store st') e = store st') ∧
  (ShardStore.wins cur 1700 "r1" = false → store st' = store leader_r1).
Proof.
  apply (delete_not_found_still_writes cfg_r1 leader_r1 1700 TransportError
           "users" "u1" "2024").
  - reflexivity.
  - reflexivity.
  - reflexivity.
Defined.

End ShardMainFacts.

(** ** Writes, replay and key migration on a shard replica *)

Module ShardMainExtra.
Import Http ShardMain ShardStoreExtra.

Lemma truthy_nonempty s : s ≠ "" → Py.truthy s = true.
Proof. by destruct s. Qed.

Lemma state_eta st : mkState (ROLE st) (LEADER_URL st) (store st) (published st) = st.
Proof. by destruct st. Qed.

(** The consumer applies an event whose origin is not empty as the store
    does. *)
Lemma apply_event_store st ev :
  ShardStore.ev_origin ev ≠ "" →
  apply_event st ev
  = mkState (ROLE st) (LEADER_URL st) (ShardStore.apply (store st) ev) (published st).
Proof.
  intros Hne. unfold apply_event, ShardStore.apply.
  rewrite (truthy_nonempty _ Hne). by destruct (ShardStore.ev_op ev).
Qed.

(** The create of a leader whose publish is confirmed. *)
Lemma create_leader_confirmed cfg st now_ns leader_reply req :
  ROLE st = "leader" → valid_request req →
  create cfg st now_ns Confirmed leader_reply req =
    let ev := ShardStore.Event ShardStore.PUT (req_table_name req) (req_pk req)
                (req_sk req) (req_value req) now_ns (ORIGIN cfg) in
    (mkResponse 200
       (BRecord (mkRecordBody (req_table_name req) (req_pk req) (req_sk req)
                   (Some (req_value req)) (Some now_ns) None) None),
     mkState (ROLE st) (LEADER_URL st) (ShardStore.apply (store st) ev)
       (published st ++ [ev])).
Proof.
  intros Hrole Hreq. unfold create, valid_request, valid_key in *.
  rewrite Hreq, Hrole. done.
Qed.

(** A replica that is not the leader never writes: its create, delete
    and bulk migration endpoints leave its store and its log as they
    were, and the bulk endpoints answer 409. *)
Theorem follower_never_writes (cfg : config) (st : state) (now_ns : Z)
    (outcome : publish_outcome) (outcomes : nat → publish_outcome)
    (leader_reply : reply) (req : CreateRecordRequest) (table_name pk sk : string)
    (items : list KeyItem) :
  ROLE st ≠ "leader" →
  (create cfg st now_ns outcome leader_reply req).2 = st ∧
  (delete cfg st now_ns outcome leader_reply table_name pk sk).2 = st ∧
  internal_migrate_put st outcomes items = (http_exception 409 "Not leader", st) ∧
  internal_migrate_del st outcomes items = (http_exception 409 "Not leader", st).
Proof.
  intros Hrole. unfold create, delete, internal_migrate_put, internal_migrate_del.
  rewrite (bool_decide_eq_false_2 _ Hrole). cbn [negb].
  split_and!; [| | done | done].
  - by destruct (negb _).
  - by destruct (negb _).
Qed.

Lemma follower_never_writes_witness :
  (create Samples.cfg_r1 (mkState "follower" (Some "http://r1:8080") ShardStore.init [])
     5 Confirmed TransportError Samples.create_u1).2
    = mkState "follower" (Some "http://r1:8080") ShardStore.init [] ∧
  (delete Samples.cfg_r1 (mkState "follower" (Some "http://r1:8080") ShardStore.init [])
     5 Confirmed TransportError "users" "u1" "2024").2
    = mkState "follower" (Some "http://r1:8080") ShardStore.init [] ∧
  internal_migrate_put (mkState "follower" (Some "http://r1:8080") ShardStore.init [])
      (λ _, Confirmed) [mkKeyItem "users" "u1" "2024" [] 1 "r1"]
    = (http_exception 409 "Not leader",
       mkState "follower" (Some "http://r1:8080") ShardStore.init []) ∧
  internal_migrate_del (mkState "follower" (Some "http://r1:8080") ShardStore.init [])
      (λ _, Confirmed) [mkKeyItem "users" "u1" "2024" [] 1 "r1"]
    = (http_exception 409 "Not leader",
       mkState "follower" (Some "http://r1:8080") ShardStore.init []).
Proof.
  apply (follower_never_writes Samples.cfg_r1
           (mkState "follower" (Some "http://r1:8080") ShardStore.init [])
           5 Confirmed (λ _, Confirmed) TransportError Samples.create_u1
           "users" "u1" "2024" [mkKeyItem "users" "u1" "2024" [] 1 "r1"]).
  discriminate.
Defined.

(** What the leader applies locally is what a consumer of its log
    applies: after a confirmed create or delete the log has grown by one
    event; a replica that held the same store and consumes that event
    ends with the leader's store; and the leader, consuming its own
    event, changes nothing. The replica's [ORIGIN] must not be empty. *)
Theorem leader_write_matches_replay (cfg : config) (st peer : state) (now_ns : Z)
    (leader_reply : reply) (req : CreateRecordRequest) (table_name pk sk : string) :
  ROLE st = "leader" → ORIGIN cfg ≠ "" →
  valid_request req → valid_key table_name pk sk →
  store peer = store st →
  (∃ ev, let st' := (create cfg st now_ns Confirmed leader_reply req).2 in
         published st' = published st ++ [ev] ∧
         store (apply_event peer ev) = store st' ∧
         apply_event st' ev = st') ∧
  (∃ ev, let st' := (delete cfg st now_ns Confirmed leader_reply table_name pk sk).2 in
         published st' = published st ++ [ev] ∧
         store (apply_event peer ev) = store st' ∧
         apply_event st' ev = st').
Proof.
  intros Hrole Horg Hreq Hkey Hpeer. split.
  - rewrite create_leader_confirmed by done. cbn zeta. cbn [snd].
    eexists. split_and!; [done | |].
    + rewrite apply_event_store by done. cbn [store]. by rewrite Hpeer.
    + rewrite apply_event_store by done. cbn [store ROLE LEADER_URL published].
      by rewrite ShardStoreFacts.apply_idem.
  - rewrite ShardMainFacts.delete_leader_confirmed by done. cbn zeta.
    exists (ShardStore.Event ShardStore.DEL table_name pk sk [] now_ns (ORIGIN cfg)).
    destruct (ShardStore.get (store st) table_name pk sk); cbn [snd];
      (split_and!; [done | |]).
    all: rewrite apply_event_store by done; cbn [store ROLE LEADER_URL published].
    all: by rewrite ?Hpeer, ?ShardStoreFacts.apply_idem.
Qed.

Lemma leader_write_matches_replay_witness :
  (∃ ev, let st' := (create Samples.cfg_r1 Samples.leader_r1 1000 Confirmed
                       TransportError Samples.create_u1).2 in
         published st' = published Samples.leader_r1 ++ [ev] ∧
         store (apply_event (mkState "follower" None ShardStore.init []) ev) = store st' ∧
         apply_event st' ev = st') ∧
  (∃ ev, let st' := (delete Samples.cfg_r1 Samples.leader_r1 1000 Confirmed
                       TransportError "users" "u1" "2024").2 in
         published st' = published Samples.leader_r1 ++ [ev] ∧
         store (apply_event (mkState "follower" None ShardStore.init []) ev) = store st' ∧
         apply_event st' ev = st').
Proof.
  apply (leader_write_matches_replay Samples.cfg_r1 Samples.leader_r1
           (mkState "follower" None ShardStore.init []) 1000 TransportError
           Samples.create_u1 "users" "u1" "2024").
  - reflexivity.
  - discriminate.
  - reflexivity.
  - reflexivity.
  - reflexivity.
Defined.

Lemma wins_replication cur ver :
  ShardStore.wins cur ver "" = true → ShardStore.wins cur ver "replication" = true.
Proof.
  unfold ShardStore.wins. destruct cur as [c|]; [|done].
  unfold Py.tuple_gt. cbn [fst snd].
  destruct (decide (ver = ShardStore.version c)); [|done].
  unfold Py.str_gt. by destruct (ShardStore.origin c).
Qed.

(** A replica whose [ORIGIN] is the empty string does not agree with
    its followers: the leader stores a write that wins under the origin
    it published, the empty string, while a replica that consumes the
    event stores it under the origin ["replication"]. The two stores
    then hold different [(version, origin)] for the key. *)
Theorem empty_origin_splits_replicas (cfg : config) (st peer : state) (now_ns : Z)
    (leader_reply : reply) (req : CreateRecordRequest) :
  let tbl := req_table_name req in
  let st' := (create cfg st now_ns Confirmed leader_reply req).2 in
  ROLE st = "leader" → ORIGIN cfg = "" → valid_request req →
  store peer = store st →
  ShardStore.wins (ShardStore.slot_at (store st) tbl (req_pk req) (req_sk req))
    now_ns "" = true →
  ∃ ev, published st' = published st ++ [ev] ∧
        ShardStore.get_with_version (store st') tbl (req_pk req) (req_sk req)
          = (Some (req_value req), Some now_ns, Some "") ∧
        ShardStore.get_with_version (store (apply_event peer ev)) tbl (req_pk req) (req_sk req)
          = (Some (req_value req), Some now_ns, Some "replication").
Proof.
  cbn zeta. intros Hrole Horg Hreq Hpeer Hwins.
  rewrite create_leader_confirmed by done. cbn zeta. cbn [snd published store].
  rewrite Horg. eexists. split; [done|].
  unfold ShardStore.get_with_version. split.
  - pose proof (slot_at_apply_same (store st)
                  (ShardStore.Event ShardStore.PUT (req_table_name req) (req_pk req)
                     (req_sk req) (req_value req) now_ns "")) as Hs.
    cbn [ShardStore.ev_table ShardStore.ev_pk ShardStore.ev_sk ShardStore.ev_version
         ShardStore.ev_origin] in Hs.
    by rewrite Hs, Hwins.
  - unfold apply_event.
    cbn [ShardStore.ev_origin ShardStore.ev_op ShardStore.ev_table ShardStore.ev_pk
         ShardStore.ev_sk ShardStore.ev_value ShardStore.ev_version Py.truthy store].
    rewrite Hpeer, put_as_apply.
    pose proof (slot_at_apply_same (store st)
                  (ShardStore.Event ShardStore.PUT (req_table_name req) (req_pk req)
                     (req_sk req) (req_value req) now_ns "replication")) as Hs.
    cbn [ShardStore.ev_table ShardStore.ev_pk ShardStore.ev_sk ShardStore.ev_version
         ShardStore.ev_origin] in Hs.
    by rewrite Hs, (wins_replication _ _ Hwins).
Qed.

Lemma empty_origin_splits_replicas_witness :
  let cfg := mkConfig true "" in
  let peer := mkState "follower" None ShardStore.init [] in
  let st' := (create cfg Samples.leader_r1 1000 Confirmed TransportError
                Samples.create_u1).2 in
  ∃ ev, published st' = published Samples.leader_r1 ++ [ev] ∧
        ShardStore.get_with_version (store st') (req_table_name Samples.create_u1)
            (req_pk Samples.create_u1) (req_sk Samples.create_u1)
          = (Some (req_value Samples.create_u1), Some 1000, Some "") ∧
        ShardStore.get_with_version (store (apply_event peer ev))
            (req_table_name Samples.create_u1)
            (req_pk Samples.create_u1) (req_sk Samples.create_u1)
          = (Some (req_value Samples.create_u1), Some 1000, Some "replication").
Proof.
  apply (empty_origin_splits_replicas (mkConfig true "") Samples.leader_r1
           (mkState "follower" None ShardStore.init []) 1000 TransportError
           Samples.create_u1).
  - reflexivity.
  - reflexivity.
  - reflexivity.
  - reflexivity.
  - reflexivity.
Defined.

(** A leader acknowledges a confirmed create with the request's value
    and the version it minted, whether or not the write wins. A read
    that follows answers the same record when the write won; when the
    slot already held a [(version, origin)] that is not smaller, the
    write is dropped and the read answers what it answered before. *)
Theorem create_then_read (cfg : config) (st : state) (now_ns : Z)
    (leader_reply : reply) (req : CreateRecordRequest) :
  ROLE st = "leader" → valid_request req →
  let out := create cfg st now_ns Confirmed leader_reply req in
  let tbl := req_table_name req in
  out.1 = mkResponse 200
            (BRecord (mkRecordBody tbl (req_pk req) (req_sk req)
                        (Some (req_value req)) (Some now_ns) None) None) ∧
  read out.2 tbl (req_pk req) (req_sk req) =
    if ShardStore.wins (ShardStore.slot_at (store st) tbl (req_pk req) (req_sk req))
         now_ns (ORIGIN cfg)
    then out.1 else read st tbl (req_pk req) (req_sk req).
Proof.
  intros Hrole Hreq. cbn zeta. rewrite create_leader_confirmed by done.
  cbn zeta. cbn [fst snd]. split; [done|].
  unfold read. unfold valid_request, valid_key in Hreq. rewrite Hreq. cbn [negb store].
  unfold ShardStore.get_with_version.
  pose proof (slot_at_apply_same (store st)
                (ShardStore.Event ShardStore.PUT (req_table_name req) (req_pk req)
                   (req_sk req) (req_value req) now_ns (ORIGIN cfg))) as Hs.
  cbn [ShardStore.ev_table ShardStore.ev_pk ShardStore.ev_sk ShardStore.ev_version
       ShardStore.ev_origin] in Hs.
  rewrite Hs. by destruct (ShardStore.wins _ _ _).
Qed.

Lemma create_then_read_witness :
  let out := create Samples.cfg_r1 Samples.tombstoned 1500 Confirmed TransportError
               Samples.create_u1 in
  let tbl := req_table_name Samples.create_u1 in
  out.1 = mkResponse 200
            (BRecord (mkRecordBody tbl (req_pk Samples.create_u1) (req_sk Samples.create_u1)
                        (Some (req_value Samples.create_u1)) (Some 1500) None) None) ∧
  read out.2 tbl (req_pk Samples.create_u1) (req_sk Samples.create_u1) =
    if ShardStore.wins (ShardStore.slot_at (store Samples.tombstoned) tbl
                          (req_pk Samples.create_u1) (req_sk Samples.create_u1))
         1500 (ORIGIN Samples.cfg_r1)
    then out.1
    else read Samples.tombstoned tbl (req_pk Samples.create_u1) (req_sk Samples.create_u1).
Proof.
  apply (create_then_read Samples.cfg_r1 Samples.tombstoned 1500 TransportError
           Samples.create_u1).
  - reflexivity.
  - reflexivity.
Defined.

(** *** Bulk migration *)

Lemma migrate_put_loop_prefix items : ∀ st outcome i k,
  (k ≤ length items)%nat →
  (∀ j, (j < k)%nat → outcome (i + j)%nat = Confirmed) →
  ((k < length items)%nat → outcome (i + k)%nat ≠ Confirmed) →
  migrate_put_loop st outcome i items =
    (if decide (k < length items)%nat then Some publish_failed else None,
     mkState (ROLE st) (LEADER_URL st)
       (ShardStore.apply_all (store st) (put_event <$> take k items))
       (published st ++ (put_event <$> take k items))).
Proof.
  induction items as [|it items IH]; intros st outcome i k Hk Hok Hbad.
  - simpl in Hk. assert (k = 0%nat) as -> by lia. cbn.
    by rewrite app_nil_r, state_eta.
  - cbn [migrate_put_loop]. destruct k as [|k].
    + rewrite Nat.add_0_r in Hbad.
      rewrite decide_True by (simpl; lia). cbn [take fmap list_fmap].
      unfold ShardStore.apply_all. cbn [foldl]. rewrite app_nil_r, state_eta.
      destruct (outcome i) eqn:Ho; [|done|done].
      exfalso. apply Hbad; [simpl; lia | done].
    + assert (outcome i = Confirmed) as ->.
      { rewrite <- (Nat.add_0_r i). apply Hok. lia. }
      cbn [_publish_or_503].
      rewrite (IH _ outcome (S i) k).
      * cbn [ROLE LEADER_URL store published length firstn take].
        rewrite fmap_cons. cbn [ShardStore.apply_all foldl].
        rewrite <- app_assoc. cbn [app].
        destruct (decide (k < length items)%nat), (decide (S k < S (length items))%nat);
          done || lia.
      * simpl in Hk. lia.
      * intros j Hj. rewrite Nat.add_succ_comm. apply Hok. lia.
      * intros Hlt. rewrite Nat.add_succ_comm. apply Hbad. simpl. lia.
Qed.

Lemma migrate_del_loop_prefix items : ∀ st outcome i k,
  (k ≤ length items)%nat →
  (∀ j, (j < k)%nat → outcome (i + j)%nat = Confirmed) →
  ((k < length items)%nat → outcome (i + k)%nat ≠ Confirmed) →
  migrate_del_loop st outcome i items =
    (if decide (k < length items)%nat then Some publish_failed else None,
     mkState (ROLE st) (LEADER_URL st)
       (ShardStore.apply_all (store st) (del_event <$> take k items))
       (published st ++ (del_event <$> take k items))).
Proof.
  induction items as [|it items IH]; intros st outcome i k Hk Hok Hbad.
  - simpl in Hk. assert (k = 0%nat) as -> by lia. cbn.
    by rewrite app_nil_r, state_eta.
  - cbn [migrate_del_loop]. destruct k as [|k].
    + rewrite Nat.add_0_r in Hbad.
      rewrite decide_True by (simpl; lia). cbn [take fmap list_fmap].
      unfold ShardStore.apply_all. cbn [foldl]. rewrite app_nil_r, state_eta.
      destruct (outcome i) eqn:Ho; [|done|done].
      exfalso. apply Hbad; [simpl; lia | done].
    + assert (outcome i = Confirmed) as ->.
      { rewrite <- (Nat.add_0_r i). apply Hok. lia. }
      cbn [_publish_or_503].
      rewrite (IH _ outcome (S i) k).
      * cbn [ROLE LEADER_URL store published length firstn take].
        rewrite fmap_cons. cbn [ShardStore.apply_all foldl].
        rewrite <- app_assoc. cbn [app].
        destruct (decide (k < length items)%nat), (decide (S k < S (length items))%nat);
          done || lia.
      * simpl in Hk. lia.
      * intros j Hj. rewrite Nat.add_succ_comm. apply Hok. lia.
      * intros Hlt. rewrite Nat.add_succ_comm. apply Hbad. simpl. lia.
Qed.

Lemma bulk_put_all st outcome items :
  ROLE st = "leader" →
  (∀ j, (j < length items)%nat → outcome j = Confirmed) →
  (internal_migrate_put st outcome items).1 = bulk_done "migrated" (length items) ∧
  (internal_migrate_put st outcome items).2
    = mkState (ROLE st) (LEADER_URL st)
        (ShardStore.apply_all (store st) (put_event <$> items))
        (published st ++ (put_event <$> items)).
Proof.
  intros Hrole Hok. unfold internal_migrate_put.
  rewrite (bool_decide_eq_true_2 _ Hrole). cbn [negb].
  rewrite (migrate_put_loop_prefix items st outcome 0 (length items)); [|lia|done|lia].
  rewrite decide_False by lia. by rewrite firstn_all.
Qed.

Lemma bulk_del_all st outcome items :
  ROLE st = "leader" →
  (∀ j, (j < length items)%nat → outcome j = Confirmed) →
  (internal_migrate_del st outcome items).1 = bulk_done "deleted" (length items) ∧
  (internal_migrate_del st outcome items).2
    = mkState (ROLE st) (LEADER_URL st)
        (ShardStore.apply_all (store st) (del_event <$> items))
        (published st ++ (del_event <$> items)).
Proof.
  intros Hrole Hok. unfold internal_migrate_del.
  rewrite (bool_decide_eq_true_2 _ Hrole). cbn [negb].
  rewrite (migrate_del_loop_prefix items st outcome 0 (length items)); [|lia|done|lia].
  rewrite decide_False by lia. by rewrite firstn_all.
Qed.

(** The bulk endpoints are not atomic. On a leader, when the publishes of
    the first [k] items are confirmed and the next one is not, the
    answer is 503 and exactly the first [k] items have been published
    and applied, in order; when all are confirmed the answer is 200 with
    the number of items, and all have been published and applied. *)
Theorem bulk_migration_stops_at_first_failure (st : state)
    (outcome : nat → publish_outcome) (items : list KeyItem) (k : nat) :
  ROLE st = "leader" →
  (k ≤ length items)%nat →
  (∀ j, (j < k)%nat → outcome j = Confirmed) →
  ((k < length items)%nat → outcome k ≠ Confirmed) →
  let done_ (event_of : KeyItem → ShardStore.event) :=
    mkState (ROLE st) (LEADER_URL st)
      (ShardStore.apply_all (store st) (event_of <$> take k items))
      (published st ++ (event_of <$> take k items)) in
  internal_migrate_put st outcome items =
    (if decide (k < length items)%nat then publish_failed
     else bulk_done "migrated" (length items), done_ put_event) ∧
  internal_migrate_del st outcome items =
    (if decide (k < length items)%nat then publish_failed
     else bulk_done "deleted" (length items), done_ del_event).
Proof.
  intros Hrole Hk Hok Hbad. cbn zeta.
  unfold internal_migrate_put, internal_migrate_del.
  rewrite (bool_decide_eq_true_2 _ Hrole). cbn [negb].
  rewrite (migrate_put_loop_prefix items st outcome 0 k Hk Hok Hbad).
  rewrite (migrate_del_loop_prefix items st outcome 0 k Hk Hok Hbad).
  by destruct (decide (k < length items)%nat).
Qed.

Lemma bulk_migration_stops_at_first_failure_witness :
  let st := Samples.leader_r1 in
  let items := [mkKeyItem "users" "u1" "2024" [("name", JStr "Ada")] 7 "r1";
                mkKeyItem "users" "u2" "2024" [] 8 "r1";
                mkKeyItem "users" "u3" "2024" [] 9 "r1"] in
  let outcome := λ j : nat, if decide (j = 1%nat) then TimedOut else Confirmed in
  let done_ (event_of : KeyItem → ShardStore.event) :=
    mkState (ROLE st) (LEADER_URL st)
      (ShardStore.apply_all (store st) (event_of <$> take 1 items))
      (published st ++ (event_of <$> take 1 items)) in
  internal_migrate_put st outcome items =
    (if decide (1 < length items)%nat then publish_failed
     else bulk_done "migrated" (length items), done_ put_event) ∧
  internal_migrate_del st outcome items =
    (if decide (1 < length items)%nat then publish_failed
     else bulk_done "deleted" (length items), done_ del_event).
Proof.
  apply (bulk_migration_stops_at_first_failure Samples.leader_r1
           (λ j : nat, if decide (j = 1%nat) then TimedOut else Confirmed)
           [mkKeyItem "users" "u1" "2024" [("name", JStr "Ada")] 7 "r1";
            mkKeyItem "users" "u2" "2024" [] 8 "r1";
            mkKeyItem "users" "u3" "2024" [] 9 "r1"] 1).
  - reflexivity.
  - simpl. lia.
  - intros j Hj. assert (j = 0%nat) as -> by lia. reflexivity.
  - intros _. discriminate.
Defined.

(** *** Listing and moving keys *)

Lemma internal_keys_slot st tn it :
  it ∈ internal_keys st tn →
  ShardStore.slot_at (store st) (k_table_name it) (k_pk it) (k_sk it)
    = Some (ShardStore.Slot (k_value it) (k_version it) (k_origin it) false) ∧
  match tn with Some t => t = "" ∨ k_table_name it = t | None => True end.
Proof.
  unfold internal_keys. intros (r & Hr & Hit)%list_elem_of_omap.
  destruct r as [[[[[[tbl pk] sk] v] ver] org] del].
  apply elem_of_iter_records in Hr. unfold key_item in Hit.
  destruct del; [done|].
  destruct tn as [t|].
  - destruct (Py.truthy t) eqn:Ht; cbn [andb] in Hit.
    + destruct (bool_decide (tbl = t)) eqn:Hb; cbn [negb] in Hit; [|done].
      injection Hit as <-. apply bool_decide_eq_true in Hb. cbn. by auto.
    + injection Hit as <-. cbn. split; [done|]. left. by destruct t.
  - injection Hit as <-. by cbn.
Qed.

(** [internal_keys] lists the live records, and only them: an item is
    listed exactly when the store holds a slot for its key that is not a
    tombstone and carries its value, version and origin. A table name
    restricts the listing to that table, except the empty name, which
    restricts nothing. *)
Theorem internal_keys_lists_live_records (st : state) (tn : option string)
    (it : KeyItem) :
  it ∈ internal_keys st tn ↔
  ShardStore.slot_at (store st) (k_table_name it) (k_pk it) (k_sk it)
    = Some (ShardStore.Slot (k_value it) (k_version it) (k_origin it) false) ∧
  match tn with Some t => t = "" ∨ k_table_name it = t | None => True end.
Proof.
  split; [apply internal_keys_slot|].
  intros [Hs Htn]. unfold internal_keys. apply list_elem_of_omap.
  exists (k_table_name it, k_pk it, k_sk it, k_value it, k_version it, k_origin it, false).
  split; [by apply elem_of_iter_records|].
  unfold key_item. destruct it as [tbl pk sk v ver org]. cbn in *.
  destruct tn as [t|]; [|done].
  destruct Htn as [->| ->]; [done|].
  rewrite bool_decide_eq_true_2 by done. by rewrite andb_false_r.
Qed.

(** The slot of a key after a confirmed bulk put of items listed by
    another replica. *)
Lemma bulk_put_slot src dst tn outcome items it :
  ROLE dst = "leader" →
  (∀ j, (j < length items)%nat → outcome j = Confirmed) →
  (∀ it, it ∈ items → it ∈ internal_keys src tn) →
  it ∈ items →
  ShardStore.slot_at (store (internal_migrate_put dst outcome items).2)
      (k_table_name it) (k_pk it) (k_sk it) =
    if ShardStore.wins
         (ShardStore.slot_at (store dst) (k_table_name it) (k_pk it) (k_sk it))
         (k_version it) (k_origin it)
    then Some (ShardStore.Slot (k_value it) (k_version it) (k_origin it) false)
    else ShardStore.slot_at (store dst) (k_table_name it) (k_pk it) (k_sk it).
Proof.
  intros Hrole Hok Hsub Hit.
  destruct (bulk_put_all dst outcome items Hrole Hok) as [_ ->]. cbn [store].
  pose proof (apply_all_same_key (put_event it) (put_event <$> items)) as Hsame.
  unfold ShardStore.slot_of_key in Hsame.
  cbn [ShardStore.key put_event ShardStore.ev_table ShardStore.ev_pk
       ShardStore.ev_sk fst snd] in Hsame.
  rewrite Hsame.
  - pose proof (slot_at_apply_same (store dst) (put_event it)) as Hs.
    cbn [put_event ShardStore.ev_table ShardStore.ev_pk ShardStore.ev_sk
         ShardStore.ev_version ShardStore.ev_origin] in Hs.
    fold (put_event it) in Hs. by rewrite Hs.
  - intros e' (it' & -> & Hit')%list_elem_of_fmap Hk.
    destruct (internal_keys_slot src tn it (Hsub it Hit)) as [H1 _].
    destruct (internal_keys_slot src tn it' (Hsub it' Hit')) as [H2 _].
    destruct it as [tbl pk sk v ver org], it' as [tbl' pk' sk' v' ver' org'].
    cbn in *. injection Hk as -> -> ->. rewrite H1 in H2. by injection H2 as -> -> ->.
  - apply list_elem_of_fmap. by exists it.
Qed.

(** Keys listed by one replica and bulk-put on the leader of another,
    every publish being confirmed: the answer is 200 with the number of
    items; each moved key then reads on the destination with the value,
    version and origin it had on the source, unless the destination
    already held a [(version, origin)] for it that is not smaller, in
    which case it keeps what it had; no other key is touched. The items
    may be any selection of the listing, in any order. *)
Theorem migrate_put_round_trip (src dst : state) (tn : option string)
    (outcome : nat → publish_outcome) (items : list KeyItem) :
  ROLE dst = "leader" →
  (∀ j, (j < length items)%nat → outcome j = Confirmed) →
  (∀ it, it ∈ items → it ∈ internal_keys src tn) →
  let out := internal_migrate_put dst outcome items in
  out.1 = bulk_done "migrated" (length items) ∧
  (∀ it, it ∈ items →
     ShardStore.get_with_version (store out.2) (k_table_name it) (k_pk it) (k_sk it) =
       if ShardStore.wins
            (ShardStore.slot_at (store dst) (k_table_name it) (k_pk it) (k_sk it))
            (k_version it) (k_origin it)
       then (Some (k_value it), Some (k_version it), Some (k_origin it))
       else ShardStore.get_with_version (store dst)
              (k_table_name it) (k_pk it) (k_sk it)) ∧
  (∀ tbl pk sk,
     (∀ it, it ∈ items → (k_table_name it, k_pk it, k_sk it) ≠ (tbl, pk, sk)) →
     ShardStore.slot_at (store out.2) tbl pk sk = ShardStore.slot_at (store dst) tbl pk sk).
Proof.
  intros Hrole Hok Hsub. cbn zeta. split_and!.
  - by destruct (bulk_put_all dst outcome items Hrole Hok) as [-> _].
  - intros it Hit. unfold ShardStore.get_with_version.
    rewrite (bulk_put_slot src dst tn outcome items it Hrole Hok Hsub Hit).
    by destruct (ShardStore.wins _ _ _).
  - destruct (bulk_put_all dst outcome items Hrole Hok) as [_ ->]. cbn [store].
    intros tbl pk sk Hne. apply apply_all_other_key.
    intros e (it & -> & Hit)%list_elem_of_fmap. by apply Hne.
Qed.

Lemma migrate_put_round_trip_witness :
  let src := Samples.r1_with_u1 in
  let dst := mkState "leader" (Some "http://r3:8080") ShardStore.init [] in
  let items := [mkKeyItem "users" "u1" "2024" [("name", JStr "Ada")] 1000 "r1"] in
  let out := internal_migrate_put dst (λ _, Confirmed) items in
  out.1 = bulk_done "migrated" (length items) ∧
  (∀ it, it ∈ items →
     ShardStore.get_with_version (store out.2) (k_table_name it) (k_pk it) (k_sk it) =
       if ShardStore.wins
            (ShardStore.slot_at (store dst) (k_table_name it) (k_pk it) (k_sk it))
            (k_version it) (k_origin it)
       then (Some (k_value it), Some (k_version it), Some (k_origin it))
       else ShardStore.get_with_version (store dst)
              (k_table_name it) (k_pk it) (k_sk it)) ∧
  (∀ tbl pk sk,
     (∀ it, it ∈ items → (k_table_name it, k_pk it, k_sk it) ≠ (tbl, pk, sk)) →
     ShardStore.slot_at (store out.2) tbl pk sk = ShardStore.slot_at (store dst) tbl pk sk).
Proof.
  apply (migrate_put_round_trip Samples.r1_with_u1
           (mkState "leader" (Some "http://r3:8080") ShardStore.init []) None
           (λ _, Confirmed)
           [mkKeyItem "users" "u1" "2024" [("name", JStr "Ada")] 1000 "r1"]).
  - reflexivity.
  - reflexivity.
  - intros it Hit.
    replace (internal_keys Samples.r1_with_u1 None)
      with [mkKeyItem "users" "u1" "2024" [("name", JStr "Ada")] 1000 "r1"]
      by (vm_compute; reflexivity).
    exact Hit.
Defined.

End ShardMainExtra.

(** ** Properties of the routing tier's endpoints *)

Module CoordMainFacts.
Import Http CoordStorage CoordMain Samples.

(** *** Table definitions *)

(** C8, as stated, fails: a second RegisterTable call for the same table
    name replaces the stored definition. *)
Lemma register_table_replaces_definition :
  let c1 := (register_table c_empty users_v1).2 in
  let c2 := (register_table c1 users_v2).2 in
  TableRegistry.get (tables c1) "users" = Ok users_v1 ∧
  TableRegistry.get (tables c2) "users" = Ok users_v2 ∧
  users_v2 ≠ users_v1.
Proof. vm_compute. by repeat split. Qed.

Lemma _read_url_tables c clock shard :
  tables (_read_url c clock shard).2 = tables c.
Proof.
  unfold _read_url. destruct (ReplicaRegistry.pick_read_replica _ _ _) as [[u|] reg];
    [by destruct (Py.truthy u) | done].
Qed.

(** Reading a record leaves the table definitions alone. *)
Lemma read_record_tables c clock1 clock2 shard_get tn pk sk :
  tables (read_record c clock1 clock2 shard_get tn pk sk).1.2 = tables c.
Proof.
  unfold read_record.
  destruct (negb _); [done|].
  destruct (_require_table c tn); [|done].
  destruct (_pick_shard_name c pk) as [pshard|]; [|done].
  pose proof (_read_url_tables c clock1 pshard) as H1.
  destruct (_read_url c clock1 pshard) as [[primary|e] c1]; simpl in H1 |- *; [|done].
  destruct (shard_get primary) as [|r]; simpl; [done|].
  destruct (bool_decide (status r = 404)); simpl;
    [|by destruct (raises_for_status _)].
  destruct (_migration_in_progress c1); simpl; [|done].
  destruct (_old_ring c1) as [o|]; simpl; [|done].
  destruct (_pick_shard_name_from_ring o pk) as [oshard|]; simpl; [|done].
  destruct (bool_decide (oshard ≠ pshard)); simpl; [|done].
  pose proof (_read_url_tables c1 clock2 oshard) as H2.
  destruct (_read_url c1 clock2 oshard) as [[fb|e] c2]; simpl in H2 |- *;
    [|congruence].
  destruct (shard_get fb) as [|r2]; simpl; [congruence|].
  destruct (bool_decide (status r2 ≠ 404)); simpl; [|congruence].
  destruct (raises_for_status _); simpl; congruence.
Qed.

(** C8 (amended): once a definition [t] is registered, the stored
    definition for its name is [t]; a later RegisterTable call with
    another name leaves it intact, a later RegisterTable call with the
    same name replaces it by the definition given, and reading a record
    never changes the table definitions. *)
Theorem table_definition_last_registration_wins (c : state) (t t' : TableDef)
    (clock1 clock2 : Z) (shard_get : string → reply) (tn pk sk : string) :
  valid_table t → valid_table t' →
  let c1 := (register_table c t).2 in
  let c2 := (register_table c1 t').2 in
  TableRegistry.get (tables c1) (table_name t) = Ok t ∧
  (table_name t' ≠ table_name t → TableRegistry.get (tables c2) (table_name t) = Ok t) ∧
  (table_name t' = table_name t → TableRegistry.get (tables c2) (table_name t) = Ok t') ∧
  tables (read_record c1 clock1 clock2 shard_get tn pk sk).1.2 = tables c1.
Proof.
  intros Ht Ht' c1 c2. subst c1 c2. unfold register_table, valid_table in *.
  rewrite Ht, Ht'. cbn [negb snd with_tables tables TableRegistry.register].
  split_and!.
  - unfold TableRegistry.get. by rewrite lookup_insert_eq.
  - intros Hne. unfold TableRegistry.get. rewrite lookup_insert_ne by done.
    by rewrite lookup_insert_eq.
  - intros He. unfold TableRegistry.get. rewrite He. by rewrite lookup_insert_eq.
  - apply read_record_tables.
Qed.

Lemma table_definition_last_registration_wins_witness :
  let c1 := (register_table c_empty users_v1).2 in
  let c2 := (register_table c1 users_v2).2 in
  TableRegistry.get (tables c1) "users" = Ok users_v1 ∧
  ("users" ≠ "users" → TableRegistry.get (tables c2) "users" = Ok users_v1) ∧
  ("users" = "users" → TableRegistry.get (tables c2) "users" = Ok users_v2) ∧
  tables (read_record c1 0 0 (λ _, TransportError) "users" "u1" "2024").1.2 = tables c1.
Proof.
  apply (table_definition_last_registration_wins c_empty users_v1
           users_v2 0 0 (λ _, TransportError) "users" "u1" "2024").
  - reflexivity.
  - reflexivity.
Defined.

(** *** Existence checks *)

Lemma poll_followers_spec shard_exists leader reps :
  (poll_followers shard_exists leader reps).1
    = some_follower_says_true shard_exists leader reps.
Proof.
  induction reps as [|rep reps IH]; [done|]. cbn [poll_followers some_follower_says_true existsb].
  case_bool_decide as Hl; cbn [negb andb].
  - exact IH.
  - destruct (_exists_call shard_exists (replica_url rep)) as [[|]|] eqn:Hc.
    + rewrite bool_decide_eq_true_2 by done. done.
    + rewrite bool_decide_eq_false_2 by done. cbn [orb].
      destruct (poll_followers shard_exists leader reps). exact IH.
    + rewrite bool_decide_eq_false_2 by done. cbn [orb].
      destruct (poll_followers shard_exists leader reps). exact IH.
Qed.

(** The leader is never asked again by the second-opinion loop. *)
Lemma poll_followers_trace shard_exists leader reps :
  Forall (λ u, ∃ rep, rep ∈ reps ∧ replica_url rep ≠ leader
                      ∧ u = Py.rstrip_slash (replica_url rep))
         (poll_followers shard_exists leader reps).2.
Proof.
  induction reps as [|rep reps IH]; [constructor|]. cbn [poll_followers].
  assert (Forall (λ u, ∃ rep0, rep0 ∈ rep :: reps ∧ replica_url rep0 ≠ leader
                               ∧ u = Py.rstrip_slash (replica_url rep0))
                 (poll_followers shard_exists leader reps).2) as IH'.
  { eapply Forall_impl; [exact IH|]. intros u (r & Hr & ?). exists r. split; [by right|done]. }
  case_bool_decide as Hl; [exact IH'|].
  assert (∃ rep0, rep0 ∈ rep :: reps ∧ replica_url rep0 ≠ leader
                  ∧ Py.rstrip_slash (replica_url rep) = Py.rstrip_slash (replica_url rep0)) as Hhd.
  { exists rep. split; [by left | done]. }
  destruct (_exists_call shard_exists (replica_url rep)) as [[|]|].
  - constructor; [exact Hhd | constructor].
  - destruct (poll_followers shard_exists leader reps). constructor; [exact Hhd | exact IH'].
  - destruct (poll_followers shard_exists leader reps). constructor; [exact Hhd | exact IH'].
Qed.

(** [_exists_call] in terms of what the replica sends back. *)
Lemma exists_call_answers shard_exists url b :
  _exists_call shard_exists url = Some b ↔ answers shard_exists url b.
Proof.
  unfold _exists_call, answers, raises_for_status. split.
  - destruct (shard_exists (Py.rstrip_slash url)) as [|r]; [done|].
    destruct (bool_decide (400 ≤ status r)) eqn:H1;
      destruct (bool_decide (status r < 600)) eqn:H2; cbn [andb];
      try done; destruct (content r) as [| b' | |] eqn:Hc; try done;
      intros [= ->]; exists r; (split_and!; [done | | done]);
      apply bool_decide_eq_false in H1 || apply bool_decide_eq_false in H2; lia.
  - intros (r & -> & Hst & ->).
    destruct (bool_decide (400 ≤ status r)) eqn:H1; [|done].
    destruct (bool_decide (status r < 600)) eqn:H2; [|done].
    apply bool_decide_eq_true in H1, H2. lia.
Qed.

Lemma exists_call_fails shard_exists url :
  _exists_call shard_exists url = None ↔ query_fails shard_exists url.
Proof.
  unfold query_fails. split.
  - intros Hn b Hb%exists_call_answers. congruence.
  - intros Hf. destruct (_exists_call shard_exists url) as [b|] eqn:Hc; [|done].
    by apply exists_call_answers, Hf in Hc.
Qed.

(** [active_replicas] in terms of the registered replicas and the TTL. *)
Lemma elem_of_active_replicas reg clock shard leader rep :
  rep ∈ ReplicaRegistry.active_replicas reg clock shard ∧ replica_url rep ≠ leader
  ↔ other_active_replica reg clock shard leader rep.
Proof.
  unfold ReplicaRegistry.active_replicas, ReplicaRegistry.replicas_of, ODict.values,
    other_active_replica.
  rewrite list_elem_of_filter, list_elem_of_fmap. split.
  - intros [[Hfresh ([k rep'] & -> & Hin)] Hne].
    match type of Hin with
    | _ ∈ default [] ?o => destruct o as [reps|] eqn:Hreps
    end; [|by apply elem_of_nil in Hin].
    split_and!; [|done|done]. exists reps, k. split; [exact Hreps | exact Hin].
  - intros [(reps & k & Hreps & Hin) [Hfresh Hne]].
    split_and!; [done | | done]. exists (k, rep). split; [done|].
    match goal with
    | |- _ ∈ default [] ?o => replace o with (Some reps) by (symmetry; exact Hreps)
    end.
    exact Hin.
Qed.

Lemma some_follower_says_true_iff shard_exists leader reg clock shard :
  some_follower_says_true shard_exists leader
    (ReplicaRegistry.active_replicas reg clock shard) = true
  ↔ ∃ rep, other_active_replica reg clock shard leader rep ∧
           answers shard_exists (replica_url rep) true.
Proof.
  unfold some_follower_says_true. rewrite existsb_exists. split.
  - intros (rep & Hin%list_elem_of_In & Hb).
    apply andb_true_iff in Hb as [Hne Hans].
    apply negb_true_iff, bool_decide_eq_false in Hne.
    apply bool_decide_eq_true, exists_call_answers in Hans.
    exists rep. split; [by apply elem_of_active_replicas | done].
  - intros (rep & [Hin Hne]%elem_of_active_replicas & Hans).
    exists rep. split; [by apply list_elem_of_In|].
    apply andb_true_iff. split.
    + by apply negb_true_iff, bool_decide_eq_false.
    + by apply bool_decide_eq_true, exists_call_answers.
Qed.

(** C9: for an Exists request on a registered table whose shard has an
    active leader: if the query to the leader fails (no answer, an
    error status, or a body without the answer), the routing tier
    returns 503 and asks no other replica; if the leader answers true,
    the result is true and no other replica is asked; if the leader
    answers false, the leader is asked first, every replica asked after
    it is an active replica of the shard other than the leader, and the
    result is true iff at least one such replica answers true (a
    failing follower counts as not answering true). *)
Theorem exists_asks_leader_first (c : state) (clock1 clock2 : Z)
    (shard_exists : string → reply) (table_name pk sk shard leader : string) :
  valid_key table_name pk sk →
  _require_table c table_name = inl () →
  _pick_shard_name c pk = inl shard →
  ReplicaRegistry.leader_url (replicas c) clock1 shard = Some leader →
  let out := exists_ c clock1 clock2 shard_exists table_name pk sk in
  (query_fails shard_exists leader →
     status out.1 = 503 ∧ out.2 = [Py.rstrip_slash leader]) ∧
  (answers shard_exists leader true →
     out = (mkResponse 200 (BExists true), [Py.rstrip_slash leader])) ∧
  (answers shard_exists leader false →
     ∃ b tr,
       out = (mkResponse 200 (BExists b), Py.rstrip_slash leader :: tr) ∧
       (b = true ↔
          ∃ rep, other_active_replica (replicas c) clock2 shard leader rep ∧
                 answers shard_exists (replica_url rep) true) ∧
       Forall (λ u, ∃ rep, other_active_replica (replicas c) clock2 shard leader rep ∧
                           u = Py.rstrip_slash (replica_url rep)) tr).
Proof.
  intros Hkey Htab Hshard Hleader out. subst out. unfold exists_, valid_key in *.
  rewrite Hkey, Htab, Hshard, Hleader. cbn [negb].
  assert (Py.truthy leader = true) as ->.
  { unfold ReplicaRegistry.leader_url in Hleader.
    destruct (ReplicaRegistry._leader_url _ !! _) as [l|]; [|done].
    destruct (Py.truthy l) eqn:Ht; [|done]. simpl in Hleader.
    destruct (ReplicaRegistry._is_active _ _ _ _); [|done]. congruence. }
  cbn [negb]. split_and!.
  - intros ->%exists_call_fails. done.
  - intros ->%exists_call_answers. done.
  - intros ->%exists_call_answers.
    pose proof (poll_followers_spec shard_exists leader
                  (ReplicaRegistry.active_replicas (replicas c) clock2 shard)) as Hp.
    pose proof (poll_followers_trace shard_exists leader
                  (ReplicaRegistry.active_replicas (replicas c) clock2 shard)) as Ht.
    destruct (poll_followers _ _ _) as [b tr]. cbn [fst snd] in Hp, Ht.
    exists b, tr. split_and!; [done | |].
    + rewrite Hp. apply some_follower_says_true_iff.
    + eapply Forall_impl; [exact Ht|]. intros u (rep & Hin & Hne & ->).
      exists rep. split; [by apply elem_of_active_replicas | done].
Qed.

(** *** Deletes through the routing tier *)




(** *** Reads through the routing tier *)

Lemma pick_from_ring_error o pk e :
  _pick_shard_name_from_ring o pk = inr e → status e = 503 ∨ status e = 500.
Proof.
  unfold _pick_shard_name_from_ring.
  destruct (Ring.get o pk) as [[node|]|]; intros [= <-]; auto.
Qed.

Lemma pick_from_empty_ring o pk :
  Ring._sorted_keys o = [] →
  _pick_shard_name_from_ring o pk = inr (http_exception 503 "No shards registered").
Proof.
  intros He. unfold _pick_shard_name_from_ring. by rewrite RingFacts.get_empty.
Qed.

Lemma read_url_error c clock shard e c' :
  _read_url c clock shard = (inr e, c') → status e = 503.
Proof.
  unfold _read_url.
  destruct (ReplicaRegistry.pick_read_replica _ _ _) as [[u|] reg];
    [destruct (Py.truthy u)|]; by intros [= <- <-].
Qed.

Lemma read_url_flags c clock shard :
  _migration_in_progress (_read_url c clock shard).2 = _migration_in_progress c ∧
  _old_ring (_read_url c clock shard).2 = _old_ring c.
Proof.
  unfold _read_url.
  destruct (ReplicaRegistry.pick_read_replica _ _ _) as [[u|] reg];
    [by destruct (Py.truthy u) | done].
Qed.

Lemma record_from_status b u :
  status (record_from b u) = 200 ∨ status (record_from b u) = 500.
Proof. destruct b as [r [s|]| | |]; simpl; auto. Qed.

(** C5, as stated, fails: while the migration started by the very first
    shard registration is in progress, the snapshot of the pre-migration
    ring is empty; a read that the owner answers with not-found is then
    answered 503, not 200 with a null value. *)
Lemma read_during_first_migration_is_503 :
  let out := read_record c_s1 1 1 (λ _, Reply (http_exception 404 "Not found"))
               "users" "u1" "2024" in
  _migration_in_progress c_s1 = true ∧
  _old_ring c_s1 = Some (Ring.mkRing 4 ∅ []) ∧
  out.1.1 = http_exception 503 "No shards registered" ∧
  out.2 = ["http://r1:8080"].
Proof. vm_compute. by repeat split. Qed.

(** C5 (amended): for a ReadRecord request on a registered table whose
    owner's replica reports not-found:
    - the answer is never a 404;
    - when a migration is in progress and the old owner computed from the
      snapshot of the pre-migration ring differs from the owner and has an
      active replica, that replica is asked too; its record is served if
      it answers with one, and if it reports not-found as well the answer
      is 200 with a null value;
    - when no migration is in progress, or the old owner is the owner
      itself, no further replica is asked and the answer is 200 with a
      null value;
    - when the snapshot is empty, or the old owner has no active replica,
      the answer is 503. *)
Theorem read_record_fallback (c c1 : state) (clock1 clock2 : Z)
    (shard_get : string → reply) (table_name pk sk pshard primary : string)
    (r : response) :
  valid_key table_name pk sk →
  _require_table c table_name = inl () →
  _pick_shard_name c pk = inl pshard →
  _read_url c clock1 pshard = (inl primary, c1) →
  shard_get primary = Reply r → status r = 404 →
  let out := read_record c clock1 clock2 shard_get table_name pk sk in
  let not_found := null_record table_name pk sk primary in
  status out.1.1 ≠ 404 ∧
  (∀ o oshard fallback c2,
     _migration_in_progress c = true → _old_ring c = Some o →
     _pick_shard_name_from_ring o pk = inl oshard → oshard ≠ pshard →
     _read_url c1 clock2 oshard = (inl fallback, c2) →
     out.2 = [primary; fallback] ∧
     (∀ b, shard_get fallback = Reply (mkResponse 200 (BRecord b None)) →
           out.1.1 = mkResponse 200 (BRecord b (Some fallback))) ∧
     (∀ r2, shard_get fallback = Reply r2 → status r2 = 404 → out.1.1 = not_found)) ∧
  (_migration_in_progress c = false ∨ _old_ring c = None ∨
   (∃ o, _old_ring c = Some o ∧ _pick_shard_name_from_ring o pk = inl pshard) →
     out.1.1 = not_found ∧ out.2 = [primary]) ∧
  (∀ o, _migration_in_progress c = true → _old_ring c = Some o →
     (Ring._sorted_keys o = [] ∨
      ∃ oshard e c2, _pick_shard_name_from_ring o pk = inl oshard ∧ oshard ≠ pshard ∧
                     _read_url c1 clock2 oshard = (inr e, c2)) →
     status out.1.1 = 503).
Proof.
  intros Hkey Htab Hshard Hread Hget H404 out not_found. subst out.
  destruct (read_url_flags c clock1 pshard) as [Hflag Hold].
  rewrite Hread in Hflag, Hold. cbn [snd] in Hflag, Hold.
  unfold read_record, valid_key in *.
  rewrite Hkey, Htab, Hshard, Hread, Hget. cbn [negb].
  rewrite bool_decide_eq_true_2 by done. rewrite Hflag, Hold.
  fold not_found. split_and!.
  - (* never a 404 *)
    destruct (_migration_in_progress c); [|done].
    destruct (_old_ring c) as [o|]; [|done].
    destruct (_pick_shard_name_from_ring o pk) as [oshard|e] eqn:Hpick.
    2:{ apply pick_from_ring_error in Hpick as [He|He]; cbn [fst]; rewrite He; lia. }
    case_bool_decide; [|done].
    destruct (_read_url c1 clock2 oshard) as [[fb|e] c2] eqn:Hfb.
    2:{ apply read_url_error in Hfb. cbn [fst]. rewrite Hfb. lia. }
    destruct (shard_get fb) as [|r2]; [done|].
    case_bool_decide; [|done].
    destruct (raises_for_status (status r2)); [done|]. cbn [fst].
    destruct (record_from_status (content r2) fb) as [He|He]; rewrite He; lia.
  - (* the old owner is asked *)
    intros o oshard fb c2 -> -> Hpick Hne Hfb. rewrite Hpick.
    rewrite bool_decide_eq_true_2 by done. rewrite Hfb. split_and!.
    + destruct (shard_get fb) as [|r2]; [done|].
      case_bool_decide; [|done]. by destruct (raises_for_status (status r2)).
    + intros b ->. cbn [status content]. by rewrite bool_decide_eq_true_2.
    + intros r2 -> Hr2. by rewrite bool_decide_eq_false_2 by (by intros ?).
  - (* no further replica is asked *)
    intros [->|[->|(o & -> & Hpick)]].
    + done.
    + by destruct (_migration_in_progress c).
    + destruct (_migration_in_progress c); [|done]. rewrite Hpick.
      by rewrite bool_decide_eq_false_2 by (by intros ?).
  - (* no old owner to ask, or no replica of it *)
    intros o -> -> [Hempty|(oshard & e & c2 & Hpick & Hne & Hfb)].
    + by rewrite pick_from_empty_ring.
    + rewrite Hpick. rewrite bool_decide_eq_true_2 by done. rewrite Hfb.
      cbn [fst]. by eapply read_url_error.
Qed.

(** *** Instances on a small cluster *)

(** During the migration started by [s2], the read of ["u1"] is served
    by the old owner [s1]. *)
Example read_u1_served_by_old_owner :
  let out := read_record c_s2 6 6 only_r1_has_u1 "users" "u1" "2024" in
  out.2 = ["http://r3:8080"; "http://r1:8080"] ∧
  out.1.1 = mkResponse 200 (BRecord ada_record (Some "http://r1:8080")).
Proof. vm_compute. by split. Qed.

Lemma read_record_fallback_witness :
  let out := read_record c_s2 6 6 only_r1_has_u1 "users" "u1" "2024" in
  let not_found := null_record "users" "u1" "2024" "http://r3:8080" in
  status out.1.1 ≠ 404 ∧
  (∀ o oshard fallback c2,
     _migration_in_progress c_s2 = true → _old_ring c_s2 = Some o →
     _pick_shard_name_from_ring o "u1" = inl oshard → oshard ≠ "s2" →
     _read_url (_read_url c_s2 6 "s2").2 6 oshard = (inl fallback, c2) →
     out.2 = ["http://r3:8080"; fallback] ∧
     (∀ b, only_r1_has_u1 fallback = Reply (mkResponse 200 (BRecord b None)) →
           out.1.1 = mkResponse 200 (BRecord b (Some fallback))) ∧
     (∀ r2, only_r1_has_u1 fallback = Reply r2 → status r2 = 404 → out.1.1 = not_found)) ∧
  (_migration_in_progress c_s2 = false ∨ _old_ring c_s2 = None ∨
   (∃ o, _old_ring c_s2 = Some o ∧ _pick_shard_name_from_ring o "u1" = inl "s2") →
     out.1.1 = not_found ∧ out.2 = ["http://r3:8080"]) ∧
  (∀ o, _migration_in_progress c_s2 = true → _old_ring c_s2 = Some o →
     (Ring._sorted_keys o = [] ∨
      ∃ oshard e c2, _pick_shard_name_from_ring o "u1" = inl oshard ∧ oshard ≠ "s2" ∧
                     _read_url (_read_url c_s2 6 "s2").2 6 oshard = (inr e, c2)) →
     status out.1.1 = 503).
Proof.
  apply (read_record_fallback c_s2 (_read_url c_s2 6 "s2").2 6 6 only_r1_has_u1
           "users" "u1" "2024" "s2" "http://r3:8080" (http_exception 404 "Not found")).
  - reflexivity.
  - vm_compute. reflexivity.
  - vm_compute. reflexivity.
  - vm_compute. reflexivity.
  - vm_compute. reflexivity.
  - reflexivity.
Defined.


(** The leader [r1] says the key is absent, the follower [r2] says it
    exists: the answer is true. *)
Example exists_second_opinion :
  exists_ c_s1_r2 2 2 only_r2_says_true "users" "u1" "2024"
    = (mkResponse 200 (BExists true), ["http://r1:8080"; "http://r2:8080"]).
Proof. vm_compute. reflexivity. Qed.

Lemma exists_asks_leader_first_witness :
  (status (exists_ c_s1_r2 2 2 (λ _, TransportError) "users" "u1" "2024").1 = 503 ∧
   (exists_ c_s1_r2 2 2 (λ _, TransportError) "users" "u1" "2024").2
     = [Py.rstrip_slash "http://r1:8080"]) ∧
  exists_ c_s1_r2 2 2 (λ _, Reply (mkResponse 200 (BExists true))) "users" "u1" "2024"
    = (mkResponse 200 (BExists true), [Py.rstrip_slash "http://r1:8080"]) ∧
  (exists_ c_s1_r2 2 2 only_r2_says_true "users" "u1" "2024").1
    = mkResponse 200 (BExists true).
Proof.
  assert (valid_key "users" "u1" "2024") as Hkey by reflexivity.
  assert (_require_table c_s1_r2 "users" = inl ()) as Htab by (vm_compute; reflexivity).
  assert (_pick_shard_name c_s1_r2 "u1" = inl "s1") as Hshard by (vm_compute; reflexivity).
  assert (ReplicaRegistry.leader_url (replicas c_s1_r2) 2 "s1" = Some "http://r1:8080")
    as Hleader by (vm_compute; reflexivity).
  split; [|split].
  - apply (proj1 (exists_asks_leader_first c_s1_r2 2 2 (λ _, TransportError)
                    "users" "u1" "2024" "s1" "http://r1:8080" Hkey Htab Hshard Hleader)).
    intros b (r & Hr & _). discriminate Hr.
  - apply (proj1 (proj2 (exists_asks_leader_first c_s1_r2 2 2
                           (λ _, Reply (mkResponse 200 (BExists true)))
                           "users" "u1" "2024" "s1" "http://r1:8080"
                           Hkey Htab Hshard Hleader))).
    exists (mkResponse 200 (BExists true)). split_and!; [done | | done].
    cbn [status]. lia.
  - destruct (exists_asks_leader_first c_s1_r2 2 2 only_r2_says_true
                "users" "u1" "2024" "s1" "http://r1:8080" Hkey Htab Hshard Hleader)
      as (_ & _ & Hfalse).
    destruct Hfalse as (b & tr & -> & Hb & _).
    + exists (mkResponse 200 (BExists false)). split_and!; [done | | done].
      cbn [status]. lia.
    + cbn [fst]. do 2 f_equal. apply Hb.
      exists (mkReplicaInfo "s1" "http://r2:8080" (Some "r2") Follower 1).
      split.
      * split_and!.
        -- exists [("http://r1:8080",
                    mkReplicaInfo "s1" "http://r1:8080" (Some "r1") Leader 0);
                   ("http://r2:8080",
                    mkReplicaInfo "s1" "http://r2:8080" (Some "r2") Follower 1)],
             "http://r2:8080".
           split; [vm_compute; reflexivity|]. apply list_elem_of_further, list_elem_of_here.
        -- vm_compute. discriminate.
        -- discriminate.
      * exists (mkResponse 200 (BExists true)). split_and!; [done | | done].
        cbn [status]. lia.
Defined.

End CoordMainFacts.

(** ** Routing of writes, membership changes and key migration *)

Module CoordMainExtra.
Import Http CoordStorage CoordMain.

Lemma _leader_url_inl c clock shard u :
  _leader_url c clock shard = inl u →
  ReplicaRegistry.leader_url (replicas c) clock shard = Some u.
Proof.
  unfold _leader_url. destruct (ReplicaRegistry.leader_url _ _ _) as [l|]; [|done].
  destruct (Py.truthy l); [|done]. by intros [= ->].
Qed.

Lemma _leader_url_inr c clock shard e :
  _leader_url c clock shard = inr e → status e = 503.
Proof.
  unfold _leader_url. destruct (ReplicaRegistry.leader_url _ _ _) as [l|].
  - destruct (Py.truthy l); [done|]. by intros [= <-].
  - by intros [= <-].
Qed.

Lemma _pick_shard_name_inl c pk shard :
  _pick_shard_name c pk = inl shard →
  ∃ node, Ring.get (ring c) pk = Ok (Some node) ∧ Ring.url node = shard.
Proof.
  unfold _pick_shard_name, _pick_shard_name_from_ring.
  destruct (Ring.get (ring c) pk) as [[node|]|]; [|done|done].
  intros [= <-]. by exists node.
Qed.

Lemma _require_table_inl c tn :
  _require_table c tn = inl () ↔ TableRegistry.exists_ (tables c) tn = true.
Proof. unfold _require_table. by destruct (TableRegistry.exists_ _ _). Qed.

Lemma _require_table_inr c tn e : _require_table c tn = inr e → status e = 404.
Proof.
  unfold _require_table. destruct (TableRegistry.exists_ _ _); [done|]. by intros [= <-].
Qed.

(** The routing tier sends a create or a delete to one replica at most:
    the active leader of the shard that owns the partition key on the
    ring, and only for a registered table. When it sends nothing it
    answers 422, 404, 503 or 500. *)
Theorem writes_go_to_owner_leader (c : state) (clock : Z)
    (shard_post shard_delete : string → reply)
    (req : ShardMain.CreateRecordRequest) (table_name pk sk : string) :
  let routed (tn pk : string) (out : response * trace) :=
    match out.2 with
    | [] => status out.1 ∈ [422; 404; 503; 500]
    | [u] => TableRegistry.exists_ (tables c) tn = true ∧
             ∃ node, Ring.get (ring c) pk = Ok (Some node) ∧
                     ReplicaRegistry.leader_url (replicas c) clock (Ring.url node) = Some u
    | _ => False
    end in
  routed (ShardMain.req_table_name req) (ShardMain.req_pk req)
         (create_record c clock shard_post req) ∧
  routed table_name pk (delete_record c clock shard_delete table_name pk sk).
Proof.
  cbn zeta. split.
  - unfold create_record. destruct (negb _); [cbn; set_solver|].
    destruct (_require_table c _) as [[]|e] eqn:Ht;
      [|apply _require_table_inr in Ht; cbn [fst snd]; rewrite Ht; set_solver].
    apply _require_table_inl in Ht.
    destruct (_pick_shard_name c _) as [shard|e] eqn:Hp.
    2:{ cbn [fst snd].
        apply CoordMainFacts.pick_from_ring_error in Hp as [-> | ->]; set_solver. }
    apply _pick_shard_name_inl in Hp as (node & Hnode & <-).
    destruct (_leader_url c clock _) as [u|e] eqn:Hl;
      [|apply _leader_url_inr in Hl; cbn [fst snd]; rewrite Hl; set_solver].
    apply _leader_url_inl in Hl.
    destruct (shard_post u) as [|r]; [cbn; by eauto|].
    destruct (raises_for_status _); cbn; by eauto.
  - unfold delete_record. destruct (negb _); [cbn; set_solver|].
    destruct (_require_table c _) as [[]|e] eqn:Ht;
      [|apply _require_table_inr in Ht; cbn [fst snd]; rewrite Ht; set_solver].
    apply _require_table_inl in Ht.
    destruct (_pick_shard_name c _) as [shard|e] eqn:Hp.
    2:{ cbn [fst snd].
        apply CoordMainFacts.pick_from_ring_error in Hp as [-> | ->]; set_solver. }
    apply _pick_shard_name_inl in Hp as (node & Hnode & <-).
    destruct (_leader_url c clock _) as [u|e] eqn:Hl;
      [|apply _leader_url_inr in Hl; cbn [fst snd]; rewrite Hl; set_solver].
    apply _leader_url_inl in Hl.
    destruct (shard_delete u) as [|r]; [cbn; by eauto|].
    destruct (bool_decide _); [cbn; by eauto|].
    destruct (raises_for_status _); cbn; by eauto.
Qed.

Lemma _read_url_frame c clock shard :
  let c' := (_read_url c clock shard).2 in
  tables c' = tables c ∧ ring c' = ring c ∧
  _migration_in_progress c' = _migration_in_progress c ∧ _old_ring c' = _old_ring c ∧
  ReplicaRegistry.ttl_sec (replicas c') = ReplicaRegistry.ttl_sec (replicas c) ∧
  ReplicaRegistry._replicas (replicas c') = ReplicaRegistry._replicas (replicas c) ∧
  ReplicaRegistry._leader_url (replicas c') = ReplicaRegistry._leader_url (replicas c).
Proof.
  cbn zeta. unfold _read_url, ReplicaRegistry.pick_read_replica.
  destruct (ReplicaRegistry.active_replicas _ _ _) as [|r reps]; [done|].
  destruct (_ <$> _) as [u|]; [by destruct (Py.truthy u) | done].
Qed.

(** A read through the routing tier asks two replicas at most, and
    changes nothing but the round-robin cursors of the registry: the
    tables, the ring, the rebalance flags, the registered replicas and
    the recorded leaders stay as they were. *)
Theorem read_record_is_read_only (c : state) (clock1 clock2 : Z)
    (shard_get : string → reply) (table_name pk sk : string) :
  let out := read_record c clock1 clock2 shard_get table_name pk sk in
  let c' := out.1.2 in
  (length out.2 ≤ 2)%nat ∧
  tables c' = tables c ∧ ring c' = ring c ∧
  _migration_in_progress c' = _migration_in_progress c ∧ _old_ring c' = _old_ring c ∧
  ReplicaRegistry.ttl_sec (replicas c') = ReplicaRegistry.ttl_sec (replicas c) ∧
  ReplicaRegistry._replicas (replicas c') = ReplicaRegistry._replicas (replicas c) ∧
  ReplicaRegistry._leader_url (replicas c') = ReplicaRegistry._leader_url (replicas c).
Proof.
  cbn zeta. unfold read_record.
  destruct (negb _); [split; [simpl; lia | by split_and!]|].
  destruct (_require_table c table_name); [|split; [simpl; lia | by split_and!]].
  destruct (_pick_shard_name c pk) as [pshard|]; [|split; [simpl; lia | by split_and!]].
  pose proof (_read_url_frame c clock1 pshard) as H1. cbn zeta in H1.
  destruct (_read_url c clock1 pshard) as [[primary|e] c1]; cbn [snd] in H1;
    [|split; [simpl; lia | exact H1]].
  destruct (shard_get primary) as [|r]; [split; [simpl; lia | exact H1]|].
  destruct (bool_decide (status r = 404)).
  2:{ destruct (raises_for_status _); (split; [simpl; lia | exact H1]). }
  destruct (_migration_in_progress c1) eqn:Hm;
    [|split; [simpl; lia | cbn [fst snd]; rewrite Hm; exact H1]].
  destruct (_old_ring c1) as [o|] eqn:Ho;
    [|split; [simpl; lia | cbn [fst snd]; rewrite Hm, Ho; exact H1]].
  destruct (_pick_shard_name_from_ring o pk) as [oshard|];
    [|split; [simpl; lia | cbn [fst snd]; rewrite Hm, Ho; exact H1]].
  destruct (bool_decide (oshard ≠ pshard));
    [|split; [simpl; lia | cbn [fst snd]; rewrite Hm, Ho; exact H1]].
  pose proof (_read_url_frame c1 clock2 oshard) as H2. cbn zeta in H2.
  assert (tables (_read_url c1 clock2 oshard).2 = tables c ∧
          ring (_read_url c1 clock2 oshard).2 = ring c ∧
          _migration_in_progress (_read_url c1 clock2 oshard).2
            = _migration_in_progress c ∧
          _old_ring (_read_url c1 clock2 oshard).2 = _old_ring c ∧
          ReplicaRegistry.ttl_sec (replicas (_read_url c1 clock2 oshard).2)
            = ReplicaRegistry.ttl_sec (replicas c) ∧
          ReplicaRegistry._replicas (replicas (_read_url c1 clock2 oshard).2)
            = ReplicaRegistry._replicas (replicas c) ∧
          ReplicaRegistry._leader_url (replicas (_read_url c1 clock2 oshard).2)
            = ReplicaRegistry._leader_url (replicas c)) as H12.
  { destruct H1 as (<- & <- & Hm1 & Ho1 & <- & <- & <-).
    destruct H2 as (-> & -> & Hm2 & Ho2 & -> & -> & ->).
    split_and!; try done; congruence. }
  clear H1 H2.
  destruct (_read_url c1 clock2 oshard) as [[fallback|e] c2]; cbn [snd] in H12;
    [|split; [simpl; lia | exact H12]].
  destruct (shard_get fallback) as [|r2]; [split; [simpl; lia | exact H12]|].
  destruct (bool_decide (status r2 ≠ 404)); [|split; [simpl; lia | exact H12]].
  destruct (raises_for_status _); (split; [simpl; lia | exact H12]).
Qed.

(** A record created through the routing tier is read back through it:
    when the create reaches the leader of the owning shard, its publish
    is confirmed and the write wins, the create is answered 200 with
    the value and the minted version, and a read served by a replica of
    that shard whose store holds what the leader's holds is answered
    200 with that value and version. *)
Theorem create_then_read_through_router (c c1 : state) (clock clock1 clock2 now_ns : Z)
    (cfg : ShardMain.config) (sh replica : ShardMain.state) (leader_reply : reply)
    (req : ShardMain.CreateRecordRequest) (shard leader primary : string) :
  let tbl := ShardMain.req_table_name req in
  let pk := ShardMain.req_pk req in
  let sk := ShardMain.req_sk req in
  let w := ShardMain.create cfg sh now_ns ShardMain.Confirmed leader_reply req in
  let stored := mkRecordBody tbl pk sk (Some (ShardMain.req_value req)) (Some now_ns) None in
  ShardMain.valid_request req →
  _require_table c tbl = inl () →
  _pick_shard_name c pk = inl shard →
  _leader_url c clock shard = inl leader →
  ShardMain.ROLE sh = "leader" →
  ShardStore.wins (ShardStore.slot_at (ShardMain.store sh) tbl pk sk)
    now_ns (ShardMain.ORIGIN cfg) = true →
  _read_url c clock1 shard = (inl primary, c1) →
  ShardMain.store replica = ShardMain.store w.2 →
  create_record c clock (λ _, Reply w.1) req
    = (mkResponse 200 (BRecord stored (Some leader)), [leader]) ∧
  (read_record c clock1 clock2 (λ _, Reply (ShardMain.read replica tbl pk sk)) tbl pk sk).1.1
    = mkResponse 200 (BRecord stored (Some primary)).
Proof.
  cbn zeta. intros Hreq Htbl Hpick Hlead Hrole Hwins Hread Hstore.
  split.
  - unfold create_record. unfold ShardMain.valid_request, ShardMain.valid_key,
      ShardMain.nonempty in Hreq.
    rewrite Hreq, Htbl, Hpick, Hlead. cbn [negb].
    rewrite ShardMainExtra.create_leader_confirmed by done. done.
  - unfold read_record. unfold ShardMain.valid_request, ShardMain.valid_key,
      ShardMain.nonempty in Hreq.
    rewrite Hreq, Htbl, Hpick, Hread. cbn [negb].
    assert (ShardMain.read replica (ShardMain.req_table_name req) (ShardMain.req_pk req)
              (ShardMain.req_sk req)
            = mkResponse 200
                (BRecord (mkRecordBody (ShardMain.req_table_name req)
                            (ShardMain.req_pk req) (ShardMain.req_sk req)
                            (Some (ShardMain.req_value req)) (Some now_ns) None) None))
      as ->.
    { unfold ShardMain.read. unfold ShardMain.nonempty. rewrite Hreq, Hstore. cbn [negb].
      rewrite ShardMainExtra.create_leader_confirmed by done. cbn [snd ShardMain.store].
      unfold ShardStore.get_with_version.
      pose proof (ShardStoreExtra.slot_at_apply_same (ShardMain.store sh)
                    (ShardStore.Event ShardStore.PUT (ShardMain.req_table_name req)
                       (ShardMain.req_pk req) (ShardMain.req_sk req)
                       (ShardMain.req_value req) now_ns (ShardMain.ORIGIN cfg))) as Hs.
      cbn [ShardStore.ev_table ShardStore.ev_pk ShardStore.ev_sk ShardStore.ev_version
           ShardStore.ev_origin] in Hs.
      rewrite Hs, Hwins. done. }
    done.
Qed.

Lemma create_then_read_through_router_witness :
  let w := ShardMain.create Samples.cfg_r1 Samples.leader_r1 1000 ShardMain.Confirmed
             TransportError Samples.create_u1 in
  let stored := mkRecordBody "users" "u1" "2024" (Some [("name", JStr "Ada")])
                  (Some 1000) None in
  create_record Samples.c_s1 1 (λ _, Reply w.1) Samples.create_u1
    = (mkResponse 200 (BRecord stored (Some "http://r1:8080")), ["http://r1:8080"]) ∧
  (read_record Samples.c_s1 2 2
     (λ _, Reply (ShardMain.read Samples.r1_with_u1 "users" "u1" "2024"))
     "users" "u1" "2024").1.1
    = mkResponse 200 (BRecord stored (Some "http://r1:8080")).
Proof.
  apply (create_then_read_through_router Samples.c_s1
           (_read_url Samples.c_s1 2 "s1").2 1 2 2 1000
           Samples.cfg_r1 Samples.leader_r1 Samples.r1_with_u1 TransportError
           Samples.create_u1 "s1" "http://r1:8080" "http://r1:8080").
  - reflexivity.
  - vm_compute. reflexivity.
  - vm_compute. reflexivity.
  - vm_compute. reflexivity.
  - reflexivity.
  - reflexivity.
  - vm_compute. reflexivity.
  - reflexivity.
Defined.

(** *** Membership changes *)

Lemma node_names_of_build n l r :
  0 < n → NoDup (l ≫= Ring.vnode_keys n) → Ring.build n l = Ok r →
  node_names r = merge_sort String.le l ∧
  Ring.build (Ring.replicas r) (node_names r) = Ok r.
Proof.
  intros Hn Hnd Hb. unfold node_names. split.
  - by apply (RingExtra.nodes_of_build n).
  - by apply (RingExtra.clone_of_build n l).
Qed.

(** A replica that registers for a shard already on the ring, as a
    heartbeat does, is answered 200 and changes neither the ring nor
    the tables, and starts no migration. Hash collisions between
    virtual nodes are excluded. *)
Theorem heartbeat_keeps_ring (n : Z) (l1 : list string) (s : string) (l2 : list string)
    (c : state) (now clock1 clock2 : Z) (req : RegisterReplicaRequest) :
  0 < n → NoDup ((l1 ++ s :: l2) ≫= Ring.vnode_keys n) →
  Ring.build n (l1 ++ s :: l2) = Ok (ring c) →
  reg_shard_name req = s →
  Py.truthy s && Py.truthy (reg_replica_url req) = true →
  let out := register_replica c now clock1 clock2 req in
  status out.1 = 200 ∧ ring out.2 = ring c ∧ tables out.2 = tables c ∧
  _migration_in_progress out.2 = _migration_in_progress c ∧
  _old_ring out.2 = _old_ring c.
Proof.
  intros Hn Hnd Hb Hs Hvalid. cbn zeta. unfold register_replica.
  rewrite Hs, Hvalid. cbn [negb].
  destruct (CoordStorageFacts.register_total (replicas c) now clock1 s
              (reg_replica_url req) (reg_replica_id req) (reg_role req))
    as (a & lu & reg & ->).
  destruct (RingExtra.build_member n l1 s l2 Hn Hnd)
    as (r & r' & Hb1 & _ & _ & _ & _ & Hadd).
  rewrite Hb in Hb1. injection Hb1 as <-.
  assert (match ReplicaRegistry.leader_url reg clock2 s with
          | Some _ => Ring.add (ring c) (Ring.mkRingNode s)
          | None => Ok (ring c)
          end = Ok (ring c)) as ->.
  { by destruct (ReplicaRegistry.leader_url reg clock2 s). }
  destruct (bool_decide (s ∈ node_names (ring c))); cbn [negb andb]; done.
Qed.

Lemma heartbeat_keeps_ring_witness :
  let out := register_replica Samples.c_s1_r2 9 9 9
               (mkRegister "s1" "http://r2:8080" (Some "r2") ReqAuto) in
  status out.1 = 200 ∧ ring out.2 = ring Samples.c_s1_r2 ∧
  tables out.2 = tables Samples.c_s1_r2 ∧
  _migration_in_progress out.2 = _migration_in_progress Samples.c_s1_r2 ∧
  _old_ring out.2 = _old_ring Samples.c_s1_r2.
Proof.
  apply (heartbeat_keeps_ring 4 [] "s1" [] Samples.c_s1_r2 9 9 9
           (mkRegister "s1" "http://r2:8080" (Some "r2") ReqAuto)).
  - lia.
  - refine (bool_decide_unpack _ _); vm_compute; exact I.
  - vm_compute. reflexivity.
  - reflexivity.
  - reflexivity.
Defined.

(** The first registration for a shard that is not on the ring, once
    the shard has an active leader, is answered 200 and puts the shard
    on the ring. If no migration is in progress one is started, with
    the ring as it was before as the snapshot for reads; if one is in
    progress nothing more is started and the older snapshot stays. Hash
    collisions between virtual nodes are excluded. *)
Theorem new_shard_starts_migration (n : Z) (l : list string) (s : string)
    (c : state) (now clock1 clock2 : Z) (req : RegisterReplicaRequest)
    (a : role_t) (lu : string) (reg : ReplicaRegistry.t) (l0 : string) :
  0 < n → NoDup ((l ++ [s]) ≫= Ring.vnode_keys n) →
  Ring.build n l = Ok (ring c) →
  reg_shard_name req = s →
  Py.truthy s && Py.truthy (reg_replica_url req) = true →
  ReplicaRegistry.register (replicas c) now clock1 s (reg_replica_url req)
    (reg_replica_id req) (reg_role req) = Ok (a, lu, reg) →
  ReplicaRegistry.leader_url reg clock2 s = Some l0 →
  ∃ r', Ring.build n (l ++ [s]) = Ok r' ∧
        let out := register_replica c now clock1 clock2 req in
        status out.1 = 200 ∧
        out.2 = mkState (tables c) r' reg true
                  (if _migration_in_progress c then _old_ring c else Some (ring c)).
Proof.
  intros Hn Hnd Hb Hs Hvalid Hreg Hlead.
  destruct (RingFacts.build_fresh n l s Hn Hnd) as (r0 & Hb0 & Hwf & Hpres & Hcf).
  rewrite Hb in Hb0. injection Hb0 as <-.
  assert (NoDup (l ≫= Ring.vnode_keys n)) as Hndl.
  { rewrite bind_app in Hnd. by apply NoDup_app in Hnd as [? _]. }
  destruct (node_names_of_build n l (ring c) Hn Hndl Hb) as [Hbefore Hclone].
  exists (Ring.added (ring c) (Ring.mkRingNode s)).
  assert (Ring.build n (l ++ [s]) = Ok (Ring.added (ring c) (Ring.mkRingNode s))) as Hb'.
  { rewrite RingFacts.build_snoc, Hb. cbn [rbind]. by apply RingFacts.add_fresh. }
  split; [done|].
  destruct (node_names_of_build n (l ++ [s]) _ Hn Hnd Hb') as [Hafter _].
  cbn zeta. unfold register_replica. rewrite Hs, Hvalid. cbn [negb].
  rewrite Hreg, Hlead. rewrite RingFacts.add_fresh by done.
  rewrite Hclone, Hafter, Hbefore.
  rewrite bool_decide_eq_true_2.
  2:{ rewrite merge_sort_Permutation. set_solver. }
  rewrite bool_decide_eq_false_2.
  2:{ rewrite merge_sort_Permutation. intros Hin.
      apply RingExtra.members_NoDup in Hnd; [|done].
      apply NoDup_app in Hnd as (_ & Hdisj & _). apply (Hdisj s Hin). set_solver. }
  cbn [negb andb _migration_in_progress].
  by destruct (_migration_in_progress c).
Qed.

Lemma new_shard_starts_migration_witness :
  ∃ r', Ring.build 4 (["s1"] ++ ["s2"]) = Ok r' ∧
        let out := register_replica Samples.c_s1_r2 5 5 5
                     (mkRegister "s2" "http://r3:8080" (Some "r3") ReqAuto) in
        status out.1 = 200 ∧
        out.2 = mkState (tables Samples.c_s1_r2) r' (replicas Samples.c_s2) true
                  (if _migration_in_progress Samples.c_s1_r2
                   then _old_ring Samples.c_s1_r2 else Some (ring Samples.c_s1_r2)).
Proof.
  apply (new_shard_starts_migration 4 ["s1"] "s2" Samples.c_s1_r2 5 5 5
           (mkRegister "s2" "http://r3:8080" (Some "r3") ReqAuto)
           Leader "http://r3:8080" (replicas Samples.c_s2) "http://r3:8080").
  - lia.
  - refine (bool_decide_unpack _ _); vm_compute; exact I.
  - vm_compute. reflexivity.
  - reflexivity.
  - reflexivity.
  - vm_compute. reflexivity.
  - vm_compute. reflexivity.
Defined.

(** *** Key migration *)

Lemma bucket_items_acc r src items : ∀ b bs,
  bucket_items r src b items = Ok bs →
  ∀ d, ODict.get bs d =
       if bool_decide (d = src) then ODict.get b d
       else match ODict.get b d with
            | Some m0 => Some (m0 ++ filter (λ it, owned_by r d it = true) items)
            | None => match filter (λ it, owned_by r d it = true) items with
                      | [] => None
                      | m => Some m
                      end
            end.
Proof.
  induction items as [|it items IH]; intros b bs Hb d.
  - cbn in Hb. injection Hb as <-. rewrite filter_nil.
    destruct (bool_decide (d = src)); [done|].
    destruct (ODict.get b d); [by rewrite app_nil_r | done].
  - cbn [bucket_items] in Hb.
    destruct (bucket_step r src b it) as [b1|e] eqn:Hstep; [|done]. cbn [rbind] in Hb.
    rewrite (IH b1 bs Hb d). clear IH Hb.
    unfold bucket_step in Hstep.
    destruct (Ring.get r (ShardMain.k_pk it)) as [[node|]|e] eqn:Hget;
      cbn [rbind] in Hstep; [| |done].
    2:{ injection Hstep as <-.
        rewrite (filter_cons_False _ it); [done|]. unfold owned_by. by rewrite Hget. }
    assert (owned_by r d it = bool_decide (Ring.url node = d)) as Hown.
    { unfold owned_by. by rewrite Hget. }
    destruct (decide (d = src)) as [->|Hd].
    { rewrite !bool_decide_eq_true_2 by done.
      destruct (decide (Ring.url node = src)) as [Hsrc|Hsrc].
      - rewrite bool_decide_eq_true_2 in Hstep by done. by injection Hstep as <-.
      - rewrite bool_decide_eq_false_2 in Hstep by done. injection Hstep as <-.
        by rewrite CoordStorageFacts.odict_get_set_ne. }
    rewrite !(bool_decide_eq_false_2 (d = src)) by done.
    destruct (decide (Ring.url node = src)) as [Hsrc|Hsrc].
    { rewrite bool_decide_eq_true_2 in Hstep by done. injection Hstep as <-.
      rewrite (filter_cons_False _ it); [done|].
      rewrite Hown, bool_decide_eq_false_2 by congruence. done. }
    rewrite bool_decide_eq_false_2 in Hstep by done. injection Hstep as <-.
    destruct (decide (Ring.url node = d)) as [Heq|Hnd].
    + rewrite (filter_cons_True _ it) by (by rewrite Hown, bool_decide_eq_true_2).
      rewrite Heq, CoordStorageFacts.odict_get_set_eq.
      destruct (ODict.get b d); cbn [default from_option id].
      * by rewrite <- app_assoc.
      * done.
    + rewrite CoordStorageFacts.odict_get_set_ne by done.
      rewrite (filter_cons_False _ it); [done|].
      by rewrite Hown, bool_decide_eq_false_2.
Qed.

(** The migration plan for one source shard: when the grouping loop
    goes through, the bucket of a destination shard holds the pulled
    items whose partition key the ring now gives to that shard, in the
    order they were pulled; the source shard itself and shards that are
    given none of the items have no bucket. *)
Theorem bucket_items_groups_by_owner (r : Ring.ring) (src_shard : string)
    (items : list ShardMain.KeyItem) (bs : ODict.t (list ShardMain.KeyItem)) :
  bucket_items r src_shard [] items = Ok bs →
  ∀ d, ODict.get bs d =
       if bool_decide (d = src_shard) then None
       else match filter (λ it, owned_by r d it = true) items with
            | [] => None
            | m => Some m
            end.
Proof. intros Hb d. by rewrite (bucket_items_acc r src_shard items [] bs Hb d). Qed.

Lemma bucket_items_groups_by_owner_witness :
  ODict.get [("s2", [ShardMain.mkKeyItem "users" "u1" "2024" [] 1000 "r1"])] "s2" =
    if bool_decide ("s2" = "s1") then None
    else match filter (λ it, owned_by (ring Samples.c_s2) "s2" it = true)
                 [ShardMain.mkKeyItem "users" "u1" "2024" [] 1000 "r1"] with
         | [] => None
         | m => Some m
         end.
Proof.
  apply (bucket_items_groups_by_owner (ring Samples.c_s2) "s1"
           [ShardMain.mkKeyItem "users" "u1" "2024" [] 1000 "r1"]
           [("s2", [ShardMain.mkKeyItem "users" "u1" "2024" [] 1000 "r1"])]).
  vm_compute. reflexivity.
Defined.

Lemma tombstone_slot src outcome tomb_ver moved it :
  ShardMain.ROLE src = "leader" →
  (∀ j, (j < length moved)%nat → outcome j = ShardMain.Confirmed) →
  it ∈ moved →
  ShardStore.slot_at
      (ShardMain.store
         (ShardMain.internal_migrate_del src outcome (tombstones tomb_ver moved)).2)
      (ShardMain.k_table_name it) (ShardMain.k_pk it) (ShardMain.k_sk it) =
    if ShardStore.wins
         (ShardStore.slot_at (ShardMain.store src)
            (ShardMain.k_table_name it) (ShardMain.k_pk it) (ShardMain.k_sk it))
         tomb_ver "migration"
    then Some (ShardStore.Slot [] tomb_ver "migration" true)
    else ShardStore.slot_at (ShardMain.store src)
           (ShardMain.k_table_name it) (ShardMain.k_pk it) (ShardMain.k_sk it).
Proof.
  intros Hrole Hok Hit.
  destruct (ShardMainExtra.bulk_del_all src outcome (tombstones tomb_ver moved) Hrole)
    as [_ ->].
  { unfold tombstones. by rewrite length_fmap. }
  cbn [ShardMain.store].
  set (e := ShardStore.Event ShardStore.DEL (ShardMain.k_table_name it)
              (ShardMain.k_pk it) (ShardMain.k_sk it) [] tomb_ver "migration").
  pose proof (ShardStoreExtra.apply_all_same_key e
                (ShardMain.del_event <$> tombstones tomb_ver moved)) as Hsame.
  unfold ShardStore.slot_of_key in Hsame.
  cbn [e ShardStore.key ShardStore.ev_table ShardStore.ev_pk ShardStore.ev_sk
       fst snd] in Hsame.
  rewrite Hsame.
  - pose proof (ShardStoreExtra.slot_at_apply_same (ShardMain.store src) e) as Hs.
    cbn [e ShardStore.ev_table ShardStore.ev_pk ShardStore.ev_sk
         ShardStore.ev_version ShardStore.ev_origin] in Hs.
    fold e in Hs. by rewrite Hs.
  - intros e' (t' & -> & Ht')%list_elem_of_fmap Hk.
    apply list_elem_of_fmap in Ht' as (it' & -> & _).
    cbn in Hk. injection Hk as -> -> ->. done.
  - apply list_elem_of_fmap. eexists. split; [|apply list_elem_of_fmap; by exists it].
    done.
Qed.

(** One round of the migration moves a key. The keys are pulled from
    the source leader and grouped by the shard the ring now gives them
    to; a bucket is bulk-put on the destination leader, then deleted on
    the source leader with tombstones of version [tomb_ver], every
    publish being confirmed. Then every item of the bucket belongs to
    the destination and not to the source; on a destination that held
    nothing for the key it reads with the value, version and origin it
    had on the source; and on the source it reads as absent, provided
    [tomb_ver] is greater than the version of the item. *)
Theorem migration_moves_key (r : Ring.ring) (src_shard d : string)
    (src dst : ShardMain.state) (bs : ODict.t (list ShardMain.KeyItem))
    (moved : list ShardMain.KeyItem) (tomb_ver : Z) (it : ShardMain.KeyItem) :
  ShardMain.ROLE src = "leader" → ShardMain.ROLE dst = "leader" →
  bucket_items r src_shard [] (ShardMain.internal_keys src None) = Ok bs →
  ODict.get bs d = Some moved →
  it ∈ moved →
  let dst' := (ShardMain.internal_migrate_put dst (λ _, ShardMain.Confirmed) moved).2 in
  let src' := (ShardMain.internal_migrate_del src (λ _, ShardMain.Confirmed)
                 (tombstones tomb_ver moved)).2 in
  let tbl := ShardMain.k_table_name it in
  let pk := ShardMain.k_pk it in
  let sk := ShardMain.k_sk it in
  (∃ node, Ring.get r pk = Ok (Some node) ∧ Ring.url node = d) ∧ d ≠ src_shard ∧
  (ShardStore.slot_at (ShardMain.store dst) tbl pk sk = None →
     ShardStore.get_with_version (ShardMain.store dst') tbl pk sk
       = (Some (ShardMain.k_value it), Some (ShardMain.k_version it),
          Some (ShardMain.k_origin it))) ∧
  (ShardMain.k_version it < tomb_ver →
     ShardStore.get (ShardMain.store src') tbl pk sk = None ∧
     ShardStore.exists_ (ShardMain.store src') tbl pk sk = false).
Proof.
  intros Hsrc Hdst Hb Hd Hit. cbn zeta.
  pose proof (bucket_items_acc r src_shard _ [] bs Hb d) as Hbucket.
  rewrite Hd in Hbucket. cbn [ODict.get] in Hbucket.
  case_bool_decide as Hne; [done|].
  assert (moved = filter (λ it, owned_by r d it = true)
                    (ShardMain.internal_keys src None)) as Hmoved.
  { destruct (filter _ _); [done|]. by injection Hbucket. }
  clear Hbucket.
  assert (∀ it', it' ∈ moved → it' ∈ ShardMain.internal_keys src None) as Hsub.
  { intros it'. rewrite Hmoved. by intros [_ ?]%list_elem_of_filter. }
  assert (owned_by r d it = true) as Hown.
  { rewrite Hmoved in Hit. by apply list_elem_of_filter in Hit as [? _]. }
  split_and!.
  - unfold owned_by in Hown.
    destruct (Ring.get r (ShardMain.k_pk it)) as [[node|]|]; [|done|done].
    apply bool_decide_eq_true in Hown. by exists node.
  - done.
  - intros Hnone. unfold ShardStore.get_with_version.
    rewrite (ShardMainExtra.bulk_put_slot src dst None (λ _, ShardMain.Confirmed)
               moved it) by done.
    by rewrite Hnone.
  - intros Hver.
    destruct (ShardMainExtra.internal_keys_slot src None it (Hsub it Hit)) as [Hslot _].
    unfold ShardStore.get, ShardStore.exists_.
    rewrite (tombstone_slot src (λ _, ShardMain.Confirmed) tomb_ver moved it) by done.
    rewrite Hslot. unfold ShardStore.wins, Py.tuple_gt.
    cbn [ShardStore.version ShardStore.origin fst snd].
    rewrite decide_False by lia. by rewrite bool_decide_eq_true_2 by lia.
Qed.

Lemma migration_moves_key_witness :
  let it := ShardMain.mkKeyItem "users" "u1" "2024" [("name", JStr "Ada")] 1000 "r1" in
  let src := Samples.r1_with_u1 in
  let dst := ShardMain.mkState "leader" (Some "http://r3:8080") ShardStore.init [] in
  let dst' := (ShardMain.internal_migrate_put dst (λ _, ShardMain.Confirmed) [it]).2 in
  let src' := (ShardMain.internal_migrate_del src (λ _, ShardMain.Confirmed)
                 (tombstones 5000 [it])).2 in
  let tbl := ShardMain.k_table_name it in
  let pk := ShardMain.k_pk it in
  let sk := ShardMain.k_sk it in
  (∃ node, Ring.get (ring Samples.c_s2) pk = Ok (Some node) ∧ Ring.url node = "s2") ∧
  "s2" ≠ "s1" ∧
  (ShardStore.slot_at (ShardMain.store dst) tbl pk sk = None →
     ShardStore.get_with_version (ShardMain.store dst') tbl pk sk
       = (Some (ShardMain.k_value it), Some (ShardMain.k_version it),
          Some (ShardMain.k_origin it))) ∧
  (ShardMain.k_version it < 5000 →
     ShardStore.get (ShardMain.store src') tbl pk sk = None ∧
     ShardStore.exists_ (ShardMain.store src') tbl pk sk = false).
Proof.
  apply (migration_moves_key (ring Samples.c_s2) "s1" "s2" Samples.r1_with_u1
           (ShardMain.mkState "leader" (Some "http://r3:8080") ShardStore.init [])
           [("s2", [ShardMain.mkKeyItem "users" "u1" "2024" [("name", JStr "Ada")] 1000 "r1"])]
           [ShardMain.mkKeyItem "users" "u1" "2024" [("name", JStr "Ada")] 1000 "r1"]
           5000
           (ShardMain.mkKeyItem "users" "u1" "2024" [("name", JStr "Ada")] 1000 "r1")).
  - reflexivity.
  - reflexivity.
  - vm_compute. reflexivity.
  - reflexivity.
  - apply list_elem_of_here.
Defined.

End CoordMainExtra.
